(** * Toolbar docking, directional focus navigation and selector-change
      notification: a shallow embedding of the TypeScript/JavaScript sources

    Three source files are embedded, each in a module of its own:

    - [InlineHeader]     themes/silver/main/ts/ui/header/InlineHeader.ts
    - [DomMovement]      ephox/alloy/navigation/DomMovement.js
    - [SelectorChanged]  the selector-changed module of the editor core

    Conventions.  Pixel quantities are JavaScript numbers; they are embedded
    as rationals ([Q]) with exact arithmetic, [Math.round] being the floor of
    [x + 1/2].  A DOM element or a callback is an opaque identity ([nat]).
    Code that mutates the page threads a [World] through a small state monad
    and appends every call made to an external collaborator (CSS mutation,
    docking controller, broadcast, ...) to a chronological log. *)

From Stdlib Require Import QArith Qround Qminmax Lqa ZArith Lia String List.
From stdpp Require Import gmap strings list.

Open Scope Q_scope.

(** ** A small state monad *)

Definition St (S A : Type) : Type := S -> A * S.

Definition ret {S A : Type} (a : A) : St S A := fun s => (a, s).

Definition bind {S A B : Type} (m : St S A) (k : A -> St S B) : St S B :=
  fun s => let (a, s') := m s in k a s'.

Definition gets {S A : Type} (f : S -> A) : St S A := fun s => (f s, s).

Definition modify {S : Type} (f : S -> S) : St S unit := fun s => (tt, f s).

Definition exec {S A : Type} (m : St S A) (s : S) : S := snd (m s).

Definition eval {S A : Type} (m : St S A) (s : S) : A := fst (m s).

Notation "x <- c ;; k" := (bind c (fun x => k))
  (at level 100, c at next level, right associativity).
Notation "c ;; k" := (bind c (fun _ => k))
  (at level 100, right associativity).

(** [if (b) { c }] for a statement [c]. *)
Definition when {S : Type} (b : bool) (c : St S unit) : St S unit :=
  if b then c else ret tt.

(** ** JavaScript numbers as rationals *)

Definition Qltb (a b : Q) : bool :=
  match a ?= b with Lt => true | _ => false end.

(** [a > b] *)
Definition Qgtb (a b : Q) : bool := Qltb b a.

Definition Math_max (a b : Q) : Q := if Qltb a b then b else a.

Definition Math_min (a b : Q) : Q := if Qltb b a then b else a.

(** [Math.round]: the closest integer, ties towards +infinity. *)
Definition Math_round (a : Q) : Z := Qfloor (a + (1 # 2)).

(** * InlineHeader.ts *)

Module InlineHeader.

Definition Element : Type := nat.

(** An alloy component: its element and its child components
    ([component.element], [component.components()]). *)
#[warnings="-register-all"]
Inductive AlloyComponent : Type :=
| Component (element : Element) (components : list AlloyComponent).

Definition element (c : AlloyComponent) : Element :=
  match c with Component e _ => e end.

Definition components (c : AlloyComponent) : list AlloyComponent :=
  match c with Component _ cs => cs end.

(** The docking mode ['top' | 'bottom']. *)
Inductive Mode : Type := mode_top | mode_bottom.

Definition Mode_eqb (a b : Mode) : bool :=
  match a, b with
  | mode_top, mode_top | mode_bottom, mode_bottom => true
  | _, _ => false
  end.

(** [Options.ToolbarLocation] and [Options.ToolbarMode]. *)
Inductive ToolbarLocation : Type := loc_auto | loc_top | loc_bottom.

Inductive ToolbarMode : Type :=
| tm_default | tm_floating | tm_sliding | tm_scrolling | tm_wrap.

(** [Boxes.Bounds]. *)
Module Boxes.
Record Bounds : Type := bounds
  { x : Q; y : Q; width : Q; height : Q; right : Q; bottom : Q }.
End Boxes.

(** A CSS value: [n + 'px'] or a keyword such as ['absolute']. *)
Inductive CssValue : Type :=
| Px (n : Q)
| Keyword (s : string).

(** Calls to the collaborators, in the order they are made. *)
Inductive Effect : Type :=
| CssSet (e : Element) (property : string) (v : CssValue)
| CssRemove (e : Element) (property : string)
| AttributeSet (e : Element) (name value : string)
| AddClass (e : Element) (cls : string)
| RemoveClass (e : Element) (cls : string)
| DockingSetModes (c : AlloyComponent) (modes : list Mode)
| DockingReset (c : AlloyComponent)
| DockingRefresh (c : AlloyComponent)
| RefreshToolbar (c : AlloyComponent)
| BroadcastOn (mothership : Element) (channels : list string).

(** The mutable state the header reads and writes. *)
Record World : Type := mkWorld
  { visible : bool;                          (* [visible] cell *)
    removed : bool;                          (* [editor.removed] *)
    dockingMode : Mode;                      (* header backstage *)
    floatContainer : option AlloyComponent;  (* [Singleton.Value] *)
    styles : gmap (Element * string) CssValue;
    attributes : gmap (Element * string) string;
    classes : gset (Element * string);
    effects : list Effect }.

Definition M : Type -> Type := St World.

(** The options read from the editor when the header is built. *)
Record Config : Type := mkConfig
  { useFixedToolbarContainer : bool;   (* [Options.useFixedContainer] *)
    isSticky : bool;                   (* [Options.isStickyToolbar] *)
    editorMaxWidthOpt : option Q;      (* max_width option, or editor width *)
    toolbarMode : ToolbarMode;         (* [Options.getToolbarMode] *)
    toolbarLocation : ToolbarLocation  (* [Options.getToolbarLocation] *) }.

(** The page: the elements the header is built on, the constants of the
    libraries, and the geometry queries.  A query reads the current world,
    so that its answer may change after any logged call. *)
Record Env : Type := mkEnv
  { targetElm : Element;
    outerContainer : AlloyComponent;
    uiMothership : Element;
    editorBody : Element;                   (* [editor.getBody()] *)
    SugarBody_body : Element;
    documentElement : Element;              (* [Traverse.documentElement(targetElm)] *)
    VerticalDir_Attribute : string;
    VerticalDir_TopToBottom : string;
    VerticalDir_BottomToTop : string;
    Channels_repositionPopups : string;
    Height_get : World -> Element -> Q;
    Width_get : World -> Element -> Q;
    Width_getOuter : World -> Element -> Q;
    scrollHeight : World -> Element -> Q;   (* [doc.dom.scrollHeight] *)
    Boxes_box : World -> Element -> Boxes.Bounds;
    Boxes_win : World -> Boxes.Bounds;
    SugarLocation_absolute_left : World -> Element -> Q;
    Css_get : World -> Element -> string -> string;
    Utils_parseToInt : string -> option Q;
    window_innerWidth : World -> Q;
    Scroll_get_left : World -> Q;
    OuterContainer_getToolbar : World -> AlloyComponent -> option AlloyComponent }.

(** *** Primitive mutations *)

Definition log (e : Effect) : M unit :=
  modify (fun w => mkWorld (visible w) (removed w) (dockingMode w)
                     (floatContainer w) (styles w) (attributes w)
                     (classes w) (effects w ++ [e])).

Definition set_styles (f : gmap (Element * string) CssValue ->
                           gmap (Element * string) CssValue) : M unit :=
  modify (fun w => mkWorld (visible w) (removed w) (dockingMode w)
                     (floatContainer w) (f (styles w)) (attributes w)
                     (classes w) (effects w)).

Definition Css_set (e : Element) (p : string) (v : CssValue) : M unit :=
  set_styles (insert (e, p) v) ;; log (CssSet e p v).

Definition Css_remove (e : Element) (p : string) : M unit :=
  set_styles (delete (e, p)) ;; log (CssRemove e p).

(** [Css.setAll(element, { p1: v1, ... })]. *)
Fixpoint Css_setAll (e : Element) (props : list (string * CssValue)) : M unit :=
  match props with
  | [] => ret tt
  | (p, v) :: rest => Css_set e p v ;; Css_setAll e rest
  end.

Definition Attribute_set (e : Element) (name value : string) : M unit :=
  modify (fun w => mkWorld (visible w) (removed w) (dockingMode w)
                     (floatContainer w) (styles w)
                     (<[(e, name) := value]> (attributes w))
                     (classes w) (effects w)) ;;
  log (AttributeSet e name value).

Definition DOM_addClass (e : Element) (cls : string) : M unit :=
  modify (fun w => mkWorld (visible w) (removed w) (dockingMode w)
                     (floatContainer w) (styles w) (attributes w)
                     ({[ (e, cls) ]} ∪ classes w) (effects w)) ;;
  log (AddClass e cls).

Definition DOM_removeClass (e : Element) (cls : string) : M unit :=
  modify (fun w => mkWorld (visible w) (removed w) (dockingMode w)
                     (floatContainer w) (styles w) (attributes w)
                     (classes w ∖ {[ (e, cls) ]}) (effects w)) ;;
  log (RemoveClass e cls).

(** [visible.set(b)]. *)
Definition visible_set (b : bool) : M unit :=
  modify (fun w => mkWorld b (removed w) (dockingMode w)
                     (floatContainer w) (styles w) (attributes w)
                     (classes w) (effects w)).

(** Modelled from the spec: the header backstage record
    ([backstage.shared.header]) is built by the backstage module, which is
    not among the sources; the docking mode is one shared value of
    [{top, bottom}], [setDockingMode] persists it, [getDockingMode] reads
    it and [isPositionedAtTop] tells whether it is [top]. *)
Definition setDockingMode (mode : Mode) : M unit :=
  modify (fun w => mkWorld (visible w) (removed w) mode
                     (floatContainer w) (styles w) (attributes w)
                     (classes w) (effects w)).

Definition getDockingMode : M Mode := gets dockingMode.

Definition isPositionedAtTop : M bool :=
  gets (fun w => Mode_eqb (dockingMode w) mode_top).

(** [floatContainer.on(f)]: run [f] on the container when it is set. *)
Definition floatContainer_on (f : AlloyComponent -> M unit) : M unit :=
  fun w => match floatContainer w with
           | Some container => f container w
           | None => (tt, w)
           end.

(** The calls appended to the log by running [m] from [w]. *)
Definition new_effects {A : Type} (m : M A) (w : World) : list Effect :=
  drop (length (effects w)) (effects (exec m w)).

(** Kinds of logged calls. *)
Definition is_broadcast (e : Effect) : bool :=
  match e with BroadcastOn _ _ => true | _ => false end.

Definition is_docking_reset (e : Effect) : bool :=
  match e with DockingReset _ => true | _ => false end.

Definition is_docking_refresh (e : Effect) : bool :=
  match e with DockingRefresh _ => true | _ => false end.

(** Style mutations and the refresh of the split toolbar. *)
Definition is_chrome (e : Effect) : bool :=
  match e with
  | CssSet _ _ _ | CssRemove _ _ | RefreshToolbar _ => true
  | _ => false
  end.

Definition count (f : Effect -> bool) (l : list Effect) : nat :=
  length (List.filter f l).

(** What a computation leaves alone.

    [frames P m]: running [m] keeps the visibility cell, the removed
    flag and the float container, and only appends to the log calls
    that satisfy [P]. *)
Definition frames (P : Effect -> Prop) {A : Type} (m : M A) : Prop :=
  forall w,
    visible (exec m w) = visible w /\
    removed (exec m w) = removed w /\
    floatContainer (exec m w) = floatContainer w /\
    exists l, effects (exec m w) = effects w ++ l /\ Forall P l.

Definition any_effect (e : Effect) : Prop := True.

(** [keeps f m]: running [m] does not change what [f] reads of the world. *)
Definition keeps {X A : Type} (f : World -> X) (m : M A) : Prop :=
  forall w, f (exec m w) = f w.

(** The operations the header exports, and what its surroundings do to
    the state it reads: the editor is removed, the float container is set
    or cleared. *)
Inductive Action : Type :=
| Show
| Hide
| Update (resetDocking : bool)
| UpdateMode (updateUi : bool)
| RepositionPopups
| EditorRemove
| FloatContainerSet (c : AlloyComponent)
| FloatContainerClear.

(** Whether the last of [show()] and [hide()] in a history was [show()]. *)
Definition shown (acts : list Action) : bool :=
  fold_left (fun b a => match a with
                        | Show => true
                        | Hide => false
                        | _ => b
                        end) acts false.


Definition editor_remove : M unit :=
  modify (fun w => mkWorld (visible w) true (dockingMode w)
                     (floatContainer w) (styles w) (attributes w)
                     (classes w) (effects w)).

Definition floatContainer_assign (c : option AlloyComponent) : M unit :=
  modify (fun w => mkWorld (visible w) (removed w) (dockingMode w)
                     c (styles w) (attributes w) (classes w) (effects w)).

Section Header.

Variable cfg : Config.
Variable env : Env.

Definition isSplitToolbar : bool :=
  match toolbarMode cfg with
  | tm_sliding | tm_floating => true
  | _ => false
  end.

Definition isVisible : M bool :=
  gets (fun w => visible w && negb (removed w)).

(** The offset is the height of the second child of the toolbar when
    there is one ([tbar.components().length > 1]). *)
Definition calcToolbarOffset (toolbar : option AlloyComponent) : M Q :=
  gets (fun w =>
    if isSplitToolbar then
      match toolbar with
      | None => 0
      | Some tbar =>
          match components tbar with
          | _ :: drawer :: _ => Height_get env w (element drawer)
          | _ => 0
          end
      end
    else 0).

Definition calcMode (container : AlloyComponent) : M Mode :=
  match toolbarLocation cfg with
  | loc_auto =>
      toolbar <- gets (fun w => OuterContainer_getToolbar env w (outerContainer env)) ;;
      offset <- calcToolbarOffset toolbar ;;
      toolbarHeight <- gets (fun w => Height_get env w (element container) - offset) ;;
      targetBounds <- gets (fun w => Boxes_box env w (targetElm env)) ;;
      let roomAtTop := Qgtb (Boxes.y targetBounds) toolbarHeight in
      if roomAtTop then ret mode_top
      else
        let doc := documentElement env in
        docHeight <- gets (fun w => Math_max (scrollHeight env w doc)
                                             (Height_get env w doc)) ;;
        let roomAtBottom :=
          Qltb (Boxes.bottom targetBounds) (docHeight - toolbarHeight) in
        if roomAtBottom then ret mode_bottom
        else
          winBounds <- gets (Boxes_win env) ;;
          let isRoomAtBottomViewport :=
            Qltb (Boxes.bottom winBounds)
                 (Boxes.bottom targetBounds - toolbarHeight) in
          ret (if isRoomAtBottomViewport then mode_bottom else mode_top)
  | loc_bottom => ret mode_bottom
  | loc_top => ret mode_top
  end.

Definition setupMode (mode : Mode) : M unit :=
  floatContainer_on (fun container =>
    log (DockingSetModes container [mode]) ;;
    setDockingMode mode ;;
    atTop <- isPositionedAtTop ;;
    let verticalDir := if atTop : bool then VerticalDir_TopToBottom env
                       else VerticalDir_BottomToTop env in
    Attribute_set (element container) (VerticalDir_Attribute env) verticalDir).

(** The vertical-direction attribute value that goes with a mode. *)
Definition verticalDir_of (mode : Mode) : string :=
  match mode with
  | mode_top => VerticalDir_TopToBottom env
  | mode_bottom => VerticalDir_BottomToTop env
  end.

Definition updateChromeWidth : M unit :=
  floatContainer_on (fun container =>
    maxWidth <- match editorMaxWidthOpt cfg with
                | Some mw => ret mw
                | None =>
                    gets (fun w =>
                      let bodyMargin :=
                        default 0 (Utils_parseToInt env
                          (Css_get env w (SugarBody_body env) "margin-left")) in
                      Width_get env w (SugarBody_body env)
                      - SugarLocation_absolute_left env w (targetElm env)
                      + bodyMargin)
                end ;;
    Css_set (element container) "max-width" (Px maxWidth)).

Definition minimumToolbarWidth : Q := 150.

(** The optional [{ width }] object of [updateChromePosition]. *)
Definition widthProperties (optToolbarWidth : option Q)
    (targetBounds : Boxes.Bounds) : M (list (string * CssValue)) :=
  innerWidth <- gets (window_innerWidth env) ;;
  match optToolbarWidth with
  | Some toolbarWidth =>
      if Qgtb (Boxes.x targetBounds) innerWidth then
        scroll_left <- gets (Scroll_get_left env) ;;
        innerWidth' <- gets (window_innerWidth env) ;;
        let availableWidth :=
          innerWidth' - (Boxes.x targetBounds - scroll_left) in
        let width :=
          Math_max minimumToolbarWidth (Math_min toolbarWidth availableWidth) in
        ret [("width"%string, Px width)]
      else ret []
  | None => ret []
  end.

Definition updateChromePosition (optToolbarWidth : option Q) : M unit :=
  floatContainer_on (fun container =>
    toolbar <- gets (fun w => OuterContainer_getToolbar env w (outerContainer env)) ;;
    offset <- calcToolbarOffset toolbar ;;
    targetBounds <- gets (fun w => Boxes_box env w (targetElm env)) ;;
    atTop <- isPositionedAtTop ;;
    top <- (if atTop : bool then
              gets (fun w =>
                Math_max (Boxes.y targetBounds
                          - Height_get env w (element container) + offset) 0)
            else ret (Boxes.bottom targetBounds)) ;;
    let baseProperties :=
      [("position"%string, Keyword "absolute");
       ("left"%string, Px (inject_Z (Math_round (Boxes.x targetBounds))));
       ("top"%string, Px (inject_Z (Math_round top)))] in
    widthProps <- widthProperties optToolbarWidth targetBounds ;;
    Css_setAll (element (outerContainer env)) (baseProperties ++ widthProps)).

Definition repositionPopups : M unit :=
  log (BroadcastOn (uiMothership env) [Channels_repositionPopups env]).

Definition restoreAndGetCompleteOuterContainerWidth : M (option Q) :=
  if negb (useFixedToolbarContainer cfg) then
    Css_set (element (outerContainer env)) "position" (Keyword "absolute") ;;
    Css_set (element (outerContainer env)) "left" (Px 0) ;;
    Css_remove (element (outerContainer env)) "width" ;;
    w <- gets (fun w => Width_getOuter env w (element (outerContainer env))) ;;
    ret (Some w)
  else ret None.

Definition updateChromeUi (resetDocking : bool) : M unit :=
  vis <- isVisible ;;
  if negb vis then ret tt
  else
    when (negb (useFixedToolbarContainer cfg)) updateChromeWidth ;;
    optToolbarWidth <- restoreAndGetCompleteOuterContainerWidth ;;
    when isSplitToolbar (log (RefreshToolbar (outerContainer env))) ;;
    when (negb (useFixedToolbarContainer cfg))
         (updateChromePosition optToolbarWidth) ;;
    when (isSticky cfg)
         (floatContainer_on (fun container =>
            log (if resetDocking then DockingReset container
                 else DockingRefresh container))) ;;
    repositionPopups.

Definition updateMode (updateUi : bool) : M unit :=
  vis <- isVisible ;;
  if useFixedToolbarContainer cfg || negb (isSticky cfg) || negb vis
  then ret tt
  else
    floatContainer_on (fun container =>
      currentMode <- getDockingMode ;;
      newMode <- calcMode container ;;
      if negb (Mode_eqb newMode currentMode) then
        setupMode newMode ;;
        when updateUi (updateChromeUi true)
      else ret tt).

(** [uiComponents.outerContainer] is a component by its declared type,
    so the guard of [hide] on it is taken. *)
Definition show : M unit :=
  visible_set true ;;
  Css_set (element (outerContainer env)) "display" (Keyword "flex") ;;
  DOM_addClass (editorBody env) "mce-edit-focus" ;;
  Css_remove (uiMothership env) "display" ;;
  updateMode false ;;
  updateChromeUi false.

Definition hide : M unit :=
  visible_set false ;;
  Css_set (element (outerContainer env)) "display" (Keyword "none") ;;
  DOM_removeClass (editorBody env) "mce-edit-focus" ;;
  Css_set (uiMothership env) "display" (Keyword "none").

Definition act (a : Action) : M unit :=
  match a with
  | Show => show
  | Hide => hide
  | Update resetDocking => updateChromeUi resetDocking
  | UpdateMode updateUi => updateMode updateUi
  | RepositionPopups => repositionPopups
  | EditorRemove => editor_remove
  | FloatContainerSet c => floatContainer_assign (Some c)
  | FloatContainerClear => floatContainer_assign None
  end.

Definition run (acts : list Action) (w : World) : World :=
  fold_left (fun w a => exec (act a) w) acts w.

End Header.

(** *** A concrete page, for examples *)

Module Demo.

Definition box (x y right bottom : Q) : Boxes.Bounds :=
  Boxes.bounds x y (right - x) (bottom - y) right bottom.

Definition target : Element := 1%nat.
Definition outer : AlloyComponent := Component 2%nat [].
Definition doc : Element := 6%nat.
Definition container : AlloyComponent := Component 7%nat [].
Definition drawer : AlloyComponent := Component 9%nat [].
Definition toolbar : AlloyComponent :=
  Component 8%nat [Component 10%nat []; drawer].

(** A page with fixed geometry: the bounds of the target and of the
    viewport, the height of every element, the scroll height of the
    document, the natural width of the outer container, the window
    width and the horizontal scroll. *)
Definition page (targetBounds winBounds : Boxes.Bounds)
    (heights : Element -> Q) (docScrollHeight outerWidth innerWidth scrollLeft : Q)
    (tbar : option AlloyComponent) : Env :=
  mkEnv target outer 3%nat 4%nat 5%nat doc
        "data-alloy-vertical-dir" "toptobottom" "bottomtotop" "reposition.popups"
        (fun _ e => heights e)
        (fun _ _ => 1000)
        (fun _ _ => outerWidth)
        (fun _ _ => docScrollHeight)
        (fun _ _ => targetBounds)
        (fun _ => winBounds)
        (fun _ _ => Boxes.x targetBounds)
        (fun _ _ _ => "8px"%string)
        (fun _ => Some 8)
        (fun _ => innerWidth)
        (fun _ => scrollLeft)
        (fun _ _ => tbar).

(** The float container is 40 pixels high, the drawer 30, the document
    element as high as its scroll height. *)
Definition heights (docHeight : Q) (e : Element) : Q :=
  if Nat.eqb e 7%nat then 40
  else if Nat.eqb e 9%nat then 30
  else if Nat.eqb e 6%nat then docHeight
  else 0.

Definition config (location : ToolbarLocation) (mode : ToolbarMode) : Config :=
  mkConfig false true None mode location.

Definition world (vis : bool) (mode : Mode) : World :=
  mkWorld vis false mode (Some container) ∅ ∅ ∅ [].


(** A page with room above the target, which starts at [y = 500]. *)
Definition roomy_page : Env :=
  page (box 0 500 800 900) (box 0 0 800 600) (heights 2000) 2000 800 800 0 None.

(** A wide page scrolled sideways: the target starts at [x = 1200] in a
    window 1000 pixels wide, the outer container is 400 pixels wide. *)
Definition wide_page (scrollLeft : Q) : Env :=
  page (box 1200 500 2000 900) (box scrollLeft 0 (scrollLeft + 1000) 600)
       (heights 2000) 2000 400 1000 scrollLeft None.

End Demo.

End InlineHeader.

(** * DomMovement.js *)

Module DomMovement.

Definition Element : Type := nat.

Inductive TextDirection : Type := ltr | rtl.

Record Component : Type := mkComponent
  { element : Element;      (* [component.element()] *)
    logSpec : string        (* [component.logSpec()] *) }.

(** A focus manager; [set] is a call on the manager and is logged. *)
Record FocusManager : Type := mkFocusManager
  { manager_id : nat;
    get : Component -> option Element }.

Record Info : Type := mkInfo
  { focusManager : option FocusManager   (* [info.focusManager()] *) }.

Inductive LogArg : Type :=
| LogString (s : string)
| LogElement (e : Element).

Inductive Effect : Type :=
| ConsoleLog (args : list LogArg)
| TriggerFocus (newFocus : Element) (origin : Element)
| ManagerSet (manager : nat) (c : Component) (newFocus : Element).

Definition M : Type -> Type := St (list Effect).

Definition log (e : Effect) : M unit := modify (fun t => t ++ [e]).

(** A movement function: container element, focused element and info to
    an optional new focus target; it may log calls of its own. *)
Definition Move : Type := Element -> Element -> Info -> M (option Element).

Definition is_commit (e : Effect) : bool :=
  match e with
  | TriggerFocus _ _ | ManagerSet _ _ _ => true
  | ConsoleLog _ => false
  end.

Section Handlers.

Variable SimulatedEvent : Type.
Variable getDirection : Element -> TextDirection.  (* [Direction.getDirection] *)
Variable Focus_search : Element -> option Element. (* [Focus.search] *)

(** Modelled from the spec: [Direction.onDirection] of the sugar library
    is not among the sources; for a left-to-right element it yields its
    first argument and for a right-to-left element its second. *)
Definition Direction_onDirection {A : Type} (isLtr isRtl : A)
    (element : Element) : A :=
  match getDirection element with
  | rtl => isRtl
  | ltr => isLtr
  end.

Definition getFocused (component : Component) (info : Info)
    : M (option Element) :=
  log (ConsoleLog [LogString "getFocused"; LogString (logSpec component)]) ;;
  match focusManager info with
  | None =>
      log (ConsoleLog [LogString "no focus manager"]) ;;
      ret (Focus_search (element component))
  | Some manager =>
      log (ConsoleLog [LogString "focus manager"]) ;;
      let r := get manager component in
      log (ConsoleLog [LogString "r";
                       match r with
                       | Some e => LogElement e
                       | None => LogString "none"
                       end]) ;;
      ret r
  end.

Definition use (move : Move) (component : Component)
    (simulatedEvent : SimulatedEvent) (info : Info) : M (option bool) :=
  focusedOpt <- getFocused component info ;;
  outcome <- match focusedOpt with
             | Some focused => move (element component) focused info
             | None => ret None
             end ;;
  match outcome with
  | Some newFocus =>
      match focusManager info with
      | None => log (TriggerFocus newFocus (element component))
      | Some manager => log (ManagerSet (manager_id manager) component newFocus)
      end ;;
      ret (Some true)
  | None => ret None
  end.

Definition useH (movement : Element -> Move) (component : Component)
    (simulatedEvent : SimulatedEvent) (info : Info) : M (option bool) :=
  let move := movement (element component) in
  use move component simulatedEvent info.

Definition west (moveLeft moveRight : Move) :=
  let movement := Direction_onDirection moveLeft moveRight in
  useH movement.

Definition east (moveLeft moveRight : Move) :=
  let movement := Direction_onDirection moveRight moveLeft in
  useH movement.

Definition useV (move : Move) (component : Component)
    (simulatedEvent : SimulatedEvent) (info : Info) : M (option bool) :=
  use move component simulatedEvent info.

Definition north := useV.
Definition south := useV.

(** The four entry points, and the handler each one builds. *)
Inductive Entry : Type :=
| West (moveLeft moveRight : Move)
| East (moveLeft moveRight : Move)
| North (move : Move)
| South (move : Move).

Definition handler_of (entry : Entry)
    : Component -> SimulatedEvent -> Info -> M (option bool) :=
  match entry with
  | West moveLeft moveRight => west moveLeft moveRight
  | East moveLeft moveRight => east moveLeft moveRight
  | North move => north move
  | South move => south move
  end.

(** The movement function a handler ends up calling on a component. *)
Definition movement_of (entry : Entry) (component : Component) : Move :=
  match entry with
  | West moveLeft moveRight =>
      Direction_onDirection moveLeft moveRight (element component)
  | East moveLeft moveRight =>
      Direction_onDirection moveRight moveLeft (element component)
  | North move | South move => move
  end.

(** The focused descendant a handler starts from: the manager's when
    one is configured, the generic search otherwise. *)
Definition focused_of (component : Component) (info : Info) : option Element :=
  match focusManager info with
  | None => Focus_search (element component)
  | Some manager => get manager component
  end.

(** The console output of [getFocused]. *)
Definition getFocused_logs (component : Component) (info : Info) : list Effect :=
  ConsoleLog [LogString "getFocused"; LogString (logSpec component)]
  :: match focusManager info with
     | None => [ConsoleLog [LogString "no focus manager"]]
     | Some manager =>
         [ConsoleLog [LogString "focus manager"];
          ConsoleLog [LogString "r";
                      match get manager component with
                      | Some e => LogElement e
                      | None => LogString "none"
                      end]]
     end.

End Handlers.

(** Movement functions that leave a mark in the log and decline. *)
Definition mark (name : string) : Move :=
  fun _ _ _ => log (ConsoleLog [LogString name]) ;; ret None.

End DomMovement.

(** * The selector-changed module *)

Module SelectorChanged.

Definition Node : Type := nat.
Definition Callback : Type := nat.   (* a function, compared by identity *)
Definition ArrayRef : Type := nat.   (* an array, held by reference *)

(** A JavaScript object used as a map from selectors: the keys in
    insertion order.  Selectors are assumed not to be names inherited from
    [Object.prototype] nor integer-like keys. *)
Definition Obj (V : Type) : Type := list (string * V).

Definition Obj_get {V : Type} (o : Obj V) (k : string) : option V :=
  snd <$> List.find (fun kv => bool_decide (fst kv = k)) o.

(** [o[k]] is truthy: every value stored is an array. *)
Definition Obj_has {V : Type} (o : Obj V) (k : string) : bool :=
  match Obj_get o k with Some _ => true | None => false end.

(** [o[k] = v]: an existing key keeps its place, a new one goes last. *)
Fixpoint Obj_set {V : Type} (k : string) (v : V) (o : Obj V) : Obj V :=
  match o with
  | [] => [(k, v)]
  | (k', v') :: rest =>
      if bool_decide (k' = k) then (k, v) :: rest
      else (k', v') :: Obj_set k v rest
  end.

(** [delete o[k]]. *)
Definition Obj_delete {V : Type} (k : string) (o : Obj V) : Obj V :=
  List.filter (fun kv => negb (bool_decide (fst kv = k))) o.

(** The arrays of callbacks, by reference: [selectorChangedData] and
    [currentSelectors] may hold the same array. *)
Definition Heap : Type := list (list Callback).

Definition read (h : Heap) (r : ArrayRef) : list Callback :=
  default [] (h !! r).

Definition alloc (l : list Callback) (h : Heap) : ArrayRef * Heap :=
  (length h, h ++ [l]).

(** [array.push(callback)]. *)
Definition push (r : ArrayRef) (callback : Callback) (h : Heap) : Heap :=
  alter (fun l => l ++ [callback]) r h.

(** One invocation [callback(active, { node, selector, parents })]. *)
Record Call : Type := mkCall
  { callback : Callback;
    active : bool;
    node : Node;
    selector : string;
    parents : list Node }.

Record Maps : Type := mkMaps
  { selectorChangedData : Obj ArrayRef;
    currentSelectors : Obj ArrayRef }.

(** [maps] is [None] until [setup] has run: both variables are undefined
    and the NodeChange handler is not bound. *)
Record State : Type := mkState
  { heap : Heap;
    maps : option Maps;
    calls : list Call }.

Definition initial : State := mkState [] None [].

Definition deleteFromCallbackMap (callbackMap : Obj ArrayRef)
    (selector : string) (callback : Callback) (h : Heap)
    : Obj ArrayRef * Heap :=
  match Obj_get callbackMap selector with
  | Some r =>
      let newCallbacks :=
        List.filter (fun cb => negb (Nat.eqb cb callback)) (read h r) in
      let (r', h') := alloc newCallbacks h in
      if Nat.eqb (length newCallbacks) 0
      then (Obj_delete selector callbackMap, h')
      else (Obj_set selector r' callbackMap, h')
  | None => (callbackMap, h)
  end.

Section Editor.

Variable dom_is : Node -> string -> bool.     (* [editor.dom.is] *)
Variable getParents : Node -> list Node.      (* [editor.dom.getParents] up to the root *)

Definition findMatchingNode (selector : string) (nodes : list Node)
    : option Node :=
  List.find (fun node => dom_is node selector) nodes.

Definition invoke (h : Heap) (callbacks : ArrayRef) (active : bool)
    (node : Node) (selector : string) (parents : list Node) : list Call :=
  map (fun cb => mkCall cb active node selector parents) (read h callbacks).

(** The body of the first [Obj.each] of the NodeChange handler, on the
    entry [(selector, callbacks)] of [selectorChangedData]. *)
Definition checkNew (h : Heap) (parents : list Node)
    (acc : Obj ArrayRef * Obj ArrayRef * list Call)
    (entry : string * ArrayRef)
    : Obj ArrayRef * Obj ArrayRef * list Call :=
  let '(currentSelectors, matchedSelectors, calls) := acc in
  let (selector, callbacks) := entry in
  match findMatchingNode selector parents with
  | Some node =>
      let '(currentSelectors', calls') :=
        if negb (Obj_has currentSelectors selector)
        then (Obj_set selector callbacks currentSelectors,
              calls ++ invoke h callbacks true node selector parents)
        else (currentSelectors, calls) in
      (currentSelectors', Obj_set selector callbacks matchedSelectors, calls')
  | None => acc
  end.

(** The body of the second [Obj.each], on an entry of
    [currentSelectors]. *)
Definition checkStill (h : Heap) (node : Node) (parents : list Node)
    (matchedSelectors : Obj ArrayRef)
    (acc : Obj ArrayRef * list Call) (entry : string * ArrayRef)
    : Obj ArrayRef * list Call :=
  let (currentSelectors, calls) := acc in
  let (selector, callbacks) := entry in
  if negb (Obj_has matchedSelectors selector)
  then (Obj_delete selector currentSelectors,
        calls ++ invoke h callbacks false node selector parents)
  else acc.

(** The NodeChange handler bound by [setup].  [Obj.each] walks the keys
    the object has when the loop starts; the callbacks do not call back
    into this module, so the entries are those of that moment. *)
Definition nodeChange (e_element : Node) (st : State) : State :=
  match maps st with
  | None => st
  | Some m =>
      let node := e_element in
      let parents := getParents node in
      let '(current1, matchedSelectors, calls1) :=
        fold_left (checkNew (heap st) parents) (selectorChangedData m)
                  (currentSelectors m, [], calls st) in
      let '(current2, calls2) :=
        fold_left (checkStill (heap st) node parents matchedSelectors)
                  current1 (current1, calls1) in
      mkState (heap st) (Some (mkMaps (selectorChangedData m) current2)) calls2
  end.

Definition setup (st : State) : State :=
  mkState (heap st) (Some (mkMaps [] [])) (calls st).

(** [selectorChangedWithUnbind(selector, callback)], the selection
    starting at [start]; the [unbind] it returns is [unbind selector
    callback] below. *)
Definition selectorChangedWithUnbind (selector : string)
    (callback : Callback) (start : Node) (st : State) : State :=
  let st := match maps st with None => setup st | Some _ => st end in
  match maps st with
  | None => st
  | Some m =>
      let '(data, h) :=
        if negb (Obj_has (selectorChangedData m) selector)
        then let (r, h) := alloc [] (heap st) in
             (Obj_set selector r (selectorChangedData m), h)
        else (selectorChangedData m, heap st) in
      let h := match Obj_get data selector with
               | Some r => push r callback h
               | None => h
               end in
      let current :=
        match findMatchingNode selector (getParents start) with
        | Some _ =>
            match Obj_get data selector with
            | Some r => Obj_set selector r (currentSelectors m)
            | None => currentSelectors m
            end
        | None => currentSelectors m
        end in
      mkState h (Some (mkMaps data current)) (calls st)
  end.

(** The [unbind] closure of a registration; it exists only once
    [setup] has run. *)
Definition unbind (selector : string) (callback : Callback) (st : State)
    : State :=
  match maps st with
  | None => st
  | Some m =>
      let (data, h1) :=
        deleteFromCallbackMap (selectorChangedData m) selector callback (heap st) in
      let (current, h2) :=
        deleteFromCallbackMap (currentSelectors m) selector callback h1 in
      mkState h2 (Some (mkMaps data current)) (calls st)
  end.

(** The match state of a selector: whether [currentSelectors] has it,
    and the callbacks held there; whether [selectorChangedData] has it, and
    the callbacks registered there. *)
Definition matched (st : State) (sel : string) : bool :=
  match maps st with
  | Some m => Obj_has (currentSelectors m) sel
  | None => false
  end.

Definition matched_callbacks (st : State) (sel : string) : list Callback :=
  match maps st with
  | Some m =>
      match Obj_get (currentSelectors m) sel with
      | Some r => read (heap st) r
      | None => []
      end
  | None => []
  end.

Definition registered (st : State) (sel : string) : bool :=
  match maps st with
  | Some m => Obj_has (selectorChangedData m) sel
  | None => false
  end.

Definition registered_callbacks (st : State) (sel : string) : list Callback :=
  match maps st with
  | Some m =>
      match Obj_get (selectorChangedData m) sel with
      | Some r => read (heap st) r
      | None => []
      end
  | None => []
  end.

(** No selector is held twice by either object. *)
Definition keys_unique (st : State) : Prop :=
  forall m, maps st = Some m ->
            NoDup (map fst (selectorChangedData m)) /\
            NoDup (map fst (currentSelectors m)).


(** Every array an object holds has been allocated. *)
Definition refs_valid (st : State) : Prop :=
  forall m, maps st = Some m ->
    (forall k r, Obj_get (selectorChangedData m) k = Some r ->
                 (r < length (heap st))%nat) /\
    (forall k r, Obj_get (currentSelectors m) k = Some r ->
                 (r < length (heap st))%nat).

(** Two selectors never share an array of [selectorChangedData]. *)
Definition data_injective (st : State) : Prop :=
  forall m, maps st = Some m ->
    forall k1 k2 r, Obj_get (selectorChangedData m) k1 = Some r ->
                    Obj_get (selectorChangedData m) k2 = Some r -> k1 = k2.

(** A selector of [currentSelectors] is a selector of
    [selectorChangedData], and its array is either the very array held
    there or an array held nowhere in [selectorChangedData] whose callbacks
    are all among those registered. *)
Definition linked (st : State) : Prop :=
  forall m, maps st = Some m ->
    forall k r, Obj_get (currentSelectors m) k = Some r ->
      exists r', Obj_get (selectorChangedData m) k = Some r' /\
                 (r = r' \/
                  ((forall k2, Obj_get (selectorChangedData m) k2 <> Some r) /\
                   incl (read (heap st) r) (read (heap st) r'))).

Definition well_formed (st : State) : Prop :=
  keys_unique st /\ refs_valid st /\ data_injective st /\ linked st.

(** The callbacks an object holds for a selector, and the objects whose
    arrays have all been allocated. *)
Definition callbacks_of (o : Obj ArrayRef) (h : Heap) (sel : string)
    : list Callback :=
  match Obj_get o sel with Some r => read h r | None => [] end.

Definition valid_in (o : Obj ArrayRef) (h : Heap) : Prop :=
  forall k r, Obj_get o k = Some r -> (r < length h)%nat.

(** Every selector an object holds has at least one callback. *)
Definition populated (st : State) : Prop :=
  forall k, (registered st k = true -> registered_callbacks st k <> []) /\
            (matched st k = true -> matched_callbacks st k <> []).

(** The invocations made between two states. *)
Definition new_calls (st st' : State) : list Call :=
  drop (length (calls st)) (calls st').

Definition matches (sel : string) (e_element : Node) : bool :=
  match findMatchingNode sel (getParents e_element) with
  | Some _ => true
  | None => false
  end.

(** What the page can do with the module. *)
Inductive Op : Type :=
| Register (selector : string) (callback : Callback) (start : Node)
| Unbind (selector : string) (callback : Callback)
| NodeChange (e_element : Node).

Definition step (op : Op) (st : State) : State :=
  match op with
  | Register selector callback start =>
      selectorChangedWithUnbind selector callback start st
  | Unbind selector callback => unbind selector callback st
  | NodeChange e => nodeChange e st
  end.

Definition run (ops : list Op) (st : State) : State :=
  fold_left (fun st op => step op st) ops st.


(** The operation registers [cb] for [sel]. *)
Definition registers (sel : string) (cb : Callback) (op : Op) : bool :=
  match op with
  | Register selector callback _ =>
      bool_decide (selector = sel) && Nat.eqb callback cb
  | _ => false
  end.

End Editor.

(** A page for examples: node 1 is a [b] element inside the paragraph 2,
    node 3 is a plain paragraph; the root is not listed. *)
Module Demo.

Definition dom_is (n : Node) (sel : string) : bool :=
  (Nat.eqb n 1 && String.eqb sel "b") || (Nat.eqb n 2 && String.eqb sel "p")
  || (Nat.eqb n 3 && String.eqb sel "p").

Definition getParents (n : Node) : list Node :=
  if Nat.eqb n 1 then [1; 2]%nat else [n].

End Demo.

End SelectorChanged.

(** * Properties *)

(** ** Comparisons and rounding *)

Lemma Qltb_lt (a b : Q) : Qltb a b = true <-> a < b.
Proof.
  unfold Qltb. rewrite Qlt_alt.
  destruct (a ?= b); split; congruence.
Qed.

Lemma Qltb_ge (a b : Q) : Qltb a b = false <-> b <= a.
Proof.
  split; intros H.
  - apply Qnot_lt_le. intros Hlt. apply Qltb_lt in Hlt. congruence.
  - destruct (Qltb a b) eqn:E; [|reflexivity].
    apply Qltb_lt in E. exfalso. exact (Qlt_not_le _ _ E H).
Qed.

Lemma Math_max_Qmax (a b : Q) : Math_max a b == Qmax a b.
Proof.
  unfold Math_max. destruct (Qltb a b) eqn:E.
  - apply Qltb_lt in E. symmetry. apply Q.max_r. apply Qlt_le_weak, E.
  - apply Qltb_ge in E. symmetry. apply Q.max_l, E.
Qed.

Lemma Math_min_Qmin (a b : Q) : Math_min a b == Qmin a b.
Proof.
  unfold Math_min. destruct (Qltb b a) eqn:E.
  - apply Qltb_lt in E. symmetry. apply Q.min_r. apply Qlt_le_weak, E.
  - apply Qltb_ge in E. symmetry. apply Q.min_l, E.
Qed.


(** ** InlineHeader: the mode resolver *)

Module InlineHeaderSpec.

Import InlineHeader.

(** *** Running monadic code *)

Lemma exec_bind {A B : Type} (m : M A) (k : A -> M B) (w : World) :
  exec (bind m k) w = exec (k (eval m w)) (exec m w).
Proof. unfold exec, eval, bind. destruct (m w). reflexivity. Qed.

Lemma eval_bind {A B : Type} (m : M A) (k : A -> M B) (w : World) :
  eval (bind m k) w = eval (k (eval m w)) (exec m w).
Proof. unfold exec, eval, bind. destruct (m w). reflexivity. Qed.

Lemma new_effects_app {A : Type} (m : M A) (w : World) (l : list Effect) :
  effects (exec m w) = effects w ++ l -> new_effects m w = l.
Proof.
  intros H. unfold new_effects. rewrite H. apply drop_app_length.
Qed.

(** *** What a computation leaves alone *)

Lemma frames_ret (P : Effect -> Prop) {A : Type} (a : A) :
  frames P (ret a : M A).
Proof.
  intros w. repeat split. exists []. split; [symmetry; apply app_nil_r | constructor].
Qed.

Lemma frames_gets (P : Effect -> Prop) {A : Type} (f : World -> A) :
  frames P (gets f).
Proof.
  intros w. repeat split. exists []. split; [symmetry; apply app_nil_r | constructor].
Qed.

Lemma frames_bind (P : Effect -> Prop) {A B : Type} (m : M A) (k : A -> M B) :
  frames P m -> (forall a, frames P (k a)) -> frames P (bind m k).
Proof.
  intros Hm Hk w. rewrite exec_bind.
  destruct (Hm w) as (Hv & Hr & Hf & l1 & He1 & HP1).
  destruct (Hk (eval m w) (exec m w)) as (Hv' & Hr' & Hf' & l2 & He2 & HP2).
  repeat split; try congruence.
  exists (l1 ++ l2). split.
  - rewrite He2, He1. symmetry. apply app_assoc.
  - apply Forall_app. split; assumption.
Qed.

Lemma frames_log (P : Effect -> Prop) (e : Effect) :
  P e -> frames P (log e).
Proof.
  intros HP w. repeat split. exists [e]. split; [reflexivity | repeat constructor; exact HP].
Qed.

Lemma frames_set_styles (P : Effect -> Prop) f : frames P (set_styles f).
Proof.
  intros w. repeat split. exists []. split; [symmetry; apply app_nil_r | constructor].
Qed.

Lemma frames_Css_set (P : Effect -> Prop) e p v :
  P (CssSet e p v) -> frames P (Css_set e p v).
Proof.
  intros HP. apply frames_bind; [apply frames_set_styles|].
  intros _. apply frames_log, HP.
Qed.

Lemma frames_Css_remove (P : Effect -> Prop) e p :
  P (CssRemove e p) -> frames P (Css_remove e p).
Proof.
  intros HP. apply frames_bind; [apply frames_set_styles|].
  intros _. apply frames_log, HP.
Qed.

Lemma frames_Css_setAll (P : Effect -> Prop) e props :
  (forall p v, P (CssSet e p v)) -> frames P (Css_setAll e props).
Proof.
  intros HP. induction props as [|[p v] rest IH]; cbn.
  - apply frames_ret.
  - apply frames_bind; [apply frames_Css_set, HP | intros _; exact IH].
Qed.

Lemma frames_Attribute_set (P : Effect -> Prop) e n v :
  P (AttributeSet e n v) -> frames P (Attribute_set e n v).
Proof.
  intros HP. apply frames_bind.
  - intros w. repeat split. exists []. split; [symmetry; apply app_nil_r | constructor].
  - intros _. apply frames_log, HP.
Qed.

Lemma frames_DOM_addClass (P : Effect -> Prop) e c :
  P (AddClass e c) -> frames P (DOM_addClass e c).
Proof.
  intros HP. apply frames_bind.
  - intros w. repeat split. exists []. split; [symmetry; apply app_nil_r | constructor].
  - intros _. apply frames_log, HP.
Qed.

Lemma frames_DOM_removeClass (P : Effect -> Prop) e c :
  P (RemoveClass e c) -> frames P (DOM_removeClass e c).
Proof.
  intros HP. apply frames_bind.
  - intros w. repeat split. exists []. split; [symmetry; apply app_nil_r | constructor].
  - intros _. apply frames_log, HP.
Qed.

Lemma frames_setDockingMode (P : Effect -> Prop) mode :
  frames P (setDockingMode mode).
Proof.
  intros w. repeat split. exists []. split; [symmetry; apply app_nil_r | constructor].
Qed.

Lemma frames_when (P : Effect -> Prop) (b : bool) (c : M unit) :
  frames P c -> frames P (when b c).
Proof. intros Hc. destruct b; [exact Hc | apply frames_ret]. Qed.

Lemma frames_floatContainer_on (P : Effect -> Prop) (f : AlloyComponent -> M unit) :
  (forall c, frames P (f c)) -> frames P (floatContainer_on f).
Proof.
  intros Hf w. unfold floatContainer_on, exec.
  destruct (floatContainer w) as [c|] eqn:E.
  - destruct (Hf c w) as (Hv & Hr & Hfc & l & He & HP).
    unfold exec in *. repeat split; try assumption.
    + congruence.
    + exists l. split; assumption.
  - cbn. repeat split; [assumption|].
    exists []. split; [symmetry; apply app_nil_r | constructor].
Qed.

(** Goals [frames P m] for the code of the header: follow the shape of
    [m], leaving the conditions [P e] on the logged calls. *)
Ltac frames_step :=
  first
    [ apply frames_ret
    | apply frames_gets
    | apply frames_set_styles
    | apply frames_setDockingMode
    | apply frames_Css_set
    | apply frames_Css_remove
    | apply frames_Css_setAll; intros ? ?
    | apply frames_Attribute_set
    | apply frames_DOM_addClass
    | apply frames_DOM_removeClass
    | apply frames_log
    | apply frames_when
    | apply frames_floatContainer_on; intros ?
    | apply frames_bind; [|intros ?]
    | match goal with
      | |- frames _ (if ?b then _ else _) => destruct b
      | |- frames _ (match ?o with Some _ => _ | None => _ end) => destruct o
      | |- frames _ (match ?l with loc_auto => _ | loc_top => _ | loc_bottom => _ end) =>
          destruct l
      end
    | progress cbv zeta ].

Ltac frames_tac := repeat frames_step.

Section Resolver.

Variable cfg : Config.
Variable env : Env.

(** [calcMode] only reads the world. *)
Lemma calcMode_pure (container : AlloyComponent) (w : World) :
  exec (calcMode cfg env container) w = w.
Proof.
  unfold calcMode, exec. destruct (toolbarLocation cfg); try reflexivity.
  cbn. destruct (Qgtb _ _); [reflexivity|].
  cbn. destruct (Qltb _ _); reflexivity.
Qed.

Lemma calcToolbarOffset_pure (toolbar : option AlloyComponent) (w : World) :
  exec (calcToolbarOffset cfg env toolbar) w = w.
Proof. reflexivity. Qed.




End Resolver.

(** ** InlineHeader: visibility gating and the update pass *)

Section Lifecycle.

Variable cfg : Config.
Variable env : Env.

Ltac header_frames :=
  repeat first
    [ frames_step
    | exact I
    | reflexivity
    | progress unfold calcToolbarOffset, isVisible, getDockingMode,
        isPositionedAtTop, repositionPopups, widthProperties ].

Lemma frames_calcMode (P : Effect -> Prop) (container : AlloyComponent) :
  frames P (calcMode cfg env container).
Proof. unfold calcMode. header_frames. Qed.

Lemma frames_updateChromeWidth :
  frames (fun e => is_chrome e = true) (updateChromeWidth cfg env).
Proof. unfold updateChromeWidth. header_frames. Qed.

Lemma frames_restore :
  frames (fun e => is_chrome e = true)
         (restoreAndGetCompleteOuterContainerWidth cfg env).
Proof. unfold restoreAndGetCompleteOuterContainerWidth. header_frames. Qed.

Lemma frames_updateChromePosition (opt : option Q) :
  frames (fun e => is_chrome e = true) (updateChromePosition cfg env opt).
Proof. unfold updateChromePosition. header_frames. Qed.

Lemma frames_mono (P R : Effect -> Prop) {A : Type} (m : M A) :
  (forall e, P e -> R e) -> frames P m -> frames R m.
Proof.
  intros HPR Hm w. destruct (Hm w) as (Hv & Hr & Hf & l & He & HP).
  repeat split; try assumption. exists l. split; [assumption|].
  eapply Forall_impl; eauto.
Qed.

Lemma frames_updateChromeUi (resetDocking : bool) :
  frames any_effect (updateChromeUi cfg env resetDocking).
Proof.
  unfold updateChromeUi.
  pose proof (frames_mono _ any_effect _ (fun _ _ => I)
                frames_updateChromeWidth).
  pose proof (frames_mono _ any_effect _ (fun _ _ => I) frames_restore).
  pose proof (fun opt => frames_mono _ any_effect _ (fun _ _ => I)
                (frames_updateChromePosition opt)).
  repeat first [ assumption
               | match goal with H : forall _, frames _ _ |- _ => apply H end
               | frames_step | exact I
               | progress unfold isVisible, repositionPopups ].
Qed.

Lemma frames_setupMode (mode : Mode) :
  frames any_effect (setupMode env mode).
Proof. unfold setupMode. header_frames. Qed.

Lemma frames_updateMode (updateUi : bool) :
  frames any_effect (updateMode cfg env updateUi).
Proof.
  unfold updateMode.
  pose proof frames_updateChromeUi. pose proof frames_setupMode.
  pose proof (frames_calcMode any_effect).
  repeat first [ match goal with H : forall _, frames _ _ |- _ => apply H end
               | frames_step | exact I
               | progress unfold isVisible, getDockingMode ].
Qed.

(** A hidden header: both guarded operations return at once. *)
Lemma updateChromeUi_hidden (resetDocking : bool) (w : World) :
  eval (isVisible) w = false ->
  updateChromeUi cfg env resetDocking w = (tt, w).
Proof.
  intros H. unfold updateChromeUi, bind. cbn in *. rewrite H. reflexivity.
Qed.

Lemma updateMode_skipped (updateUi : bool) (w : World) :
  useFixedToolbarContainer cfg = true \/ isSticky cfg = false \/
  eval (isVisible) w = false ->
  updateMode cfg env updateUi w = (tt, w).
Proof.
  intros H. unfold updateMode, bind. cbn in *.
  destruct H as [-> | [-> | ->]]; cbn.
  - reflexivity.
  - rewrite orb_true_r. reflexivity.
  - rewrite orb_true_r. reflexivity.
Qed.

(** A pass on a visible header with a float container: style mutations
    and the toolbar refresh, then one docking call when the toolbar is
    sticky, then one broadcast. *)
Lemma updateChromeUi_visible_log (resetDocking : bool) (w : World)
    (container : AlloyComponent) :
  eval (isVisible) w = true ->
  floatContainer w = Some container ->
  exists l,
    Forall (fun e => is_chrome e = true) l /\
    effects (exec (updateChromeUi cfg env resetDocking) w) =
    effects w ++ l
    ++ (if isSticky cfg
        then [if resetDocking then DockingReset container
              else DockingRefresh container]
        else [])
    ++ [BroadcastOn (uiMothership env) [Channels_repositionPopups env]].
Proof.
  intros Hvis Hfc. unfold updateChromeUi.
  rewrite exec_bind. cbv beta. rewrite Hvis. cbn [negb].
  change (exec isVisible w) with w.
  rewrite !exec_bind.
  set (c1 := when (negb (useFixedToolbarContainer cfg)) (updateChromeWidth cfg env)).
  set (w1 := exec c1 w).
  set (c2 := restoreAndGetCompleteOuterContainerWidth cfg env).
  set (w2 := exec c2 w1).
  set (c3 := when (isSplitToolbar cfg) (log (RefreshToolbar (outerContainer env)))).
  set (w3 := exec c3 w2).
  set (c4 := when (negb (useFixedToolbarContainer cfg))
                  (updateChromePosition cfg env (eval c2 w1))).
  set (w4 := exec c4 w3).
  assert (F1 : frames (fun e => is_chrome e = true) c1).
  { apply frames_when, frames_updateChromeWidth. }
  assert (F2 : frames (fun e => is_chrome e = true) c2) by apply frames_restore.
  assert (F3 : frames (fun e => is_chrome e = true) c3).
  { apply frames_when, frames_log. reflexivity. }
  assert (F4 : frames (fun e => is_chrome e = true) c4).
  { apply frames_when, frames_updateChromePosition. }
  destruct (F1 w) as (_ & _ & Hf1 & l1 & He1 & HP1). fold w1 in Hf1, He1.
  destruct (F2 w1) as (_ & _ & Hf2 & l2 & He2 & HP2). fold w2 in Hf2, He2.
  destruct (F3 w2) as (_ & _ & Hf3 & l3 & He3 & HP3). fold w3 in Hf3, He3.
  destruct (F4 w3) as (_ & _ & Hf4 & l4 & He4 & HP4). fold w4 in Hf4, He4.
  assert (Hfc4 : floatContainer w4 = Some container) by congruence.
  assert (He : effects w4 = effects w ++ (l1 ++ l2 ++ l3 ++ l4)).
  { rewrite He4, He3, He2, He1. rewrite <- !app_assoc. reflexivity. }
  exists (l1 ++ l2 ++ l3 ++ l4). split.
  - repeat (apply Forall_app; split); assumption.
  - unfold repositionPopups. destruct (isSticky cfg); cbn [when].
    + unfold floatContainer_on, exec at 2. rewrite Hfc4.
      cbn. rewrite He. rewrite <- !app_assoc. reflexivity.
    + cbn. rewrite He. rewrite <- !app_assoc. reflexivity.
Qed.

(** C4.  While the header is hidden (the visibility cell is false or the
    editor is removed) [update] returns without any effect: the world is
    unchanged, so no style is touched, and nothing is appended to the
    log of calls (no width reset, no toolbar refresh, no docking reset
    or refresh, no broadcast). *)
Theorem updateChromeUi_hidden_no_effect (resetDocking : bool) (w : World) :
  visible w = false \/ removed w = true ->
  exec (updateChromeUi cfg env resetDocking) w = w /\
  new_effects (updateChromeUi cfg env resetDocking) w = [] /\
  styles (exec (updateChromeUi cfg env resetDocking) w) = styles w.
Proof.
  intros H.
  assert (Hvis : eval isVisible w = false).
  { cbn. destruct H as [-> | ->]; [reflexivity | apply andb_false_r]. }
  assert (Hw : exec (updateChromeUi cfg env resetDocking) w = w).
  { unfold exec. rewrite updateChromeUi_hidden by exact Hvis. reflexivity. }
  split; [exact Hw|]. split.
  - apply new_effects_app. rewrite Hw. symmetry. apply app_nil_r.
  - rewrite Hw. reflexivity.
Qed.

Lemma count_app (f : Effect -> bool) (l1 l2 : list Effect) :
  count f (l1 ++ l2) = (count f l1 + count f l2)%nat.
Proof. unfold count. rewrite List.filter_app. apply length_app. Qed.

Lemma count_chrome (f : Effect -> bool) (l : list Effect) :
  (forall e, is_chrome e = true -> f e = false) ->
  Forall (fun e => is_chrome e = true) l -> count f l = 0%nat.
Proof.
  intros Hf Hl. unfold count. induction Hl as [|e l He _ IH]; [reflexivity|].
  cbn. rewrite (Hf e He). exact IH.
Qed.

Lemma setupMode_run (mode : Mode) (w : World) (container : AlloyComponent) :
  floatContainer w = Some container ->
  exec (setupMode env mode) w =
  mkWorld (visible w) (removed w) mode (floatContainer w) (styles w)
          (<[(element container, VerticalDir_Attribute env) := verticalDir_of env mode]>
             (attributes w))
          (classes w)
          (effects w ++ [DockingSetModes container [mode];
                         AttributeSet (element container)
                           (VerticalDir_Attribute env) (verticalDir_of env mode)]).
Proof.
  intros Hfc. unfold setupMode, floatContainer_on, exec. rewrite Hfc.
  cbn. rewrite ?Hfc. rewrite <- app_assoc. destruct mode; reflexivity.
Qed.

Lemma Mode_eqb_eq (a b : Mode) : Mode_eqb a b = true <-> a = b.
Proof. destruct a, b; cbn; split; congruence. Qed.

Lemma updateMode_active (updateUi : bool) (w : World) (container : AlloyComponent) :
  useFixedToolbarContainer cfg = false ->
  isSticky cfg = true ->
  eval (isVisible) w = true ->
  floatContainer w = Some container ->
  exec (updateMode cfg env updateUi) w =
  if Mode_eqb (eval (calcMode cfg env container) w) (dockingMode w) then w
  else if updateUi
       then exec (updateChromeUi cfg env true)
                 (exec (setupMode env (eval (calcMode cfg env container) w)) w)
       else exec (setupMode env (eval (calcMode cfg env container) w)) w.
Proof.
  intros Hfixed Hsticky Hvis Hfc. unfold updateMode.
  rewrite exec_bind. cbv beta. rewrite Hvis, Hfixed, Hsticky. cbn [negb orb].
  change (exec isVisible w) with w.
  unfold floatContainer_on, exec at 1. rewrite Hfc.
  fold (exec (currentMode <- getDockingMode;;
              newMode <- calcMode cfg env container;;
              (if negb (Mode_eqb newMode currentMode)
               then setupMode env newMode;;
                    when updateUi (updateChromeUi cfg env true)
               else ret tt)) w).
  rewrite exec_bind. change (exec getDockingMode w) with w.
  change (eval getDockingMode w) with (dockingMode w). cbv beta.
  rewrite exec_bind. rewrite calcMode_pure. cbv beta.
  destruct (Mode_eqb _ _); cbn [negb]; [reflexivity|].
  rewrite exec_bind. destruct updateUi; reflexivity.
Qed.

(** C3.  [updateMode] changes nothing when the fixed container is in
    use, the toolbar is not sticky, or the header is hidden.  Otherwise,
    with the float container set, it computes the mode afresh: when it
    differs from the stored one the new mode is applied (the docking
    controller gets the mode as its only allowed mode, the mode is
    stored, the vertical-direction attribute is set) and, when
    [updateUi] holds, the update pass runs exactly once, on a visible
    header and with [resetDocking = true] (one broadcast, one docking
    reset, no docking refresh); when the modes agree nothing happens.
    Without a float container nothing happens either. *)
Theorem updateMode_spec (updateUi : bool) (w : World) :
  (useFixedToolbarContainer cfg = true \/ isSticky cfg = false \/
   visible w = false \/ removed w = true ->
   exec (updateMode cfg env updateUi) w = w /\
   new_effects (updateMode cfg env updateUi) w = []) /\
  (forall container,
     useFixedToolbarContainer cfg = false ->
     isSticky cfg = true ->
     visible w = true ->
     removed w = false ->
     floatContainer w = Some container ->
     let newMode := eval (calcMode cfg env container) w in
     let w1 := exec (setupMode env newMode) w in
     (newMode <> dockingMode w ->
      new_effects (setupMode env newMode) w =
        [DockingSetModes container [newMode];
         AttributeSet (element container) (VerticalDir_Attribute env)
           (match newMode with
            | mode_top => VerticalDir_TopToBottom env
            | mode_bottom => VerticalDir_BottomToTop env
            end)] /\
      dockingMode w1 = newMode /\
      attributes w1 !! (element container, VerticalDir_Attribute env) =
        Some (match newMode with
              | mode_top => VerticalDir_TopToBottom env
              | mode_bottom => VerticalDir_BottomToTop env
              end) /\
      eval (isVisible) w1 = true /\
      exec (updateMode cfg env updateUi) w =
        (if updateUi then exec (updateChromeUi cfg env true) w1 else w1) /\
      count is_broadcast (new_effects (updateMode cfg env updateUi) w) =
        (if updateUi then 1 else 0)%nat /\
      count is_docking_reset (new_effects (updateMode cfg env updateUi) w) =
        (if updateUi then 1 else 0)%nat /\
      count is_docking_refresh (new_effects (updateMode cfg env updateUi) w) =
        0%nat) /\
     (newMode = dockingMode w ->
      exec (updateMode cfg env updateUi) w = w /\
      new_effects (updateMode cfg env updateUi) w = [])) /\
  (floatContainer w = None -> exec (updateMode cfg env updateUi) w = w).
Proof.
  split; [|split].
  - intros H.
    assert (Hw : exec (updateMode cfg env updateUi) w = w).
    { unfold exec. rewrite updateMode_skipped; [reflexivity|].
      destruct H as [H | [H | [H | H]]]; auto;
        right; right; cbn; rewrite H; [reflexivity | apply andb_false_r]. }
    split; [exact Hw|].
    apply new_effects_app. rewrite Hw. symmetry. apply app_nil_r.
  - intros container Hfixed Hsticky Hv Hr Hfc newMode w1.
    assert (Hvis : eval isVisible w = true) by (cbn; rewrite Hv, Hr; reflexivity).
    pose proof (updateMode_active updateUi w container Hfixed Hsticky Hvis Hfc)
      as Hrun.
    fold newMode in Hrun. fold w1 in Hrun.
    pose proof (setupMode_run newMode w container Hfc) as Hw1. fold w1 in Hw1.
    split.
    + intros Hne.
      assert (Hneq : Mode_eqb newMode (dockingMode w) = false).
      { destruct (Mode_eqb _ _) eqn:E; [|reflexivity].
        apply Mode_eqb_eq in E. contradiction. }
      rewrite Hneq in Hrun.
      assert (Hvis1 : eval isVisible w1 = true).
      { rewrite Hw1. cbn. rewrite Hv, Hr. reflexivity. }
      assert (Hfc1 : floatContainer w1 = Some container).
      { rewrite Hw1. exact Hfc. }
      assert (He1 : effects w1 = effects w ++
                [DockingSetModes container [newMode];
                 AttributeSet (element container) (VerticalDir_Attribute env)
                   (verticalDir_of env newMode)]).
      { rewrite Hw1. reflexivity. }
      split; [apply new_effects_app; exact He1|].
      split; [rewrite Hw1; reflexivity|].
      split; [rewrite Hw1; cbn; apply lookup_insert_eq|].
      split; [exact Hvis1|].
      split; [exact Hrun|].
      destruct updateUi.
      * destruct (updateChromeUi_visible_log true w1 container Hvis1 Hfc1)
          as (l & Hl & He).
        rewrite Hsticky in He.
        assert (Hnew : new_effects (updateMode cfg env true) w =
                  [DockingSetModes container [newMode];
                   AttributeSet (element container) (VerticalDir_Attribute env)
                     (verticalDir_of env newMode)]
                  ++ l ++ [DockingReset container]
                  ++ [BroadcastOn (uiMothership env) [Channels_repositionPopups env]]).
        { apply new_effects_app. rewrite Hrun, He, He1.
          rewrite <- !app_assoc. reflexivity. }
        rewrite Hnew. rewrite !count_app.
        rewrite !(count_chrome _ l) by
          (try exact Hl; intros [] He'; try discriminate He'; reflexivity).
        repeat split; reflexivity.
      * assert (Hnew : new_effects (updateMode cfg env false) w =
                  [DockingSetModes container [newMode];
                   AttributeSet (element container) (VerticalDir_Attribute env)
                     (verticalDir_of env newMode)]).
        { apply new_effects_app. rewrite Hrun. exact He1. }
        rewrite Hnew. repeat split; reflexivity.
    + intros Heq. apply Mode_eqb_eq in Heq. rewrite Heq in Hrun.
      split; [exact Hrun|].
      apply new_effects_app. rewrite Hrun. symmetry. apply app_nil_r.
  - intros Hnone. unfold updateMode. rewrite exec_bind. cbv beta.
    change (exec isVisible w) with w.
    destruct (useFixedToolbarContainer cfg || negb (isSticky cfg)
              || negb (eval isVisible w)); [reflexivity|].
    unfold floatContainer_on, exec. rewrite Hnone. reflexivity.
Qed.

(** *** The visibility flag along a history *)

Lemma exec_show_visible (w : World) : visible (exec (show cfg env) w) = true.
Proof.
  unfold show. rewrite exec_bind.
  match goal with
  | |- visible (exec ?rest ?w1) = _ =>
      assert (F : frames any_effect rest)
  end.
  { pose proof frames_updateChromeUi. pose proof frames_updateMode.
    repeat first [ match goal with H : forall _, frames _ _ |- _ => apply H end
                 | frames_step | exact I ]. }
  destruct (F (exec (visible_set true) w)) as (Hv & _). rewrite Hv. reflexivity.
Qed.

Lemma exec_show_removed (w : World) :
  removed (exec (show cfg env) w) = removed w.
Proof.
  unfold show. rewrite exec_bind.
  match goal with
  | |- removed (exec ?rest ?w1) = _ =>
      assert (F : frames any_effect rest)
  end.
  { pose proof frames_updateChromeUi. pose proof frames_updateMode.
    repeat first [ match goal with H : forall _, frames _ _ |- _ => apply H end
                 | frames_step | exact I ]. }
  destruct (F (exec (visible_set true) w)) as (_ & Hr & _). rewrite Hr. reflexivity.
Qed.

Lemma act_visible (a : Action) (w : World) :
  visible (exec (act cfg env a) w) =
  match a with Show => true | Hide => false | _ => visible w end.
Proof.
  destruct a; cbn [act]; try reflexivity.
  - apply exec_show_visible.
  - apply (frames_updateChromeUi resetDocking w).
  - apply (frames_updateMode updateUi w).
Qed.

Lemma act_removed (a : Action) (w : World) :
  removed (exec (act cfg env a) w) =
  match a with EditorRemove => true | _ => removed w end.
Proof.
  destruct a; cbn [act]; try reflexivity.
  - apply exec_show_removed.
  - apply (frames_updateChromeUi resetDocking w).
  - apply (frames_updateMode updateUi w).
Qed.

Lemma run_visible (acts : list Action) (w : World) :
  visible (run cfg env acts w) =
  fold_left (fun b a => match a with
                        | Show => true
                        | Hide => false
                        | _ => b
                        end) acts (visible w).
Proof.
  revert w. induction acts as [|a acts IH]; intros w; [reflexivity|].
  cbn [run fold_left]. fold (run cfg env acts (exec (act cfg env a) w)).
  rewrite IH, act_visible. destruct a; reflexivity.
Qed.

(** C7.  Along every history of the header that starts with the
    visibility cell false: the flag [isVisible] is false whenever the
    editor is removed; it is true exactly when the last of [show] and
    [hide] was [show] and the editor is not removed; while it is false
    the positioning operations [update] and [updateMode] do nothing; and
    [show] on a removed editor only mutates the display styles and the
    focus class. *)
Theorem visibility_invariant (acts : list Action) (w0 : World) :
  visible w0 = false ->
  let w := run cfg env acts w0 in
  (removed w = true -> eval (isVisible) w = false) /\
  eval (isVisible) w = shown acts && negb (removed w) /\
  (eval (isVisible) w = false ->
   forall b, exec (updateChromeUi cfg env b) w = w /\
             exec (updateMode cfg env b) w = w) /\
  (removed w = true ->
   new_effects (show cfg env) w =
   [CssSet (element (outerContainer env)) "display" (Keyword "flex");
    AddClass (editorBody env) "mce-edit-focus";
    CssRemove (uiMothership env) "display"]).
Proof.
  intros H0 w. repeat split.
  - intros Hr. cbn. rewrite Hr. apply andb_false_r.
  - cbn. unfold w at 1. rewrite run_visible, H0. reflexivity.
  - unfold exec. rewrite updateChromeUi_hidden by assumption. reflexivity.
  - unfold exec. rewrite updateMode_skipped by auto. reflexivity.
  - intros Hr. apply new_effects_app. unfold show.
    rewrite !exec_bind.
    set (w3 := exec (Css_remove (uiMothership env) "display")
                 (exec (DOM_addClass (editorBody env) "mce-edit-focus")
                    (exec (Css_set (element (outerContainer env)) "display"
                             (Keyword "flex"))
                       (exec (visible_set true) w)))).
    assert (Hvis3 : eval isVisible w3 = false).
    { cbn. rewrite Hr. reflexivity. }
    assert (Hm : exec (updateMode cfg env false) w3 = w3).
    { unfold exec. rewrite updateMode_skipped by auto. reflexivity. }
    rewrite Hm.
    assert (Hu : exec (updateChromeUi cfg env false) w3 = w3).
    { unfold exec. rewrite updateChromeUi_hidden by assumption. reflexivity. }
    rewrite Hu. cbn. rewrite <- !app_assoc. reflexivity.
Qed.

End Lifecycle.

(** ** InlineHeader: the chrome positioner *)

Section Positioner.

Variable cfg : Config.
Variable env : Env.


Lemma styles_Css_setAll (e : Element) (props : list (string * CssValue)) (w : World) :
  styles (exec (Css_setAll e props) w) =
  fold_left (fun st pv => <[(e, fst pv) := snd pv]> st) props (styles w).
Proof.
  revert w. induction props as [|[p v] rest IH]; intros w; [reflexivity|].
  cbn [Css_setAll]. rewrite exec_bind, IH. reflexivity.
Qed.

Lemma effects_Css_setAll (e : Element) (props : list (string * CssValue)) (w : World) :
  effects (exec (Css_setAll e props) w) =
  effects w ++ map (fun pv => CssSet e (fst pv) (snd pv)) props.
Proof.
  revert w. induction props as [|[p v] rest IH]; intros w.
  - cbn. symmetry. apply app_nil_r.
  - cbn [Css_setAll]. rewrite exec_bind, IH. cbn.
    rewrite <- app_assoc. reflexivity.
Qed.

(** The properties [updateChromePosition] hands to [Css.setAll]. *)
Lemma updateChromePosition_run (opt : option Q) (w : World)
    (container : AlloyComponent) :
  floatContainer w = Some container ->
  let targetBounds := Boxes_box env w (targetElm env) in
  let offset :=
    eval (calcToolbarOffset cfg env
            (OuterContainer_getToolbar env w (outerContainer env))) w in
  let top :=
    match dockingMode w with
    | mode_top =>
        Math_max (Boxes.y targetBounds
                  - Height_get env w (element container) + offset) 0
    | mode_bottom => Boxes.bottom targetBounds
    end in
  exec (updateChromePosition cfg env opt) w =
  exec (Css_setAll (element (outerContainer env))
          ([("position"%string, Keyword "absolute");
            ("left"%string, Px (inject_Z (Math_round (Boxes.x targetBounds))));
            ("top"%string, Px (inject_Z (Math_round top)))]
           ++ eval (widthProperties env opt targetBounds) w)) w.
Proof.
  intros Hfc. cbv zeta.
  unfold updateChromePosition, floatContainer_on, exec at 1. rewrite Hfc.
  unfold bind at 1. cbn [gets]. unfold bind at 1. cbn [calcToolbarOffset gets].
  unfold bind at 1. cbn [gets]. unfold bind at 1. cbn [isPositionedAtTop gets].
  assert (Hwp : forall tb, widthProperties env opt tb w
                           = (eval (widthProperties env opt tb) w, w)).
  { intros tb. unfold widthProperties, eval, bind, gets. cbn.
    destruct opt; [|reflexivity]. destruct (Qgtb _ _); reflexivity. }
  destruct (dockingMode w); cbn [Mode_eqb]; unfold bind at 1; cbn [gets ret];
    unfold bind at 1; rewrite Hwp; reflexivity.
Qed.


Lemma widthProperties_eval (opt : option Q) (targetBounds : Boxes.Bounds)
    (w : World) :
  eval (widthProperties env opt targetBounds) w =
  match opt with
  | Some toolbarWidth =>
      if Qgtb (Boxes.x targetBounds) (window_innerWidth env w)
      then [("width"%string,
             Px (Math_max minimumToolbarWidth
                   (Math_min toolbarWidth
                      (window_innerWidth env w
                       - (Boxes.x targetBounds - Scroll_get_left env w)))))]
      else []
  | None => []
  end.
Proof.
  unfold widthProperties, eval, bind, gets. cbn.
  destruct opt; [|reflexivity]. destruct (Qgtb _ _); reflexivity.
Qed.


End Positioner.



Lemma updateMode_spec_witness :
  count is_broadcast
    (new_effects (updateMode (Demo.config loc_auto tm_sliding) Demo.roomy_page true)
                 (Demo.world true mode_bottom)) = 1%nat.
Proof.
  pose proof (proj1 (proj2 (updateMode_spec (Demo.config loc_auto tm_sliding)
                              Demo.roomy_page true (Demo.world true mode_bottom)))
                Demo.container eq_refl eq_refl eq_refl eq_refl eq_refl) as H.
  cbv zeta in H. destruct H as [H _].
  refine (proj1 (proj2 (proj2 (proj2 (proj2 (proj2 (H _))))))).
  vm_compute. discriminate.
Defined.

Lemma updateChromeUi_hidden_no_effect_witness :
  exec (updateChromeUi (Demo.config loc_auto tm_sliding) Demo.roomy_page true)
       (Demo.world false mode_top) = Demo.world false mode_top.
Proof.
  exact (proj1 (updateChromeUi_hidden_no_effect (Demo.config loc_auto tm_sliding)
                  Demo.roomy_page true (Demo.world false mode_top)
                  (or_introl eq_refl))).
Defined.

Lemma visibility_invariant_witness :
  eval isVisible
    (run (Demo.config loc_auto tm_sliding) Demo.roomy_page
         [Show; Update false; Hide; EditorRemove; Show]
         (Demo.world false mode_top)) = false.
Proof.
  refine (proj1 (visibility_invariant (Demo.config loc_auto tm_sliding)
                   Demo.roomy_page [Show; Update false; Hide; EditorRemove; Show]
                   (Demo.world false mode_top) eq_refl) _).
  vm_compute. reflexivity.
Defined.




End InlineHeaderSpec.

(** ** DomMovement: direction and dispatch *)

Module DomMovementSpec.

Import DomMovement.

Section Dispatch.

Variable SimulatedEvent : Type.
Variable getDirection : Element -> TextDirection.
Variable Focus_search : Element -> option Element.

Local Abbreviation use := (use SimulatedEvent Focus_search).
Local Abbreviation west := (west SimulatedEvent getDirection Focus_search).
Local Abbreviation east := (east SimulatedEvent getDirection Focus_search).
Local Abbreviation north := (north SimulatedEvent Focus_search).
Local Abbreviation south := (south SimulatedEvent Focus_search).
Local Abbreviation getFocused := (getFocused Focus_search).
Local Abbreviation focused_of := (focused_of Focus_search).

Lemma getFocused_run (component : Component) (info : Info) (t : list Effect) :
  getFocused component info t =
  (focused_of component info, t ++ getFocused_logs component info).
Proof.
  unfold DomMovement.getFocused, DomMovement.focused_of, getFocused_logs,
    bind, log, modify, ret.
  destruct (focusManager info) as [manager|]; cbn;
    rewrite <- !app_assoc; reflexivity.
Qed.

Lemma getFocused_logs_console (component : Component) (info : Info) :
  Forall (fun e => is_commit e = false) (getFocused_logs component info).
Proof.
  unfold getFocused_logs. destruct (focusManager info); repeat constructor.
Qed.

(** What [use] does, by the focused descendant and the movement's answer. *)
Lemma use_run (move : Move) (component : Component) (ev : SimulatedEvent)
    (info : Info) (t : list Effect) :
  use move component ev info t =
  let t1 := t ++ getFocused_logs component info in
  match focused_of component info with
  | None => (None, t1)
  | Some focused =>
      match move (element component) focused info t1 with
      | (None, t2) => (None, t2)
      | (Some newFocus, t2) =>
          (Some true,
           t2 ++ [match focusManager info with
                  | None => TriggerFocus newFocus (element component)
                  | Some manager =>
                      ManagerSet (manager_id manager) component newFocus
                  end])
      end
  end.
Proof.
  unfold DomMovement.use. unfold bind at 1. rewrite getFocused_run. cbv zeta.
  destruct (focused_of component info) as [focused|].
  - unfold bind at 1.
    destruct (move (element component) focused info
                (t ++ getFocused_logs component info)) as [[newFocus|] t2].
    + destruct (focusManager info); reflexivity.
    + reflexivity.
  - reflexivity.
Qed.


Lemma handler_of_use (entry : Entry) (component : Component)
    (ev : SimulatedEvent) (info : Info) :
  handler_of SimulatedEvent getDirection Focus_search entry component ev info =
  use (movement_of getDirection entry component) component ev info.
Proof. destruct entry; reflexivity. Qed.

(** C9.  For the handler of any of the four entry points: when no focused
    descendant is found (neither by the focus manager's [get] nor by the
    generic search) the handler returns the empty outcome, the movement
    function is not called and the log only gains the console output of
    [getFocused], so that no focus is committed; when a focused descendant
    is found and the movement function declines, the handler returns the
    empty outcome and adds nothing to the log after the movement function
    has run. *)
Theorem no_focus_no_commit (entry : Entry) (component : Component)
    (ev : SimulatedEvent) (info : Info) (t : list Effect) :
  let handler :=
    handler_of SimulatedEvent getDirection Focus_search entry component ev info in
  (focused_of component info = None ->
   eval handler t = None /\
   exec handler t = t ++ getFocused_logs component info /\
   List.filter is_commit (drop (length t) (exec handler t)) = []) /\
  (forall focused,
     focused_of component info = Some focused ->
     let t1 := t ++ getFocused_logs component info in
     let move := movement_of getDirection entry component in
     eval (move (element component) focused info) t1 = None ->
     eval handler t = None /\
     exec handler t = exec (move (element component) focused info) t1).
Proof.
  intros handler. subst handler. rewrite handler_of_use. split.
  - intros Hnone. unfold eval, exec. rewrite use_run. cbv zeta. rewrite Hnone.
    cbn [fst snd]. repeat split.
    rewrite drop_app_length.
    pose proof (getFocused_logs_console component info) as Hc.
    induction Hc as [|e l He _ IH]; [reflexivity|].
    cbn. rewrite He. exact IH.
  - intros focused Hsome t1 move Hdecl.
    unfold eval, exec in *. rewrite use_run. cbv zeta. rewrite Hsome.
    fold t1. fold move.
    destruct (move (element component) focused info t1) as [[newFocus|] t2];
      cbn in Hdecl; [discriminate|]. split; reflexivity.
Qed.

End Dispatch.


Lemma no_focus_no_commit_witness :
  eval (handler_of unit (fun _ => ltr) (fun _ => None)
          (West (mark "left") (mark "right"))
          (mkComponent 1%nat "menu") tt (mkInfo None)) [] = None.
Proof.
  exact (proj1 (proj1 (no_focus_no_commit unit (fun _ => ltr) (fun _ => None)
                         (West (mark "left") (mark "right"))
                         (mkComponent 1%nat "menu") tt (mkInfo None) [])
                      eq_refl)).
Defined.

End DomMovementSpec.

(** ** Selector-changed notification *)

Module SelectorChangedSpec.

Import SelectorChanged.

(** *** Objects as ordered maps *)

Section Objects.

Context {V : Type}.

Lemma Obj_get_cons (k : string) (v : V) (o : Obj V) (k' : string) :
  Obj_get ((k, v) :: o) k' = if bool_decide (k = k') then Some v else Obj_get o k'.
Proof. unfold Obj_get. cbn. destruct (bool_decide (k = k')); reflexivity. Qed.

Lemma Obj_has_cons (k : string) (v : V) (o : Obj V) (k' : string) :
  Obj_has ((k, v) :: o) k' = bool_decide (k = k') || Obj_has o k'.
Proof.
  unfold Obj_has. rewrite Obj_get_cons.
  destruct (bool_decide (k = k')); reflexivity.
Qed.

Lemma Obj_has_get (o : Obj V) (k : string) :
  Obj_has o k = true <-> exists v, Obj_get o k = Some v.
Proof.
  unfold Obj_has. destruct (Obj_get o k) as [v|]; split.
  - eauto.
  - reflexivity.
  - discriminate.
  - intros [v Hv]. discriminate.
Qed.

Lemma Obj_has_keys (o : Obj V) (k : string) :
  Obj_has o k = true <-> In k (map fst o).
Proof.
  induction o as [|[k0 v0] o IH]; [cbn; split; [discriminate | tauto]|].
  rewrite Obj_has_cons. cbn. rewrite orb_true_iff, IH, bool_decide_eq_true.
  reflexivity.
Qed.

Lemma Obj_get_In (o : Obj V) (k : string) (v : V) :
  Obj_get o k = Some v -> In (k, v) o.
Proof.
  induction o as [|[k0 v0] o IH]; [discriminate|].
  rewrite Obj_get_cons. case_bool_decide as Hk.
  - intros [= ->]. subst. left. reflexivity.
  - intros H. right. auto.
Qed.

Lemma In_Obj_get (o : Obj V) (k : string) (v : V) :
  NoDup (map fst o) -> In (k, v) o -> Obj_get o k = Some v.
Proof.
  induction o as [|[k0 v0] o IH]; [intros _ []|].
  cbn [map fst]. intros Hnd Hin. apply NoDup_cons in Hnd as [Hnotin Hnd].
  rewrite Obj_get_cons. destruct Hin as [[= -> ->] | Hin].
  - rewrite bool_decide_eq_true_2 by reflexivity. reflexivity.
  - case_bool_decide as Hk.
    + subst. exfalso. apply Hnotin. apply list_elem_of_In.
      apply in_map_iff. exists (k, v). split; [reflexivity | exact Hin].
    + auto.
Qed.

Lemma Obj_get_set (k : string) (v : V) (o : Obj V) (k' : string) :
  Obj_get (Obj_set k v o) k' = if bool_decide (k = k') then Some v else Obj_get o k'.
Proof.
  induction o as [|[k0 v0] o IH]; cbn [Obj_set].
  - rewrite Obj_get_cons. reflexivity.
  - destruct (decide (k0 = k)) as [-> | Hne].
    + rewrite bool_decide_eq_true_2 by reflexivity.
      rewrite !Obj_get_cons. destruct (bool_decide (k = k')); reflexivity.
    + rewrite bool_decide_eq_false_2 by assumption.
      rewrite !Obj_get_cons, IH.
      destruct (decide (k0 = k')) as [-> | Hne'].
      * rewrite bool_decide_eq_true_2 by reflexivity.
        rewrite (bool_decide_eq_false_2 (k = k')) by congruence. reflexivity.
      * rewrite (bool_decide_eq_false_2 (k0 = k')) by assumption. reflexivity.
Qed.

Lemma Obj_has_set (k : string) (v : V) (o : Obj V) (k' : string) :
  Obj_has (Obj_set k v o) k' = bool_decide (k = k') || Obj_has o k'.
Proof.
  unfold Obj_has. rewrite Obj_get_set.
  destruct (bool_decide (k = k')); reflexivity.
Qed.

Lemma Obj_get_filter (p : string -> bool) (o : Obj V) (k : string) :
  Obj_get (List.filter (fun kv => p (fst kv)) o) k =
  if p k then Obj_get o k else None.
Proof.
  induction o as [|[k0 v0] o IH]; [cbn; destruct (p k); reflexivity|].
  cbn [List.filter fst]. destruct (p k0) eqn:E0.
  - rewrite !Obj_get_cons, IH. case_bool_decide as Hk; [|reflexivity].
    subst. rewrite E0. reflexivity.
  - rewrite Obj_get_cons, IH. case_bool_decide as Hk; [|reflexivity].
    subst. rewrite E0. reflexivity.
Qed.

Lemma Obj_has_filter (p : string -> bool) (o : Obj V) (k : string) :
  Obj_has (List.filter (fun kv => p (fst kv)) o) k = p k && Obj_has o k.
Proof.
  unfold Obj_has. rewrite Obj_get_filter. destruct (p k); reflexivity.
Qed.

Lemma Obj_get_delete (k : string) (o : Obj V) (k' : string) :
  Obj_get (Obj_delete k o) k' = if bool_decide (k = k') then None else Obj_get o k'.
Proof.
  unfold Obj_delete.
  pose proof (Obj_get_filter (fun x => negb (bool_decide (x = k))) o k') as H.
  cbv beta in H. rewrite H.
  destruct (decide (k = k')) as [-> | Hne].
  - rewrite !bool_decide_eq_true_2 by reflexivity. reflexivity.
  - rewrite (bool_decide_eq_false_2 (k' = k)) by congruence.
    rewrite (bool_decide_eq_false_2 (k = k')) by assumption. reflexivity.
Qed.

Lemma Obj_set_keys (k : string) (v : V) (o : Obj V) :
  map fst (Obj_set k v o) =
  if Obj_has o k then map fst o else map fst o ++ [k].
Proof.
  induction o as [|[k0 v0] o IH]; [reflexivity|].
  cbn [Obj_set]. rewrite Obj_has_cons. case_bool_decide as H0; cbn.
  - subst. reflexivity.
  - rewrite IH. destruct (Obj_has o k); reflexivity.
Qed.

Lemma NoDup_Obj_set (k : string) (v : V) (o : Obj V) :
  NoDup (map fst o) -> NoDup (map fst (Obj_set k v o)).
Proof.
  intros Hnd. rewrite Obj_set_keys. destruct (Obj_has o k) eqn:E; [exact Hnd|].
  apply NoDup_app. split; [exact Hnd|]. split; [|apply NoDup_singleton].
  intros x Hx Hk. apply list_elem_of_In in Hx. apply list_elem_of_In in Hk.
  destruct Hk as [<- | []]. apply Obj_has_keys in Hx. congruence.
Qed.

Lemma NoDup_Obj_filter (p : string * V -> bool) (o : Obj V) :
  NoDup (map fst o) -> NoDup (map fst (List.filter p o)).
Proof.
  induction o as [|[k0 v0] o IH]; [intros _; constructor|].
  cbn [map fst List.filter]. intros Hnd. apply NoDup_cons in Hnd as [Hnotin Hnd].
  destruct (p (k0, v0)); [|auto].
  cbn [map fst]. apply NoDup_cons. split; [|auto].
  intros Hin. apply Hnotin. apply list_elem_of_In. apply list_elem_of_In in Hin.
  apply in_map_iff in Hin as [[k1 v1] [Hk Hin]].
  apply List.filter_In in Hin as [Hin _].
  apply in_map_iff. exists (k1, v1). auto.
Qed.

Lemma In_Obj_set (k : string) (v : V) (o : Obj V) (k' : string) (v' : V) :
  In (k', v') (Obj_set k v o) -> (k', v') = (k, v) \/ In (k', v') o.
Proof.
  induction o as [|[k0 v0] o IH]; cbn [Obj_set].
  - intros [H | []]. left. congruence.
  - destruct (bool_decide (k0 = k)).
    + intros [H | H]; [left; congruence | right; right; exact H].
    + intros [H | H]; [right; left; exact H|].
      destruct (IH H) as [H' | H']; [left; exact H' | right; right; exact H'].
Qed.

Lemma filter_filter_and (f g : string * V -> bool) (o : Obj V) :
  List.filter f (List.filter g o) = List.filter (fun x => g x && f x) o.
Proof.
  induction o as [|x o IH]; [reflexivity|].
  cbn. destruct (g x); cbn; [destruct (f x)|]; rewrite IH; reflexivity.
Qed.

End Objects.

(** *** The two loops of the NodeChange handler *)

Section Handler.

Variable dom_is : Node -> string -> bool.
Variable getParents : Node -> list Node.

Local Abbreviation findMatchingNode := (findMatchingNode dom_is).
Local Abbreviation checkNew := (checkNew dom_is).
Local Abbreviation nodeChange := (nodeChange dom_is getParents).
Local Abbreviation selectorChangedWithUnbind :=
  (selectorChangedWithUnbind dom_is getParents).
Local Abbreviation matches := (matches dom_is getParents).
Local Abbreviation step := (step dom_is getParents).
Local Abbreviation run := (run dom_is getParents).

Lemma checkNew_step (h : Heap) (ps : list Node) (cur mt : Obj ArrayRef)
    (cl : list Call) (sel : string) (r : ArrayRef) :
  checkNew h ps (cur, mt, cl) (sel, r) =
  match findMatchingNode sel ps with
  | None => (cur, mt, cl)
  | Some n =>
      if Obj_has cur sel then (cur, Obj_set sel r mt, cl)
      else (Obj_set sel r cur, Obj_set sel r mt,
            cl ++ invoke h r true n sel ps)
  end.
Proof.
  unfold SelectorChanged.checkNew.
  destruct (findMatchingNode sel ps); [|reflexivity].
  destruct (Obj_has cur sel); reflexivity.
Qed.

Lemma In_invoke (h : Heap) (r : ArrayRef) (b : bool) (n : Node) (sel : string)
    (ps : list Node) (c : Call) :
  In c (invoke h r b n sel ps) <->
  exists cb, In cb (read h r) /\ c = mkCall cb b n sel ps.
Proof.
  unfold invoke. rewrite in_map_iff. split; intros [cb [H1 H2]]; exists cb; auto.
Qed.

(** The first loop: the calls it makes are [true] calls for selectors that
    were not current and match; the matched selectors are the registered
    ones that match; every entry that was current stays, and the entries
    added are matching entries of [selectorChangedData]. *)
Lemma checkNew_fold (h : Heap) (ps : list Node) (D : Obj ArrayRef) :
  forall (cur mt : Obj ArrayRef) (cl : list Call),
    let res := fold_left (checkNew h ps) D (cur, mt, cl) in
    (exists newc,
        snd res = cl ++ newc /\
        forall c, In c newc ->
                  active c = true /\ Obj_has cur (selector c) = false /\
                  In (selector c) (map fst D) /\
                  exists n, findMatchingNode (selector c) ps = Some n) /\
    (forall k, Obj_has (snd (fst res)) k = true <->
               Obj_has mt k = true \/
               (In k (map fst D) /\ exists n, findMatchingNode k ps = Some n)) /\
    (forall k r, Obj_get cur k = Some r -> Obj_get (fst (fst res)) k = Some r) /\
    (forall k r, In (k, r) (fst (fst res)) ->
                 In (k, r) cur \/
                 (In (k, r) D /\ exists n, findMatchingNode k ps = Some n)) /\
    (forall k, In k (map fst D) ->
               (exists n, findMatchingNode k ps = Some n) ->
               Obj_has (fst (fst res)) k = true) /\
    (NoDup (map fst cur) -> NoDup (map fst (fst (fst res)))).
Proof.
  induction D as [|[sel r] D IH]; intros cur mt cl res.
  - subst res. cbn. repeat split.
    + exists []. split; [symmetry; apply app_nil_r | intros c []].
    + auto.
    + intros [H | [[] _]]. exact H.
    + auto.
    + auto.
    + intros k [].
    + auto.
  - subst res. cbn [fold_left]. rewrite checkNew_step.
    destruct (findMatchingNode sel ps) as [n|] eqn:Efind.
    + destruct (Obj_has cur sel) eqn:Ehas.
      * destruct (IH cur (Obj_set sel r mt) cl)
          as (Hc & Hm & Hg & Hin & Hk & Hnd).
        repeat split.
        -- destruct Hc as (newc & Hcl & Hc). exists newc. split; [exact Hcl|].
           intros c Hcin. destruct (Hc c Hcin) as (H1 & H2 & H3 & H4).
           repeat split; [assumption | assumption | right; exact H3 | exact H4].
        -- intros H. apply Hm in H. rewrite Obj_has_set in H.
           destruct H as [H | [H1 H2]].
           ++ apply orb_true_iff in H as [H | H]; [|left; exact H].
              apply bool_decide_eq_true in H. subst k.
              right. split; [left; reflexivity | eauto].
           ++ right. split; [right; exact H1 | exact H2].
        -- intros H. apply Hm. rewrite Obj_has_set.
           destruct H as [H | [[H1 | H1] H2]].
           ++ left. rewrite H. apply orb_true_r.
           ++ cbn in H1. subst k. left.
              rewrite bool_decide_eq_true_2 by reflexivity. reflexivity.
           ++ right. split; assumption.
        -- exact Hg.
        -- intros k r0 H. destruct (Hin k r0 H) as [H' | [H1 H2]];
             [left; exact H' | right; split; [right; exact H1 | exact H2]].
        -- intros k [H | H] Hf.
           ++ cbn in H. subst k. apply Obj_has_get in Ehas as [r0 Hr0].
              apply Obj_has_get. exists r0. apply Hg, Hr0.
           ++ apply Hk; assumption.
        -- exact Hnd.
      * destruct (IH (Obj_set sel r cur) (Obj_set sel r mt)
                     (cl ++ invoke h r true n sel ps))
          as ((newc & Hcl & Hc) & Hm & Hg & Hin & Hk & Hnd).
        repeat split.
        -- exists (invoke h r true n sel ps ++ newc). split.
           ++ rewrite Hcl. symmetry. apply app_assoc.
           ++ intros c Hcin. apply in_app_iff in Hcin as [Hcin | Hcin].
              ** apply In_invoke in Hcin as [cb [_ ->]]. cbn. eauto 6.
              ** destruct (Hc c Hcin) as (Ha & Hh & Hd & Hf).
                 rewrite Obj_has_set in Hh. apply orb_false_iff in Hh as [_ Hh].
                 repeat split; [assumption | assumption | right; exact Hd | exact Hf].
        -- intros H. apply Hm in H. rewrite Obj_has_set in H.
           destruct H as [H | [H1 H2]].
           ++ apply orb_true_iff in H as [H | H]; [|left; exact H].
              apply bool_decide_eq_true in H. subst k.
              right. split; [left; reflexivity | eauto].
           ++ right. split; [right; exact H1 | exact H2].
        -- intros H. apply Hm. rewrite Obj_has_set.
           destruct H as [H | [[H1 | H1] H2]].
           ++ left. rewrite H. apply orb_true_r.
           ++ cbn in H1. subst k. left.
              rewrite bool_decide_eq_true_2 by reflexivity. reflexivity.
           ++ right. split; assumption.
        -- intros k r0 H. apply Hg. rewrite Obj_get_set.
           rewrite bool_decide_eq_false_2; [exact H|].
           intros ->. unfold Obj_has in Ehas. rewrite H in Ehas. discriminate.
        -- intros k r0 H. destruct (Hin k r0 H) as [H' | [H1 H2]].
           ++ apply In_Obj_set in H' as [H' | H'].
              ** injection H' as -> ->. right. split; [left; reflexivity | eauto].
              ** left. exact H'.
           ++ right. split; [right; exact H1 | exact H2].
        -- intros k [H | H] Hf.
           ++ cbn in H. subst k. apply Obj_has_get. exists r.
              apply Hg. rewrite Obj_get_set.
              rewrite bool_decide_eq_true_2 by reflexivity. reflexivity.
           ++ apply Hk; assumption.
        -- intros Hnd0. apply Hnd. apply NoDup_Obj_set, Hnd0.
    + destruct (IH cur mt cl) as (Hc & Hm & Hg & Hin & Hk & Hnd).
      repeat split.
      * destruct Hc as (newc & Hcl & Hc). exists newc. split; [exact Hcl|].
        intros c Hcin. destruct (Hc c Hcin) as (H1 & H2 & H3 & H4).
        repeat split; [assumption | assumption | right; exact H3 | exact H4].
      * intros H. apply Hm in H. destruct H as [H | [H1 H2]];
          [left; exact H | right; split; [right; exact H1 | exact H2]].
      * intros H. apply Hm. destruct H as [H | [[H1 | H1] H2]].
        -- left. exact H.
        -- cbn in H1. subst k. destruct H2 as [n Hn]. congruence.
        -- right. split; assumption.
      * exact Hg.
      * intros k r0 H. destruct (Hin k r0 H) as [H' | [H1 H2]];
          [left; exact H' | right; split; [right; exact H1 | exact H2]].
      * intros k [H | H] Hf.
        -- cbn in H. subst k. destruct Hf as [n Hn]. congruence.
        -- apply Hk; assumption.
      * exact Hnd.
Qed.

Lemma checkNew_fold_nil (h : Heap) (ps : list Node) (D cur : Obj ArrayRef)
    (cl : list Call) :
  let res := fold_left (checkNew h ps) D (cur, [], cl) in
  (exists newc,
      snd res = cl ++ newc /\
      forall c, In c newc ->
                active c = true /\ Obj_has cur (selector c) = false /\
                In (selector c) (map fst D) /\
                exists n, findMatchingNode (selector c) ps = Some n) /\
  (forall k, Obj_has (snd (fst res)) k = true <->
             (In k (map fst D) /\ exists n, findMatchingNode k ps = Some n)) /\
  (forall k r, Obj_get cur k = Some r -> Obj_get (fst (fst res)) k = Some r) /\
  (forall k r, In (k, r) (fst (fst res)) ->
               In (k, r) cur \/
               (In (k, r) D /\ exists n, findMatchingNode k ps = Some n)) /\
  (forall k, In k (map fst D) ->
             (exists n, findMatchingNode k ps = Some n) ->
             Obj_has (fst (fst res)) k = true) /\
  (NoDup (map fst cur) -> NoDup (map fst (fst (fst res)))).
Proof.
  intros res.
  destruct (checkNew_fold h ps D cur [] cl) as (Hc & HM & Hg & Hin & Hk & Hnd).
  repeat split; try assumption.
  - apply HM in H as [H' | H']; [discriminate | apply H'].
  - apply HM in H as [H' | H']; [discriminate | apply H'].
  - intros H. apply HM. right. exact H.
Qed.

Lemma existsb_stale (M L : Obj ArrayRef) (k : string) :
  existsb (fun kr => bool_decide (fst kr = k) && negb (Obj_has M (fst kr))) L =
  Obj_has L k && negb (Obj_has M k).
Proof.
  induction L as [|[k0 r0] L IH]; [reflexivity|].
  cbn [existsb fst]. rewrite Obj_has_cons, IH.
  destruct (decide (k0 = k)) as [-> | Hne].
  - rewrite bool_decide_eq_true_2 by reflexivity. cbn.
    destruct (Obj_has M k), (Obj_has L k); reflexivity.
  - rewrite bool_decide_eq_false_2 by assumption. reflexivity.
Qed.

(** The second loop: every entry walked whose selector is not among the
    matched ones is deleted and its callbacks are called with [false]. *)
Lemma checkStill_fold (h : Heap) (e : Node) (ps : list Node) (M L : Obj ArrayRef) :
  forall (cur : Obj ArrayRef) (cl : list Call),
    fold_left (checkStill h e ps M) L (cur, cl) =
    (List.filter (fun kv => negb (Obj_has L (fst kv) && negb (Obj_has M (fst kv)))) cur,
     cl ++ concat (map (fun kr => if Obj_has M (fst kr) then []
                                  else invoke h (snd kr) false e (fst kr) ps) L)).
Proof.
  induction L as [|[k r] L IH]; intros cur cl.
  - cbn. rewrite app_nil_r. f_equal.
    induction cur as [|x cur IHc]; [reflexivity|]. cbn. f_equal. exact IHc.
  - cbn [fold_left checkStill map concat fst snd].
    destruct (Obj_has M k) eqn:EM; cbn [negb].
    + rewrite IH. cbn [app]. f_equal.
      apply List.filter_ext. intros [k1 r1]. cbn [fst].
      rewrite Obj_has_cons.
      destruct (decide (k = k1)) as [-> | Hne].
      * rewrite EM. rewrite !andb_false_r. reflexivity.
      * rewrite bool_decide_eq_false_2 by assumption. reflexivity.
    + rewrite IH. rewrite <- app_assoc. f_equal.
      unfold Obj_delete. rewrite filter_filter_and.
      apply List.filter_ext. intros [k1 r1]. cbn [fst].
      rewrite Obj_has_cons.
      destruct (decide (k = k1)) as [-> | Hne].
      * rewrite !bool_decide_eq_true_2 by reflexivity. rewrite EM. reflexivity.
      * rewrite (bool_decide_eq_false_2 (k1 = k)) by congruence.
        rewrite (bool_decide_eq_false_2 (k = k1)) by assumption. reflexivity.
Qed.

(** One NodeChange event, once [setup] has run: the new [currentSelectors]
    and the calls made, in terms of the two loops. *)
Lemma nodeChange_run (e : Node) (st : State) (m : Maps) :
  maps st = Some m ->
  let ps := getParents e in
  let res := fold_left (checkNew (heap st) ps) (selectorChangedData m)
                       (currentSelectors m, [], calls st) in
  let cur1 := fst (fst res) in
  let M := snd (fst res) in
  nodeChange e st =
  mkState (heap st)
    (Some (mkMaps (selectorChangedData m)
             (List.filter (fun kv => Obj_has M (fst kv)) cur1)))
    (snd res
     ++ concat (map (fun kr => if Obj_has M (fst kr) then []
                               else invoke (heap st) (snd kr) false e (fst kr) ps)
                    cur1)).
Proof.
  intros Hm ps res cur1 M. unfold SelectorChanged.nodeChange. rewrite Hm.
  fold ps. fold res. destruct res as [[c1 M1] cl1] eqn:Eres.
  subst cur1 M. cbn [fst snd].
  rewrite checkStill_fold. f_equal. f_equal. f_equal.
  apply List.filter_ext_in. intros [k r] Hin. cbn [fst].
  assert (Hhas : Obj_has c1 k = true).
  { apply Obj_has_keys. apply in_map_iff. exists (k, r). auto. }
  rewrite Hhas. destruct (Obj_has M1 k); reflexivity.
Qed.

(** *** Registration and unbinding *)

Lemma selectorChangedWithUnbind_run (sel : string) (cb : Callback) (start : Node)
    (st : State) :
  let m0 := match maps st with Some m => m | None => mkMaps [] [] end in
  let data' := if Obj_has (selectorChangedData m0) sel
               then selectorChangedData m0
               else Obj_set sel (length (heap st)) (selectorChangedData m0) in
  let cur' := match findMatchingNode sel (getParents start) with
              | Some _ =>
                  match Obj_get data' sel with
                  | Some r => Obj_set sel r (currentSelectors m0)
                  | None => currentSelectors m0
                  end
              | None => currentSelectors m0
              end in
  exists h',
    selectorChangedWithUnbind sel cb start st =
    mkState h' (Some (mkMaps data' cur')) (calls st).
Proof.
  unfold SelectorChanged.selectorChangedWithUnbind, setup.
  destruct (maps st) as [m|] eqn:Hm; cbn [maps heap calls].
  - rewrite Hm. destruct (Obj_has (selectorChangedData m) sel);
      cbn; eexists; reflexivity.
  - cbn. eexists. reflexivity.
Qed.

Lemma deleteFromCallbackMap_map (o : Obj ArrayRef) (sel : string) (cb : Callback)
    (h : Heap) :
  fst (deleteFromCallbackMap o sel cb h) = o \/
  fst (deleteFromCallbackMap o sel cb h) = Obj_delete sel o \/
  exists r, fst (deleteFromCallbackMap o sel cb h) = Obj_set sel r o.
Proof.
  unfold deleteFromCallbackMap. destruct (Obj_get o sel); [|left; reflexivity].
  cbn. destruct (Nat.eqb _ 0); [right; left | right; right; eexists]; reflexivity.
Qed.

Lemma unbind_maps (sel : string) (cb : Callback) (st : State) (m : Maps) :
  maps st = Some m ->
  exists h1 h2,
    maps (unbind sel cb st) =
    Some (mkMaps (fst (deleteFromCallbackMap (selectorChangedData m) sel cb h1))
                 (fst (deleteFromCallbackMap (currentSelectors m) sel cb h2))) /\
    calls (unbind sel cb st) = calls st.
Proof.
  intros Hm. unfold unbind. rewrite Hm.
  destruct (deleteFromCallbackMap (selectorChangedData m) sel cb (heap st))
    as [data h1] eqn:E1.
  destruct (deleteFromCallbackMap (currentSelectors m) sel cb h1)
    as [cur h2] eqn:E2.
  exists (heap st), h1. rewrite E1, E2. split; reflexivity.
Qed.

(** *** Invariants of the reachable states *)

Lemma keys_unique_step (op : Op) (st : State) :
  keys_unique st -> keys_unique (step op st).
Proof.
  intros Hu. destruct op as [sel cb start | sel cb | e]; cbn [SelectorChanged.step].
  - destruct (selectorChangedWithUnbind_run sel cb start st) as [h' Hrun].
    cbv zeta in Hrun. rewrite Hrun. intros m' [= <-]. cbn.
    assert (H0 : NoDup (map fst (selectorChangedData
                         match maps st with Some m => m | None => mkMaps [] [] end)) /\
                 NoDup (map fst (currentSelectors
                         match maps st with Some m => m | None => mkMaps [] [] end))).
    { destruct (maps st) as [m|] eqn:Hm; [exact (Hu m Hm)|].
      cbn. split; constructor. }
    destruct H0 as [Hd Hc]. split.
    + destruct (Obj_has _ sel); [exact Hd | apply NoDup_Obj_set, Hd].
    + destruct (findMatchingNode sel (getParents start)); [|exact Hc].
      destruct (Obj_get _ sel); [apply NoDup_Obj_set, Hc | exact Hc].
  - destruct (maps st) as [m|] eqn:Hm.
    + destruct (unbind_maps sel cb st m Hm) as (h1 & h2 & Hmaps & _).
      intros m' Hm'. rewrite Hmaps in Hm'. injection Hm' as <-. cbn.
      destruct (Hu m Hm) as [Hd Hc]. split.
      * destruct (deleteFromCallbackMap_map (selectorChangedData m) sel cb h1)
          as [-> | [-> | [r ->]]];
          [exact Hd | apply NoDup_Obj_filter, Hd | apply NoDup_Obj_set, Hd].
      * destruct (deleteFromCallbackMap_map (currentSelectors m) sel cb h2)
          as [-> | [-> | [r ->]]];
          [exact Hc | apply NoDup_Obj_filter, Hc | apply NoDup_Obj_set, Hc].
    + unfold unbind. rewrite Hm. exact Hu.
  - destruct (maps st) as [m|] eqn:Hm.
    + pose proof (nodeChange_run e st m Hm) as Hrun. cbv zeta in Hrun.
      rewrite Hrun. intros m' [= <-]. cbn.
      destruct (Hu m Hm) as [Hd Hc]. split; [exact Hd|].
      apply NoDup_Obj_filter.
      apply (checkNew_fold (heap st) (getParents e) (selectorChangedData m)
               (currentSelectors m) [] (calls st)).
      exact Hc.
    + unfold SelectorChanged.nodeChange. rewrite Hm. exact Hu.
Qed.

Lemma keys_unique_run (ops : list Op) (st : State) :
  keys_unique st -> keys_unique (run ops st).
Proof.
  revert st. induction ops as [|op ops IH]; intros st Hu; [exact Hu|].
  cbn. apply IH, keys_unique_step, Hu.
Qed.

Lemma keys_unique_initial : keys_unique initial.
Proof. intros m [=]. Qed.



(** *** What one NodeChange event does *)

Lemma matches_true (sel : string) (e : Node) :
  matches sel e = true <-> exists n, findMatchingNode sel (getParents e) = Some n.
Proof.
  unfold SelectorChanged.matches.
  destruct (findMatchingNode sel (getParents e)) as [n|]; split.
  - eauto.
  - reflexivity.
  - discriminate.
  - intros [n Hn]. discriminate.
Qed.

Lemma matches_false (sel : string) (e : Node) :
  matches sel e = false <-> findMatchingNode sel (getParents e) = None.
Proof.
  unfold SelectorChanged.matches.
  destruct (findMatchingNode sel (getParents e)); split; congruence.
Qed.

Lemma In_stale (h : Heap) (e : Node) (ps : list Node) (M L : Obj ArrayRef) (c : Call) :
  In c (concat (map (fun kr => if Obj_has M (fst kr) then []
                               else invoke h (snd kr) false e (fst kr) ps) L)) <->
  exists k r cb, In (k, r) L /\ Obj_has M k = false /\ In cb (read h r) /\
                 c = mkCall cb false e k ps.
Proof.
  rewrite in_concat. split.
  - intros [l [Hl Hc]]. apply in_map_iff in Hl as [[k r] [<- Hin]].
    cbn [fst snd] in Hc. destruct (Obj_has M k) eqn:EM; [destruct Hc|].
    apply In_invoke in Hc as [cb [Hcb ->]]. exists k, r, cb. auto.
  - intros (k & r & cb & Hin & HM & Hcb & ->).
    exists (invoke h r false e k ps). split.
    + apply in_map_iff. exists (k, r). cbn [fst snd]. rewrite HM. auto.
    + apply In_invoke. eauto.
Qed.

Lemma nodeChange_calls (e : Node) (st : State) (m : Maps) :
  maps st = Some m ->
  NoDup (map fst (currentSelectors m)) ->
  let st' := nodeChange e st in
  calls st' = calls st ++ new_calls st st' /\
  (forall c, In c (new_calls st st') -> active c = true ->
             matched st (selector c) = false /\
             matches (selector c) e = true /\
             matched st' (selector c) = true) /\
  (forall sel, registered st sel = true -> matched st sel = true ->
               matches sel e = true ->
               matched st' sel = true /\
               forall c, In c (new_calls st st') -> selector c <> sel) /\
  (forall sel cb, registered st sel = true ->
                  ((exists c, In c (new_calls st st') /\ active c = false /\
                              selector c = sel /\ callback c = cb) <->
                   (In cb (matched_callbacks st sel) /\ matches sel e = false))) /\
  (forall sel, matches sel e = false -> matched st' sel = false).
Proof.
  intros Hm Hnd st'.
  pose proof (nodeChange_run e st m Hm) as Hrun. cbv zeta in Hrun.
  pose proof (checkNew_fold_nil (heap st) (getParents e) (selectorChangedData m)
                (currentSelectors m) (calls st)) as Hloop.
  cbv zeta in Hloop.
  set (res := fold_left (checkNew (heap st) (getParents e)) (selectorChangedData m)
                        (currentSelectors m, [], calls st)) in *.
  destruct Hloop as ((newc & Hcl & Hc) & HM & Hg & Hin & Hk & _).
  set (cur1 := fst (fst res)) in *. set (M := snd (fst res)) in *.
  set (stale := concat (map (fun kr => if Obj_has M (fst kr) then []
                                       else invoke (heap st) (snd kr) false e
                                                   (fst kr) (getParents e)) cur1)) in *.
  assert (Hcalls : calls st' = calls st ++ (newc ++ stale)).
  { subst st'. rewrite Hrun. cbn [calls]. rewrite Hcl. symmetry. apply app_assoc. }
  assert (Hnew : new_calls st st' = newc ++ stale).
  { unfold new_calls. rewrite Hcalls. apply drop_app_length. }
  assert (Hmatched' : forall sel, matched st' sel = Obj_has M sel && Obj_has cur1 sel).
  { intros sel. subst st'. rewrite Hrun. unfold matched. cbn [maps currentSelectors].
    apply (Obj_has_filter (fun x => Obj_has M x)). }
  assert (Hmatched : forall sel, matched st sel = Obj_has (currentSelectors m) sel).
  { intros sel. unfold matched. rewrite Hm. reflexivity. }
  assert (Hreg : forall sel, registered st sel = Obj_has (selectorChangedData m) sel).
  { intros sel. unfold registered. rewrite Hm. reflexivity. }
  assert (HMno : forall sel, matches sel e = false -> Obj_has M sel = false).
  { intros sel Hf. apply matches_false in Hf.
    destruct (Obj_has M sel) eqn:EM; [|reflexivity].
    apply HM in EM as [_ [n Hn]]. congruence. }
  assert (HMyes : forall sel, Obj_has (selectorChangedData m) sel = true ->
                              matches sel e = true -> Obj_has M sel = true).
  { intros sel Hr Hy. apply HM. split.
    - apply Obj_has_keys, Hr.
    - apply matches_true, Hy. }
  assert (Hcur1 : forall sel, Obj_has (currentSelectors m) sel = true ->
                              Obj_has cur1 sel = true).
  { intros sel Hs. apply Obj_has_get in Hs as [r Hr].
    apply Obj_has_get. exists r. apply Hg, Hr. }
  split; [rewrite Hcalls, Hnew; reflexivity|].
  rewrite Hnew. split; [|split; [|split]].
  - intros c Hcin Hact. apply in_app_iff in Hcin as [Hcin | Hcin].
    + destruct (Hc c Hcin) as (_ & Hnot & Hd & Hf).
      rewrite Hmatched, Hmatched'. split; [exact Hnot|].
      split; [apply matches_true, Hf|].
      apply andb_true_iff. split.
      * apply HM. auto.
      * apply Hk; assumption.
    + apply In_stale in Hcin as (k & r & cb & _ & _ & _ & ->).
      cbn in Hact. discriminate.
  - intros sel Hr Hs Hy. rewrite Hreg in Hr. rewrite Hmatched in Hs.
    rewrite Hmatched'. split.
    + apply andb_true_iff. split; [apply HMyes; assumption | apply Hcur1, Hs].
    + intros c Hcin Heq. apply in_app_iff in Hcin as [Hcin | Hcin].
      * destruct (Hc c Hcin) as (_ & Hnot & _). congruence.
      * apply In_stale in Hcin as (k & r & cb & _ & HMk & _ & ->).
        cbn in Heq. subst k. rewrite HMyes in HMk by assumption. discriminate.
  - intros sel cb Hr. rewrite Hreg in Hr. split.
    + intros (c & Hcin & Hact & Hsel & Hcb).
      apply in_app_iff in Hcin as [Hcin | Hcin].
      * destruct (Hc c Hcin) as (Ht & _). congruence.
      * apply In_stale in Hcin as (k & r & cb' & Hkr & HMk & Hcb' & ->).
        cbn in Hsel, Hcb. subst k cb'.
        assert (Hno : matches sel e = false).
        { destruct (matches sel e) eqn:Ey; [|reflexivity].
          rewrite HMyes in HMk by assumption. discriminate. }
        split; [|exact Hno].
        destruct (Hin sel r Hkr) as [H0 | [H0 [n Hn]]].
        -- unfold matched_callbacks. rewrite Hm.
           rewrite (In_Obj_get _ _ _ Hnd H0). exact Hcb'.
        -- apply matches_false in Hno. congruence.
    + intros [Hcb Hno]. unfold matched_callbacks in Hcb. rewrite Hm in Hcb.
      destruct (Obj_get (currentSelectors m) sel) as [r|] eqn:Eget; [|destruct Hcb].
      exists (mkCall cb false e sel (getParents e)).
      split; [|cbn; auto].
      apply in_app_iff. right. apply In_stale.
      exists sel, r, cb. repeat split; auto.
      apply Obj_get_In. apply Hg, Eget.
  - intros sel Hno. rewrite Hmatched'. rewrite (HMno sel Hno). reflexivity.
Qed.


End Handler.

(** The page of [Demo]: one callback watches [b]; the selection starts in a
    plain paragraph, moves into the [b] element, stays there, and leaves. *)
Example one_callback_trace :
  calls (run Demo.dom_is Demo.getParents
           [Register "b" 7%nat 3%nat; NodeChange 1%nat; NodeChange 1%nat;
            NodeChange 3%nat] initial) =
  [mkCall 7%nat true 1%nat "b" [1; 2]%nat; mkCall 7%nat false 3%nat "b" [3%nat]].
Proof. reflexivity. Qed.

(** Registering inside the [b] element makes no call; leaving it calls the
    callback with [false]. *)
Example seeded_trace :
  calls (run Demo.dom_is Demo.getParents
           [Register "b" 7%nat 1%nat; NodeChange 1%nat; NodeChange 3%nat] initial) =
  [mkCall 7%nat false 3%nat "b" [3%nat]].
Proof. reflexivity. Qed.

(** After an unbinding the two objects hold different arrays: a callback
    registered later, while the selection is outside, is not in the matched
    entry. *)
Example unbind_then_register_trace :
  calls (run Demo.dom_is Demo.getParents
           [Register "b" 7%nat 1%nat; Register "b" 8%nat 1%nat; Unbind "b" 7%nat;
            Register "b" 9%nat 3%nat; NodeChange 3%nat] initial) =
  [mkCall 8%nat false 3%nat "b" [3%nat]].
Proof. reflexivity. Qed.


End SelectorChangedSpec.

(** ** InlineHeader: more of the update pass and of the life cycle *)

Module InlineHeaderMore.

Import InlineHeader InlineHeaderSpec.

Lemma keeps_ret {X A : Type} (f : World -> X) (a : A) : keeps f (ret a : M A).
Proof. intros w. reflexivity. Qed.

Lemma keeps_gets {X A : Type} (f : World -> X) (g : World -> A) : keeps f (gets g).
Proof. intros w. reflexivity. Qed.

Lemma keeps_bind {X A B : Type} (f : World -> X) (m : M A) (k : A -> M B) :
  keeps f m -> (forall a, keeps f (k a)) -> keeps f (bind m k).
Proof.
  intros Hm Hk w. rewrite exec_bind. rewrite Hk. apply Hm.
Qed.

Lemma keeps_when {X : Type} (f : World -> X) (b : bool) (c : M unit) :
  keeps f c -> keeps f (when b c).
Proof. intros Hc. destruct b; [exact Hc | apply keeps_ret]. Qed.

Lemma keeps_floatContainer_on {X : Type} (f : World -> X)
    (g : AlloyComponent -> M unit) :
  (forall c, keeps f (g c)) -> keeps f (floatContainer_on g).
Proof.
  intros Hg w. unfold floatContainer_on, exec.
  destruct (floatContainer w) as [c|]; [apply (Hg c w) | reflexivity].
Qed.

Lemma keeps_Css_setAll {X : Type} (f : World -> X) (e : Element)
    (props : list (string * CssValue)) :
  (forall p v, keeps f (Css_set e p v)) -> keeps f (Css_setAll e props).
Proof.
  intros H. induction props as [|[p v] rest IH]; cbn [Css_setAll].
  - apply keeps_ret.
  - apply keeps_bind; [apply H | intros _; exact IH].
Qed.

(** Goals [keeps f m]: a primitive is settled by computation, the rest
    follows the shape of [m]. *)
Ltac keeps_step :=
  first
    [ apply keeps_ret
    | apply keeps_gets
    | apply keeps_Css_setAll; intros ? ?
    | apply keeps_when
    | apply keeps_floatContainer_on; intros ?
    | solve [intros ?; reflexivity]
    | apply keeps_bind; [|intros ?]
    | match goal with
      | |- keeps _ (if ?b then _ else _) => destruct b
      | |- keeps _ (match ?o with Some _ => _ | None => _ end) => destruct o
      end
    | progress cbv zeta
    | progress unfold calcToolbarOffset, isVisible, getDockingMode,
        isPositionedAtTop, repositionPopups, widthProperties ].

Ltac keeps_tac := repeat keeps_step.

Section Pass.

Variable cfg : Config.
Variable env : Env.

Lemma keeps_mode_updateChromeUi (resetDocking : bool) :
  keeps dockingMode (updateChromeUi cfg env resetDocking).
Proof.
  unfold updateChromeUi, updateChromeWidth,
    restoreAndGetCompleteOuterContainerWidth, updateChromePosition.
  keeps_tac.
Qed.

Lemma keeps_attributes_updateChromeUi (resetDocking : bool) :
  keeps attributes (updateChromeUi cfg env resetDocking).
Proof.
  unfold updateChromeUi, updateChromeWidth,
    restoreAndGetCompleteOuterContainerWidth, updateChromePosition.
  keeps_tac.
Qed.

(** The value [updateChromeWidth] writes: the configured maximum width,
    or the width of the body minus the left position of the target plus
    the body's left margin (0 when it does not parse). *)
Lemma updateChromeWidth_run (w : World) (container : AlloyComponent) :
  floatContainer w = Some container ->
  exec (updateChromeWidth cfg env) w =
  exec (Css_set (element container) "max-width"
          (Px (match editorMaxWidthOpt cfg with
               | Some mw => mw
               | None =>
                   Width_get env w (SugarBody_body env)
                   - SugarLocation_absolute_left env w (targetElm env)
                   + default 0 (Utils_parseToInt env
                                  (Css_get env w (SugarBody_body env) "margin-left"))
               end))) w.
Proof.
  intros Hfc. unfold updateChromeWidth, floatContainer_on, exec at 1.
  rewrite Hfc. destruct (editorMaxWidthOpt cfg); reflexivity.
Qed.


(** X2.  Outside the fixed-container configuration the measuring pass
    makes the outer container absolutely positioned at [left: 0], removes
    its [width], and returns the outer width measured on the page as it is
    after these three mutations; under the fixed-container configuration it
    returns nothing and changes nothing. *)
Theorem restore_measures_after_reset (w : World) :
  let outer := element (outerContainer env) in
  let w' := exec (restoreAndGetCompleteOuterContainerWidth cfg env) w in
  (useFixedToolbarContainer cfg = false ->
   styles w' !! (outer, "position"%string) = Some (Keyword "absolute") /\
   styles w' !! (outer, "left"%string) = Some (Px 0) /\
   styles w' !! (outer, "width"%string) = None /\
   new_effects (restoreAndGetCompleteOuterContainerWidth cfg env) w =
     [CssSet outer "position" (Keyword "absolute"); CssSet outer "left" (Px 0);
      CssRemove outer "width"] /\
   eval (restoreAndGetCompleteOuterContainerWidth cfg env) w =
     Some (Width_getOuter env w' outer)) /\
  (useFixedToolbarContainer cfg = true ->
   w' = w /\ eval (restoreAndGetCompleteOuterContainerWidth cfg env) w = None).
Proof.
  intros outer w'. subst w'. unfold restoreAndGetCompleteOuterContainerWidth.
  split; intros ->; cbn [negb].
  - fold outer. cbn. repeat split.
    + rewrite lookup_delete_ne by (intros [=]).
      rewrite lookup_insert_ne by (intros [=]). apply lookup_insert_eq.
    + rewrite lookup_delete_ne by (intros [=]). apply lookup_insert_eq.
    + apply lookup_delete_eq.
    + unfold new_effects. cbn. rewrite <- !app_assoc. cbn. apply drop_app_length.
  - split; reflexivity.
Qed.

(** X3.  Under the fixed-container configuration a pass on a visible
    header mutates no style, no attribute and not the docking mode; it
    refreshes the split toolbar when the toolbar mode is sliding or
    floating, makes one docking call when the toolbar is sticky and the
    float container is set, and ends with the broadcast. *)
Theorem updateChromeUi_fixed_container (resetDocking : bool) (w : World) :
  useFixedToolbarContainer cfg = true ->
  visible w = true ->
  removed w = false ->
  let w' := exec (updateChromeUi cfg env resetDocking) w in
  styles w' = styles w /\
  attributes w' = attributes w /\
  dockingMode w' = dockingMode w /\
  new_effects (updateChromeUi cfg env resetDocking) w =
    (if isSplitToolbar cfg then [RefreshToolbar (outerContainer env)] else [])
    ++ (if isSticky cfg
        then match floatContainer w with
             | Some container => [if resetDocking then DockingReset container
                                  else DockingRefresh container]
             | None => []
             end
        else [])
    ++ [BroadcastOn (uiMothership env) [Channels_repositionPopups env]].
Proof.
  intros Hfixed Hv Hr w'. subst w'.
  split; [|split; [|split]].
  - unfold updateChromeUi, restoreAndGetCompleteOuterContainerWidth.
    rewrite Hfixed. cbn [negb when].
    unfold exec, bind, isVisible, gets, ret, repositionPopups, when. cbn.
    rewrite Hv, Hr. cbn.
    destruct (isSplitToolbar cfg), (isSticky cfg); cbn; try reflexivity;
      unfold floatContainer_on; cbn; destruct (floatContainer w); reflexivity.
  - apply keeps_attributes_updateChromeUi.
  - apply keeps_mode_updateChromeUi.
  - apply new_effects_app.
    unfold updateChromeUi, restoreAndGetCompleteOuterContainerWidth.
    rewrite Hfixed. cbn [negb when].
    unfold exec, bind, isVisible, gets, ret, repositionPopups, when. cbn.
    rewrite Hv, Hr. cbn.
    destruct (isSplitToolbar cfg), (isSticky cfg); cbn; try reflexivity;
      unfold floatContainer_on; cbn; destruct (floatContainer w); cbn;
      rewrite <- ?app_assoc; reflexivity.
Qed.

Lemma count_none (f : Effect -> bool) (l : list Effect) :
  Forall (fun e => f e = false) l -> count f l = 0%nat.
Proof.
  intros H. unfold count. induction H as [|e l He _ IH]; [reflexivity|].
  cbn. rewrite He. exact IH.
Qed.

(** The shape of a pass on a visible header, whatever the configuration:
    style mutations and the toolbar refresh, then the docking call if any,
    then the broadcast. *)
Lemma updateChromeUi_visible_shape (resetDocking : bool) (w : World) :
  eval (isVisible) w = true ->
  exists l,
    Forall (fun e => is_chrome e = true) l /\
    effects (exec (updateChromeUi cfg env resetDocking) w) =
    effects w ++ l
    ++ (if isSticky cfg
        then match floatContainer w with
             | Some container => [if resetDocking then DockingReset container
                                  else DockingRefresh container]
             | None => []
             end
        else [])
    ++ [BroadcastOn (uiMothership env) [Channels_repositionPopups env]].
Proof.
  intros Hvis. destruct (floatContainer w) as [container|] eqn:Hfc.
  - destruct (updateChromeUi_visible_log cfg env resetDocking w container Hvis Hfc)
      as (l & Hl & He).
    exists l. split; [exact Hl|]. rewrite He.
    destruct (isSticky cfg); reflexivity.
  - unfold updateChromeUi.
    rewrite exec_bind. cbv beta. rewrite Hvis. cbn [negb].
    change (exec isVisible w) with w.
    rewrite !exec_bind.
    set (c1 := when (negb (useFixedToolbarContainer cfg)) (updateChromeWidth cfg env)).
    set (w1 := exec c1 w).
    set (c2 := restoreAndGetCompleteOuterContainerWidth cfg env).
    set (w2 := exec c2 w1).
    set (c3 := when (isSplitToolbar cfg) (log (RefreshToolbar (outerContainer env)))).
    set (w3 := exec c3 w2).
    set (c4 := when (negb (useFixedToolbarContainer cfg))
                    (updateChromePosition cfg env (eval c2 w1))).
    set (w4 := exec c4 w3).
    assert (F1 : frames (fun e => is_chrome e = true) c1).
    { apply frames_when, frames_updateChromeWidth. }
    assert (F2 : frames (fun e => is_chrome e = true) c2) by apply frames_restore.
    assert (F3 : frames (fun e => is_chrome e = true) c3).
    { apply frames_when, frames_log. reflexivity. }
    assert (F4 : frames (fun e => is_chrome e = true) c4).
    { apply frames_when, frames_updateChromePosition. }
    destruct (F1 w) as (_ & _ & Hf1 & l1 & He1 & HP1). fold w1 in Hf1, He1.
    destruct (F2 w1) as (_ & _ & Hf2 & l2 & He2 & HP2). fold w2 in Hf2, He2.
    destruct (F3 w2) as (_ & _ & Hf3 & l3 & He3 & HP3). fold w3 in Hf3, He3.
    destruct (F4 w3) as (_ & _ & Hf4 & l4 & He4 & HP4). fold w4 in Hf4, He4.
    assert (Hfc4 : floatContainer w4 = None) by congruence.
    assert (He : effects w4 = effects w ++ (l1 ++ l2 ++ l3 ++ l4)).
    { rewrite He4, He3, He2, He1. rewrite <- !app_assoc. reflexivity. }
    exists (l1 ++ l2 ++ l3 ++ l4). split.
    + repeat (apply Forall_app; split); assumption.
    + unfold repositionPopups. destruct (isSticky cfg); cbn [when].
      * unfold floatContainer_on, exec at 2. rewrite Hfc4.
        cbn. rewrite He. rewrite <- !app_assoc. reflexivity.
      * cbn. rewrite He. rewrite <- !app_assoc. reflexivity.
Qed.

(** What [updateMode(false)] may log: the two calls of [setupMode], or
    nothing. *)
Lemma updateMode_false_log (w : World) :
  let w' := exec (updateMode cfg env false) w in
  visible w' = visible w /\ removed w' = removed w /\
  floatContainer w' = floatContainer w /\
  exists l,
    effects w' = effects w ++ l /\
    Forall (fun e => match e with
                     | DockingSetModes _ _ | AttributeSet _ _ _ => True
                     | _ => False
                     end) l.
Proof.
  intros w'. subst w'.
  destruct (frames_updateMode cfg env false w) as (Hv & Hr & Hf & _).
  split; [exact Hv|]. split; [exact Hr|]. split; [exact Hf|].
  destruct (useFixedToolbarContainer cfg) eqn:Hfixed.
  { exists []. unfold exec. rewrite updateMode_skipped by auto.
    split; [symmetry; apply app_nil_r | constructor]. }
  destruct (isSticky cfg) eqn:Hsticky.
  2:{ exists []. unfold exec. rewrite updateMode_skipped by auto.
      split; [symmetry; apply app_nil_r | constructor]. }
  destruct (eval isVisible w) eqn:Hvis.
  2:{ exists []. unfold exec. rewrite updateMode_skipped by auto.
      split; [symmetry; apply app_nil_r | constructor]. }
  destruct (floatContainer w) as [container|] eqn:Hfc.
  - rewrite (updateMode_active cfg env false w container Hfixed Hsticky Hvis Hfc).
    destruct (Mode_eqb _ _).
    + exists []. split; [symmetry; apply app_nil_r | constructor].
    + rewrite (setupMode_run env _ w container Hfc). cbn [effects].
      eexists. split; [reflexivity|]. repeat constructor.
  - exists []. split; [|constructor].
    unfold updateMode. rewrite exec_bind. cbv beta.
    change (exec isVisible w) with w. rewrite Hfixed, Hsticky, Hvis. cbn [negb orb].
    unfold floatContainer_on, exec. rewrite Hfc. cbn. symmetry. apply app_nil_r.
Qed.

(** X4.  [show] on an editor that is not removed makes the header
    visible, starts with the three display and focus-class mutations, and
    runs the update pass exactly once and without resetting the docking:
    one broadcast, which is the last call, and no [Docking.reset]. *)
Theorem show_runs_one_pass (w : World) :
  removed w = false ->
  eval (isVisible) (exec (show cfg env) w) = true /\
  (exists rest,
     new_effects (show cfg env) w =
     [CssSet (element (outerContainer env)) "display" (Keyword "flex");
      AddClass (editorBody env) "mce-edit-focus";
      CssRemove (uiMothership env) "display"] ++ rest) /\
  count is_broadcast (new_effects (show cfg env) w) = 1%nat /\
  count is_docking_reset (new_effects (show cfg env) w) = 0%nat /\
  last (new_effects (show cfg env) w) =
    Some (BroadcastOn (uiMothership env) [Channels_repositionPopups env]).
Proof.
  intros Hr.
  assert (Hshow : exists l1 l2 dock,
             Forall (fun e => match e with
                              | DockingSetModes _ _ | AttributeSet _ _ _ => True
                              | _ => False
                              end) l1 /\
             Forall (fun e => is_chrome e = true) l2 /\
             (dock = [] \/ exists c, dock = [DockingRefresh c]) /\
             effects (exec (show cfg env) w) =
             effects w
             ++ [CssSet (element (outerContainer env)) "display" (Keyword "flex");
                 AddClass (editorBody env) "mce-edit-focus";
                 CssRemove (uiMothership env) "display"]
             ++ l1 ++ l2 ++ dock
             ++ [BroadcastOn (uiMothership env) [Channels_repositionPopups env]]).
  { unfold show. rewrite !exec_bind.
    set (w3 := exec (Css_remove (uiMothership env) "display")
                 (exec (DOM_addClass (editorBody env) "mce-edit-focus")
                    (exec (Css_set (element (outerContainer env)) "display"
                             (Keyword "flex"))
                       (exec (visible_set true) w)))).
    assert (He3 : effects w3 = effects w
                  ++ [CssSet (element (outerContainer env)) "display" (Keyword "flex");
                      AddClass (editorBody env) "mce-edit-focus";
                      CssRemove (uiMothership env) "display"]).
    { subst w3. cbn. rewrite <- !app_assoc. reflexivity. }
    assert (Hvis3 : visible w3 = true /\ removed w3 = false).
    { subst w3. cbn. auto. }
    destruct (updateMode_false_log w3) as (Hv4 & Hr4 & Hf4 & l1 & He4 & Hl1).
    cbv zeta in Hv4, Hr4, Hf4, He4.
    set (w4 := exec (updateMode cfg env false) w3) in *.
    assert (Hvis4 : eval isVisible w4 = true).
    { cbn. rewrite Hv4, Hr4. destruct Hvis3 as [-> ->]. reflexivity. }
    destruct (updateChromeUi_visible_shape false w4 Hvis4) as (l2 & Hl2 & He5).
    exists l1, l2.
    exists (if isSticky cfg
            then match floatContainer w4 with
                 | Some container => [DockingRefresh container]
                 | None => []
                 end
            else []).
    split; [exact Hl1|]. split; [exact Hl2|]. split.
    - destruct (isSticky cfg); [|left; reflexivity].
      destruct (floatContainer w4); [right; eauto | left; reflexivity].
    - rewrite He5, He4, He3. rewrite <- !app_assoc. reflexivity. }
  destruct Hshow as (l1 & l2 & dock & Hl1 & Hl2 & Hdock & He).
  pose proof (new_effects_app _ _ _ He) as Hnew.
  split; [|split; [|split; [|split]]].
  - cbn. rewrite exec_show_visible, exec_show_removed, Hr. reflexivity.
  - eexists. rewrite Hnew. reflexivity.
  - rewrite Hnew. rewrite !count_app.
    rewrite (count_none is_broadcast l1).
    2:{ eapply Forall_impl; [exact Hl1|]. intros [] Hx; cbn in *; tauto. }
    rewrite (count_chrome is_broadcast l2)
      by (try exact Hl2; intros [] Hx; try discriminate Hx; reflexivity).
    destruct Hdock as [-> | [c ->]]; reflexivity.
  - rewrite Hnew. rewrite !count_app.
    rewrite (count_none is_docking_reset l1).
    2:{ eapply Forall_impl; [exact Hl1|]. intros [] Hx; cbn in *; tauto. }
    rewrite (count_chrome is_docking_reset l2)
      by (try exact Hl2; intros [] Hx; try discriminate Hx; reflexivity).
    destruct Hdock as [-> | [c ->]]; reflexivity.
  - rewrite Hnew. rewrite !app_assoc. apply last_snoc.
Qed.

(** X5.  [show] followed by [hide], from any state: the visibility cell
    is false, the outer container and the floating layer have
    [display: none], the editable body has lost the focus class, and a
    further [update] or [updateMode] does nothing. *)
Theorem hide_after_show (w : World) :
  let w' := exec (hide env) (exec (show cfg env) w) in
  visible w' = false /\
  eval (isVisible) w' = false /\
  styles w' !! (element (outerContainer env), "display"%string) =
    Some (Keyword "none") /\
  styles w' !! (uiMothership env, "display"%string) = Some (Keyword "none") /\
  ((editorBody env, "mce-edit-focus"%string) ∉ classes w') /\
  (forall b, exec (updateChromeUi cfg env b) w' = w' /\
             exec (updateMode cfg env b) w' = w').
Proof.
  intros w'. subst w'. generalize (exec (show cfg env) w). intros w0.
  assert (Hvis : eval isVisible (exec (hide env) w0) = false) by reflexivity.
  split; [reflexivity|]. split; [exact Hvis|].
  split; [|split; [|split]].
  - cbn. destruct (decide (uiMothership env = element (outerContainer env)))
      as [-> | Hne].
    + apply lookup_insert_eq.
    + rewrite lookup_insert_ne by congruence. apply lookup_insert_eq.
  - cbn. apply lookup_insert_eq.
  - cbn. apply not_elem_of_difference. right. apply elem_of_singleton. reflexivity.
  - intros b. split.
    + unfold exec at 1. rewrite updateChromeUi_hidden by exact Hvis. reflexivity.
    + unfold exec at 1. rewrite updateMode_skipped by auto. reflexivity.
Qed.


(** X7.  When [updateMode] is not skipped and the float container is set,
    the docking mode stored afterwards is the mode the resolver computes,
    whether or not the update pass is run; so a configured [top] or
    [bottom] location is the stored mode whatever the geometry. *)
Theorem updateMode_stores_resolved_mode (updateUi : bool) (w : World)
    (container : AlloyComponent) :
  useFixedToolbarContainer cfg = false ->
  isSticky cfg = true ->
  visible w = true ->
  removed w = false ->
  floatContainer w = Some container ->
  let w' := exec (updateMode cfg env updateUi) w in
  dockingMode w' = eval (calcMode cfg env container) w /\
  (toolbarLocation cfg = loc_top -> dockingMode w' = mode_top) /\
  (toolbarLocation cfg = loc_bottom -> dockingMode w' = mode_bottom).
Proof.
  intros Hfixed Hsticky Hv Hr Hfc w'.
  assert (Hvis : eval isVisible w = true) by (cbn; rewrite Hv, Hr; reflexivity).
  assert (Hmode : dockingMode w' = eval (calcMode cfg env container) w).
  { subst w'.
    rewrite (updateMode_active cfg env updateUi w container Hfixed Hsticky Hvis Hfc).
    destruct (Mode_eqb _ _) eqn:E.
    - apply Mode_eqb_eq in E. congruence.
    - destruct updateUi.
      + rewrite keeps_mode_updateChromeUi.
        rewrite (setupMode_run env _ w container Hfc). reflexivity.
      + rewrite (setupMode_run env _ w container Hfc). reflexivity. }
  split; [exact Hmode|].
  split; intros Hloc; rewrite Hmode; unfold calcMode, eval; rewrite Hloc;
    reflexivity.
Qed.

(** *** The calls of one pass, in order *)

Lemma restore_log (w : World) :
  useFixedToolbarContainer cfg = false ->
  effects (exec (restoreAndGetCompleteOuterContainerWidth cfg env) w) =
    effects w
    ++ [CssSet (element (outerContainer env)) "position" (Keyword "absolute");
        CssSet (element (outerContainer env)) "left" (Px 0);
        CssRemove (element (outerContainer env)) "width"] /\
  floatContainer (exec (restoreAndGetCompleteOuterContainerWidth cfg env) w) =
    floatContainer w.
Proof.
  intros Hfixed. unfold restoreAndGetCompleteOuterContainerWidth.
  rewrite Hfixed. cbn. rewrite <- !app_assoc. split; reflexivity.
Qed.

Lemma updateChromePosition_log (opt : option Q) (w : World)
    (container : AlloyComponent) :
  floatContainer w = Some container ->
  exists left top widthPart,
    (widthPart = [] \/
     exists v, widthPart = [CssSet (element (outerContainer env)) "width" (Px v)]) /\
    effects (exec (updateChromePosition cfg env opt) w) =
      effects w
      ++ [CssSet (element (outerContainer env)) "position" (Keyword "absolute");
          CssSet (element (outerContainer env)) "left" (Px (inject_Z left));
          CssSet (element (outerContainer env)) "top" (Px (inject_Z top))]
      ++ widthPart /\
    floatContainer (exec (updateChromePosition cfg env opt) w) = Some container.
Proof.
  intros Hfc.
  pose proof (updateChromePosition_run cfg env opt w container Hfc) as Hrun.
  cbv zeta in Hrun. rewrite Hrun. clear Hrun.
  rewrite effects_Css_setAll, map_app.
  destruct (frames_Css_setAll any_effect (element (outerContainer env))
              ([("position"%string, Keyword "absolute");
                ("left"%string,
                 Px (inject_Z (Math_round
                                 (Boxes.x (Boxes_box env w (targetElm env))))));
                ("top"%string,
                 Px (inject_Z (Math_round
                   match dockingMode w with
                   | mode_top =>
                       Math_max
                         (Boxes.y (Boxes_box env w (targetElm env))
                          - Height_get env w (element container)
                          + eval (calcToolbarOffset cfg env
                                    (OuterContainer_getToolbar env w
                                       (outerContainer env))) w) 0
                   | mode_bottom => Boxes.bottom (Boxes_box env w (targetElm env))
                   end)))]
               ++ eval (widthProperties env opt (Boxes_box env w (targetElm env))) w)
              (fun _ _ => I) w) as (_ & _ & Hf & _).
  rewrite Hf. clear Hf.
  rewrite widthProperties_eval.
  do 2 eexists.
  destruct opt as [tw|].
  - destruct (Qgtb _ _).
    + eexists. split; [right; eexists; reflexivity|]. split; [reflexivity | exact Hfc].
    + exists []. split; [left; reflexivity|]. split; [reflexivity | exact Hfc].
  - exists []. split; [left; reflexivity|]. split; [reflexivity | exact Hfc].
Qed.

(** X8.  Outside the fixed-container configuration, a pass on a visible
    header with a float container makes its calls in one fixed order: the
    maximum width on the float container; the measuring reset of the outer
    container (position, left, removal of width); the refresh of the split
    toolbar when the toolbar mode is sliding or floating; position, left
    and top of the outer container, then its width if it is overridden; the
    docking reset or refresh when the toolbar is sticky; the broadcast. *)
Theorem updateChromeUi_call_sequence (resetDocking : bool) (w : World)
    (container : AlloyComponent) :
  useFixedToolbarContainer cfg = false ->
  visible w = true ->
  removed w = false ->
  floatContainer w = Some container ->
  let outer := element (outerContainer env) in
  exists maxWidth left top widthPart,
    (widthPart = [] \/ exists v, widthPart = [CssSet outer "width" (Px v)]) /\
    new_effects (updateChromeUi cfg env resetDocking) w =
      [CssSet (element container) "max-width" (Px maxWidth);
       CssSet outer "position" (Keyword "absolute");
       CssSet outer "left" (Px 0);
       CssRemove outer "width"]
      ++ (if isSplitToolbar cfg then [RefreshToolbar (outerContainer env)] else [])
      ++ [CssSet outer "position" (Keyword "absolute");
          CssSet outer "left" (Px (inject_Z left));
          CssSet outer "top" (Px (inject_Z top))]
      ++ widthPart
      ++ (if isSticky cfg
          then [if resetDocking then DockingReset container
                else DockingRefresh container]
          else [])
      ++ [BroadcastOn (uiMothership env) [Channels_repositionPopups env]].
Proof.
  intros Hfixed Hv Hr Hfc outer.
  assert (Hvis : eval isVisible w = true) by (cbn; rewrite Hv, Hr; reflexivity).
  unfold updateChromeUi.
  set (w1 := exec (updateChromeWidth cfg env) w).
  assert (H1 : exists maxWidth,
             effects w1 = effects w
                          ++ [CssSet (element container) "max-width" (Px maxWidth)]
             /\ floatContainer w1 = Some container).
  { subst w1. rewrite (updateChromeWidth_run w container Hfc).
    eexists. split; [reflexivity | exact Hfc]. }
  destruct H1 as (maxWidth & He1 & Hf1).
  set (w2 := exec (restoreAndGetCompleteOuterContainerWidth cfg env) w1).
  destruct (restore_log w1 Hfixed) as [He2 Hf2]. fold w2 in He2, Hf2.
  set (w3 := exec (when (isSplitToolbar cfg)
                        (log (RefreshToolbar (outerContainer env)))) w2).
  assert (H3 : effects w3 = effects w2
                 ++ (if isSplitToolbar cfg
                     then [RefreshToolbar (outerContainer env)] else [])
               /\ floatContainer w3 = floatContainer w2).
  { subst w3. destruct (isSplitToolbar cfg); cbn; [|rewrite app_nil_r]; auto. }
  destruct H3 as [He3 Hf3].
  set (opt := eval (restoreAndGetCompleteOuterContainerWidth cfg env) w1).
  set (w4 := exec (updateChromePosition cfg env opt) w3).
  assert (Hf3' : floatContainer w3 = Some container) by congruence.
  destruct (updateChromePosition_log opt w3 container Hf3')
    as (left & top & widthPart & Hwp & He4 & Hf4).
  fold w4 in He4, Hf4.
  exists maxWidth, left, top, widthPart. split; [exact Hwp|].
  apply new_effects_app.
  rewrite exec_bind. cbv beta. rewrite Hvis. cbn [negb].
  change (exec isVisible w) with w.
  rewrite !exec_bind. rewrite Hfixed. cbn [negb when].
  fold w1. fold w2. fold opt. fold w3. fold w4.
  unfold repositionPopups. destruct (isSticky cfg); cbn [when].
  - unfold floatContainer_on, exec at 2. rewrite Hf4.
    cbn. rewrite He4, He3, He2, He1. fold outer.
    rewrite <- !app_assoc. reflexivity.
  - cbn. rewrite He4, He3, He2, He1. fold outer.
    rewrite <- !app_assoc. reflexivity.
Qed.

(** *** Bounds on what the positioner writes *)

Lemma Math_max_ge_l (a b : Q) : a <= Math_max a b.
Proof.
  unfold Math_max. destruct (Qltb a b) eqn:E.
  - apply Qltb_lt in E. apply Qlt_le_weak, E.
  - apply Qle_refl.
Qed.

Lemma Math_max_ge_r (a b : Q) : b <= Math_max a b.
Proof.
  unfold Math_max. destruct (Qltb a b) eqn:E.
  - apply Qle_refl.
  - apply Qltb_ge in E. exact E.
Qed.

Lemma Math_round_nonneg (a : Q) : 0 <= a -> (0 <= Math_round a)%Z.
Proof.
  intros Ha. unfold Math_round.
  change 0%Z with (Qfloor 0). apply Qfloor_resp_le. lra.
Qed.

(** X9.  Whenever [updateChromePosition] writes a width on the outer
    container, a full width was measured, the target starts to the right of
    the window's inner width, and the width written is at least 150 and at
    most the larger of 150 and the measured full width; it never exceeds a
    measured width of 150 or more. *)
Theorem width_override_bounds (opt : option Q) (w : World) (v : Q) :
  In (CssSet (element (outerContainer env)) "width" (Px v))
     (new_effects (updateChromePosition cfg env opt) w) ->
  150 <= v /\
  window_innerWidth env w < Boxes.x (Boxes_box env w (targetElm env)) /\
  exists toolbarWidth,
    opt = Some toolbarWidth /\
    v <= Qmax 150 toolbarWidth /\
    (150 <= toolbarWidth -> v <= toolbarWidth).
Proof.
  intros Hin. destruct (floatContainer w) as [container|] eqn:Hfc.
  - pose proof (updateChromePosition_run cfg env opt w container Hfc) as Hrun.
    cbv zeta in Hrun.
    erewrite new_effects_app in Hin.
    2:{ rewrite Hrun, effects_Css_setAll. reflexivity. }
    rewrite widthProperties_eval in Hin. rewrite map_app in Hin.
    apply in_app_iff in Hin as [Hin | Hin].
    { cbn in Hin. destruct Hin as [H | [H | [H | []]]]; discriminate H. }
    destruct opt as [toolbarWidth|]; [|destruct Hin].
    destruct (Qgtb _ _) eqn:Egt; [|destruct Hin].
    cbn in Hin. destruct Hin as [Hin | []]. injection Hin as <-.
    split; [apply (Math_max_ge_l minimumToolbarWidth)|].
    split; [apply Qltb_lt, Egt|].
    exists toolbarWidth. split; [reflexivity|].
    assert (Hle : Math_max minimumToolbarWidth
                    (Math_min toolbarWidth
                       (window_innerWidth env w
                        - (Boxes.x (Boxes_box env w (targetElm env))
                           - Scroll_get_left env w)))
                  <= Qmax 150 toolbarWidth).
    { rewrite Math_max_Qmax, Math_min_Qmin.
      apply Q.max_le_compat_l. apply Q.le_min_l. }
    split; [exact Hle|].
    intros Htw. rewrite Q.max_r in Hle by exact Htw. exact Hle.
  - erewrite new_effects_app in Hin.
    2:{ unfold updateChromePosition, floatContainer_on, exec. rewrite Hfc.
        cbn. symmetry. apply app_nil_r. }
    destruct Hin.
Qed.

(** X10.  With the float container set and the stored mode [top], the
    [top] written on the outer container is a whole number of pixels that
    is never negative, however far up the target is. *)
Theorem top_position_never_negative (opt : option Q) (w : World)
    (container : AlloyComponent) :
  floatContainer w = Some container ->
  dockingMode w = mode_top ->
  exists z : Z,
    styles (exec (updateChromePosition cfg env opt) w)
      !! (element (outerContainer env), "top"%string) = Some (Px (inject_Z z)) /\
    (0 <= z)%Z.
Proof.
  intros Hfc Hmode.
  pose proof (updateChromePosition_run cfg env opt w container Hfc) as Hrun.
  cbv zeta in Hrun. rewrite Hmode in Hrun. rewrite Hrun, styles_Css_setAll.
  rewrite widthProperties_eval.
  eexists. split.
  - destruct opt as [tw|]; [destruct (Qgtb _ _)|]; cbn; simplify_map_eq; reflexivity.
  - apply Math_round_nonneg. apply Math_max_ge_r.
Qed.

End Pass.


Lemma restore_measures_after_reset_witness :
  styles (exec (restoreAndGetCompleteOuterContainerWidth
                  (Demo.config loc_auto tm_sliding) Demo.roomy_page)
               (Demo.world true mode_top))
    !! (2%nat, "position"%string) = Some (Keyword "absolute").
Proof.
  exact (proj1 (proj1 (restore_measures_after_reset
                         (Demo.config loc_auto tm_sliding) Demo.roomy_page
                         (Demo.world true mode_top)) eq_refl)).
Defined.

Lemma updateChromeUi_fixed_container_witness :
  styles (exec (updateChromeUi (mkConfig true true None tm_sliding loc_auto)
                  Demo.roomy_page false) (Demo.world true mode_top)) =
  styles (Demo.world true mode_top).
Proof.
  exact (proj1 (updateChromeUi_fixed_container
                  (mkConfig true true None tm_sliding loc_auto)
                  Demo.roomy_page false (Demo.world true mode_top)
                  eq_refl eq_refl eq_refl)).
Defined.

Lemma show_runs_one_pass_witness :
  count is_broadcast
    (new_effects (show (Demo.config loc_auto tm_sliding) Demo.roomy_page)
                 (Demo.world false mode_bottom)) = 1%nat.
Proof.
  exact (proj1 (proj2 (proj2 (show_runs_one_pass
                                (Demo.config loc_auto tm_sliding) Demo.roomy_page
                                (Demo.world false mode_bottom) eq_refl)))).
Defined.


Lemma updateMode_stores_resolved_mode_witness :
  dockingMode (exec (updateMode (Demo.config loc_auto tm_sliding) Demo.roomy_page true)
                    (Demo.world true mode_bottom)) = mode_top.
Proof.
  exact (proj1 (updateMode_stores_resolved_mode
                  (Demo.config loc_auto tm_sliding) Demo.roomy_page true
                  (Demo.world true mode_bottom) Demo.container
                  eq_refl eq_refl eq_refl eq_refl eq_refl)).
Defined.

Lemma updateChromeUi_call_sequence_witness :
  exists maxWidth left top widthPart,
    new_effects (updateChromeUi (Demo.config loc_auto tm_default) Demo.roomy_page
                   false) (Demo.world true mode_top) =
    [CssSet 7%nat "max-width" (Px maxWidth);
     CssSet 2%nat "position" (Keyword "absolute");
     CssSet 2%nat "left" (Px 0);
     CssRemove 2%nat "width"]
    ++ []
    ++ [CssSet 2%nat "position" (Keyword "absolute");
        CssSet 2%nat "left" (Px (inject_Z left));
        CssSet 2%nat "top" (Px (inject_Z top))]
    ++ widthPart
    ++ [DockingRefresh Demo.container]
    ++ [BroadcastOn 3%nat ["reposition.popups"%string]].
Proof.
  destruct (updateChromeUi_call_sequence (Demo.config loc_auto tm_default)
              Demo.roomy_page false (Demo.world true mode_top) Demo.container
              eq_refl eq_refl eq_refl eq_refl)
    as (maxWidth & left & top & widthPart & _ & H).
  exists maxWidth, left, top, widthPart. exact H.
Defined.

Lemma width_override_bounds_witness :
  150 <= 150.
Proof.
  refine (proj1 (width_override_bounds (Demo.config loc_auto tm_sliding)
                   (Demo.wide_page 250) (Some 400) (Demo.world true mode_top)
                   150 _)).
  vm_compute. right. right. right. left. reflexivity.
Defined.

Lemma top_position_never_negative_witness :
  exists z : Z,
    styles (exec (updateChromePosition (Demo.config loc_auto tm_sliding)
                    Demo.roomy_page None) (Demo.world true mode_top))
      !! (2%nat, "top"%string) = Some (Px (inject_Z z)) /\
    (0 <= z)%Z.
Proof.
  exact (top_position_never_negative (Demo.config loc_auto tm_sliding)
           Demo.roomy_page None (Demo.world true mode_top) Demo.container
           eq_refl eq_refl).
Defined.

End InlineHeaderMore.

(** ** DomMovement: commit and consumption *)

Module DomMovementMore.

Import DomMovement DomMovementSpec.

Section Commit.

Variable SimulatedEvent : Type.
Variable getDirection : Element -> TextDirection.
Variable Focus_search : Element -> option Element.

Local Abbreviation handler_of :=
  (handler_of SimulatedEvent getDirection Focus_search).
Local Abbreviation movement_of := (movement_of getDirection).
Local Abbreviation focused_of := (focused_of Focus_search).

(** X11.  For the handler of any of the four entry points: when a focused
    descendant is found and the movement function produces a target, the
    handler reports the event consumed and, after the movement function has
    run, logs exactly one commit of that target: [set] on the focus manager
    when one is configured, the focus transfer of the component system on
    the component's element otherwise. *)
Theorem target_is_committed_once (entry : Entry) (component : Component)
    (ev : SimulatedEvent) (info : Info) (t : list Effect)
    (focused newFocus : Element) :
  focused_of component info = Some focused ->
  let t1 := t ++ getFocused_logs component info in
  let move := movement_of entry component in
  eval (move (element component) focused info) t1 = Some newFocus ->
  eval (handler_of entry component ev info) t = Some true /\
  exec (handler_of entry component ev info) t =
    exec (move (element component) focused info) t1
    ++ [match focusManager info with
        | None => TriggerFocus newFocus (element component)
        | Some manager => ManagerSet (manager_id manager) component newFocus
        end].
Proof.
  intros Hfocused t1 move Hmove.
  rewrite handler_of_use. unfold eval, exec in *. rewrite use_run. cbv zeta.
  rewrite Hfocused. fold t1. fold move.
  destruct (move (element component) focused info t1) as [[target|] t2];
    cbn in Hmove; [|discriminate].
  injection Hmove as ->. split; reflexivity.
Qed.

(** X12.  A handler never reports [false]: its outcome is either empty or
    [true], and it is [true] exactly when a focused descendant was found
    and the movement function produced a target. *)
Theorem consumed_iff_target (entry : Entry) (component : Component)
    (ev : SimulatedEvent) (info : Info) (t : list Effect) :
  eval (handler_of entry component ev info) t <> Some false /\
  (eval (handler_of entry component ev info) t = Some true <->
   exists focused newFocus,
     focused_of component info = Some focused /\
     eval (movement_of entry component (element component) focused info)
          (t ++ getFocused_logs component info) = Some newFocus).
Proof.
  rewrite handler_of_use. unfold eval. rewrite use_run. cbv zeta.
  destruct (focused_of component info) as [focused|].
  - destruct (movement_of entry component (element component) focused info
                (t ++ getFocused_logs component info)) as [[target|] t2] eqn:E.
    + split; [discriminate|]. split; [|reflexivity].
      intros _. exists focused, target. rewrite E. auto.
    + split; [discriminate|]. split; [discriminate|].
      intros (f & n & [= <-] & Hn). rewrite E in Hn. discriminate.
  - split; [discriminate|]. split; [discriminate|].
    intros (f & n & Hf & _). discriminate.
Qed.

End Commit.

(** X13.  When a focus manager is configured the generic search for the
    focused descendant plays no part: the handler computes the same outcome
    and the same log whatever the search would answer, so a manager that
    reports no focus is not backed up by the search. *)
Theorem manager_replaces_search (SimulatedEvent : Type)
    (getDirection : Element -> TextDirection)
    (search1 search2 : Element -> option Element)
    (entry : Entry) (component : Component) (ev : SimulatedEvent)
    (info : Info) (manager : FocusManager) (t : list Effect) :
  focusManager info = Some manager ->
  handler_of SimulatedEvent getDirection search1 entry component ev info t =
  handler_of SimulatedEvent getDirection search2 entry component ev info t /\
  (get manager component = None ->
   eval (handler_of SimulatedEvent getDirection search1 entry component ev info) t
   = None).
Proof.
  intros Hm. rewrite !handler_of_use. rewrite !use_run. cbv zeta.
  unfold focused_of, getFocused_logs. rewrite Hm. split; [reflexivity|].
  intros Hnone. unfold eval. rewrite use_run. cbv zeta.
  unfold focused_of. rewrite Hm, Hnone. reflexivity.
Qed.

Lemma target_is_committed_once_witness :
  exec (handler_of unit (fun _ => ltr) (fun _ => Some 5%nat)
          (East (mark "left") (fun _ _ _ => ret (Some 9%nat)))
          (mkComponent 1%nat "menu") tt (mkInfo None)) [] =
  [ConsoleLog [LogString "getFocused"; LogString "menu"];
   ConsoleLog [LogString "no focus manager"];
   TriggerFocus 9%nat 1%nat].
Proof.
  exact (proj2 (target_is_committed_once unit (fun _ => ltr) (fun _ => Some 5%nat)
                  (East (mark "left") (fun _ _ _ => ret (Some 9%nat)))
                  (mkComponent 1%nat "menu") tt (mkInfo None) [] 5%nat 9%nat
                  eq_refl eq_refl)).
Defined.

Lemma consumed_iff_target_witness :
  eval (handler_of unit (fun _ => ltr) (fun _ => Some 5%nat)
          (East (mark "left") (fun _ _ _ => ret (Some 9%nat)))
          (mkComponent 1%nat "menu") tt (mkInfo None)) [] = Some true.
Proof.
  apply (proj2 (proj2 (consumed_iff_target unit (fun _ => ltr)
                         (fun _ => Some 5%nat)
                         (East (mark "left") (fun _ _ _ => ret (Some 9%nat)))
                         (mkComponent 1%nat "menu") tt (mkInfo None) []))).
  exists 5%nat, 9%nat. split; reflexivity.
Defined.

Lemma manager_replaces_search_witness :
  eval (handler_of unit (fun _ => ltr) (fun _ => Some 5%nat)
          (North (fun _ _ _ => ret (Some 9%nat)))
          (mkComponent 1%nat "menu") tt
          (mkInfo (Some (mkFocusManager 0 (fun _ => None))))) [] = None.
Proof.
  exact (proj2 (manager_replaces_search unit (fun _ => ltr)
                  (fun _ => Some 5%nat) (fun _ => None)
                  (North (fun _ _ _ => ret (Some 9%nat)))
                  (mkComponent 1%nat "menu") tt
                  (mkInfo (Some (mkFocusManager 0 (fun _ => None))))
                  (mkFocusManager 0 (fun _ => None)) [] eq_refl) eq_refl).
Defined.

End DomMovementMore.

(** ** Selector-changed notification: registrations, arrays and calls *)

Module SelectorChangedMore.

Import SelectorChanged SelectorChangedSpec.

(** *** The heap of arrays *)

Lemma read_app_l (h l : Heap) (r : ArrayRef) :
  (r < length h)%nat -> read (h ++ l) r = read h r.
Proof.
  intros Hr. unfold read, Heap in *. rewrite lookup_app_l by exact Hr. reflexivity.
Qed.

Lemma read_alloc (h : Heap) (l : list Callback) : read (h ++ [l]) (length h) = l.
Proof.
  unfold read, Heap in *. rewrite list_lookup_middle by reflexivity. reflexivity.
Qed.

Lemma read_push_eq (h : Heap) (r : ArrayRef) (cb : Callback) :
  (r < length h)%nat -> read (push r cb h) r = read h r ++ [cb].
Proof.
  intros Hr. unfold read, push, Heap, ArrayRef in *.
  rewrite list_lookup_alter_eq.
  destruct (lookup_lt_is_Some_2 h r Hr) as [l Hl]. rewrite !Hl. reflexivity.
Qed.

Lemma read_push_ne (h : Heap) (r r' : ArrayRef) (cb : Callback) :
  r <> r' -> read (push r cb h) r' = read h r'.
Proof.
  intros Hne. unfold read, push, Heap in *.
  rewrite list_lookup_alter_ne by exact Hne.
  reflexivity.
Qed.

Lemma length_push (h : Heap) (r : ArrayRef) (cb : Callback) :
  length (push r cb h) = length h.
Proof. unfold push, Heap in *. apply length_alter. Qed.

Lemma read_push_incl (h : Heap) (r r' : ArrayRef) (cb : Callback) :
  incl (read h r') (read (push r cb h) r').
Proof.
  destruct (decide (r = r')) as [-> | Hne].
  - destruct (decide (r' < length h)%nat) as [Hlt | Hge].
    + rewrite read_push_eq by exact Hlt. apply incl_appl, incl_refl.
    + unfold read at 1. unfold Heap in *. rewrite lookup_ge_None_2 by lia.
      intros x [].
  - rewrite read_push_ne by exact Hne. apply incl_refl.
Qed.

(** *** What the three operations do to the objects and the heap *)

Lemma deleteFromCallbackMap_eq (o : Obj ArrayRef) (sel : string) (cb : Callback)
    (h : Heap) :
  deleteFromCallbackMap o sel cb h =
  match Obj_get o sel with
  | Some r =>
      let l := List.filter (fun x => negb (Nat.eqb x cb)) (read h r) in
      (if Nat.eqb (length l) 0 then Obj_delete sel o else Obj_set sel (length h) o,
       h ++ [l])
  | None => (o, h)
  end.
Proof.
  unfold deleteFromCallbackMap. destruct (Obj_get o sel); [|reflexivity].
  cbn. destruct (Nat.eqb _ 0); reflexivity.
Qed.

Lemma deleteFromCallbackMap_spec (o : Obj ArrayRef) (sel : string) (cb : Callback)
    (h : Heap) :
  let o' := fst (deleteFromCallbackMap o sel cb h) in
  let h' := snd (deleteFromCallbackMap o sel cb h) in
  (length h <= length h')%nat /\
  (forall r, (r < length h)%nat -> read h' r = read h r) /\
  (forall k, k <> sel -> Obj_get o' k = Obj_get o k) /\
  (Obj_get o sel = None -> o' = o /\ h' = h) /\
  (forall r, Obj_get o sel = Some r ->
             let l := List.filter (fun x => negb (Nat.eqb x cb)) (read h r) in
             h' = h ++ [l] /\
             (l = [] -> Obj_get o' sel = None) /\
             (l <> [] -> Obj_get o' sel = Some (length h))).
Proof.
  intros o' h'. subst o' h'. rewrite deleteFromCallbackMap_eq.
  destruct (Obj_get o sel) as [r0|] eqn:Eget; cbn [fst snd].
  - cbv zeta. set (l := List.filter (fun x => negb (Nat.eqb x cb)) (read h r0)).
    split; [rewrite length_app; lia|].
    split; [intros r Hr; apply read_app_l, Hr|].
    split.
    { intros k Hk. destruct (Nat.eqb (length l) 0).
      - rewrite Obj_get_delete. rewrite bool_decide_eq_false_2 by congruence.
        reflexivity.
      - rewrite Obj_get_set. rewrite bool_decide_eq_false_2 by congruence.
        reflexivity. }
    split; [discriminate|].
    intros r [= <-]. cbv zeta. fold l. split; [reflexivity|]. split.
    + intros Hl. rewrite Hl. cbn [length Nat.eqb]. rewrite Obj_get_delete.
      rewrite bool_decide_eq_true_2 by reflexivity. reflexivity.
    + intros Hl. destruct l as [|x l'] eqn:El; [congruence|].
      cbn [length Nat.eqb]. rewrite Obj_get_set. rewrite bool_decide_eq_true_2 by reflexivity.
      reflexivity.
  - split; [lia|]. split; [reflexivity|]. split; [reflexivity|].
    split; [auto|]. discriminate.
Qed.

Section Reachable.

Variable dom_is : Node -> string -> bool.
Variable getParents : Node -> list Node.

Local Abbreviation findMatchingNode := (findMatchingNode dom_is).
Local Abbreviation checkNew := (checkNew dom_is).
Local Abbreviation nodeChange := (nodeChange dom_is getParents).
Local Abbreviation selectorChangedWithUnbind :=
  (selectorChangedWithUnbind dom_is getParents).
Local Abbreviation matches := (matches dom_is getParents).
Local Abbreviation step := (step dom_is getParents).
Local Abbreviation run := (run dom_is getParents).

(** A registration: the array [rs] the callback is pushed on is the one
    [selectorChangedData] holds for the selector, a fresh one when the
    selector is new. *)
Lemma register_shape (sel : string) (cb : Callback) (start : Node) (st : State) :
  refs_valid st ->
  let m0 := match maps st with Some m => m | None => mkMaps [] [] end in
  let data0 := selectorChangedData m0 in
  let cur0 := currentSelectors m0 in
  exists rs h',
    selectorChangedWithUnbind sel cb start st =
      mkState h'
        (Some (mkMaps (if Obj_has data0 sel then data0 else Obj_set sel rs data0)
                      (match findMatchingNode sel (getParents start) with
                       | Some _ => Obj_set sel rs cur0
                       | None => cur0
                       end)))
        (calls st) /\
    (if Obj_has data0 sel then Obj_get data0 sel = Some rs
     else rs = length (heap st)) /\
    (rs < length h')%nat /\
    (length (heap st) <= length h')%nat /\
    (forall r, r <> rs -> (r < length (heap st))%nat ->
               read h' r = read (heap st) r) /\
    read h' rs = (if Obj_has data0 sel then read (heap st) rs else []) ++ [cb].
Proof.
  intros Hvalid m0 data0 cur0.
  assert (Hv0 : forall r, Obj_get data0 sel = Some r -> (r < length (heap st))%nat).
  { subst data0 m0. destruct (maps st) as [m|] eqn:Hm.
    - intros r Hr. apply (proj1 (Hvalid m Hm) sel r Hr).
    - cbn. discriminate. }
  assert (Hrun : selectorChangedWithUnbind sel cb start st =
                 let p : Obj ArrayRef * Heap :=
                   if negb (Obj_has data0 sel)
                   then (Obj_set sel (length (heap st)) data0, heap st ++ [[]])
                   else (data0, heap st) in
                 mkState
                   (match Obj_get (fst p) sel with
                    | Some r => push r cb (snd p)
                    | None => snd p
                    end)
                   (Some (mkMaps (fst p)
                            (match findMatchingNode sel (getParents start) with
                             | Some _ =>
                                 match Obj_get (fst p) sel with
                                 | Some r => Obj_set sel r cur0
                                 | None => cur0
                                 end
                             | None => cur0
                             end)))
                   (calls st)).
  { subst data0 cur0 m0.
    unfold SelectorChanged.selectorChangedWithUnbind, setup, alloc.
    destruct (maps st) as [m|] eqn:Hm; cbn [maps heap calls].
    - rewrite Hm. destruct (Obj_has (selectorChangedData m) sel); reflexivity.
    - reflexivity. }
  rewrite Hrun. clear Hrun. cbv zeta.
  destruct (Obj_has data0 sel) eqn:Ehas; cbn [negb fst snd].
  - apply Obj_has_get in Ehas as [rs Hrs]. rewrite Hrs.
    pose proof (Hv0 rs Hrs) as Hlt.
    exists rs, (push rs cb (heap st)).
    split; [reflexivity|]. split; [reflexivity|].
    split; [rewrite length_push; exact Hlt|].
    split; [rewrite length_push; lia|].
    split; [intros r Hne _; apply read_push_ne; congruence|].
    apply read_push_eq, Hlt.
  - rewrite Obj_get_set. rewrite bool_decide_eq_true_2 by reflexivity.
    exists (length (heap st)), (push (length (heap st)) cb (heap st ++ [[]])).
    split; [reflexivity|]. split; [reflexivity|].
    split; [rewrite length_push, length_app; cbn; lia|].
    split; [rewrite length_push, length_app; lia|].
    split.
    + intros r Hne Hlt. rewrite read_push_ne by congruence. apply read_app_l, Hlt.
    + rewrite read_push_eq by (rewrite length_app; cbn; lia).
      rewrite read_alloc. reflexivity.
Qed.

(** *** The invariants of the reachable states *)

(** The invariants, spelled out for the two objects of a state that may
    not have run [setup] yet. *)
Lemma well_formed_maps (st : State) :
  well_formed st ->
  let m0 := match maps st with Some m => m | None => mkMaps [] [] end in
  (forall k r, Obj_get (selectorChangedData m0) k = Some r ->
               (r < length (heap st))%nat) /\
  (forall k r, Obj_get (currentSelectors m0) k = Some r ->
               (r < length (heap st))%nat) /\
  (forall k1 k2 r, Obj_get (selectorChangedData m0) k1 = Some r ->
                   Obj_get (selectorChangedData m0) k2 = Some r -> k1 = k2) /\
  (forall k r, Obj_get (currentSelectors m0) k = Some r ->
     exists r', Obj_get (selectorChangedData m0) k = Some r' /\
                (r = r' \/
                 ((forall k2, Obj_get (selectorChangedData m0) k2 <> Some r) /\
                  incl (read (heap st) r) (read (heap st) r')))).
Proof.
  intros (_ & Hv & Hj & Hl) m0. subst m0.
  destruct (maps st) as [m|] eqn:Hm.
  - destruct (Hv m Hm) as [Hvd Hvc].
    split; [exact Hvd|]. split; [exact Hvc|].
    split; [exact (Hj m Hm) | exact (Hl m Hm)].
  - cbn. repeat split; discriminate.
Qed.

Lemma well_formed_register (sel : string) (cb : Callback) (start : Node)
    (st : State) :
  well_formed st -> well_formed (selectorChangedWithUnbind sel cb start st).
Proof.
  intros Hwf.
  assert (Hku : keys_unique (selectorChangedWithUnbind sel cb start st)).
  { apply (keys_unique_step dom_is getParents (Register sel cb start)), Hwf. }
  destruct (well_formed_maps st Hwf) as (Hvd & Hvc & Hj & Hl).
  destruct (register_shape sel cb start st (proj1 (proj2 Hwf)))
    as (rs & h' & Hrun & Hrs & Hlt & Hlen & Hread & Hreadrs).
  cbv zeta in *.
  set (m0 := match maps st with Some m => m | None => mkMaps [] [] end) in *.
  set (data0 := selectorChangedData m0) in *.
  set (cur0 := currentSelectors m0) in *.
  set (data' := if Obj_has data0 sel then data0 else Obj_set sel rs data0) in *.
  set (cur' := match findMatchingNode sel (getParents start) with
               | Some _ => Obj_set sel rs cur0
               | None => cur0
               end) in *.
  (* the entry of the selector, and the other entries, after the call *)
  assert (Hdsel : Obj_get data' sel = Some rs).
  { subst data'. destruct (Obj_has data0 sel); [exact Hrs|].
    rewrite Obj_get_set. rewrite bool_decide_eq_true_2 by reflexivity.
    reflexivity. }
  assert (Hdold : forall k r, Obj_get data0 k = Some r -> Obj_get data' k = Some r).
  { intros k r Hk. subst data'. destruct (Obj_has data0 sel) eqn:Ehas; [exact Hk|].
    rewrite Obj_get_set. rewrite bool_decide_eq_false_2; [exact Hk|].
    intros ->. unfold Obj_has in Ehas. rewrite Hk in Ehas. discriminate. }
  assert (Hdnew : forall k r, Obj_get data' k = Some r ->
                              Obj_get data0 k = Some r \/
                              (k = sel /\ r = rs /\ Obj_has data0 sel = false)).
  { intros k r Hk. subst data'. destruct (Obj_has data0 sel) eqn:Ehas; [auto|].
    rewrite Obj_get_set in Hk. destruct (decide (sel = k)) as [<- | Hne].
    - rewrite bool_decide_eq_true_2 in Hk by reflexivity. right. split; [reflexivity|].
      split; congruence.
    - rewrite bool_decide_eq_false_2 in Hk by assumption. auto. }
  assert (Hcnew : forall k r, Obj_get cur' k = Some r ->
                              Obj_get cur0 k = Some r \/ (k = sel /\ r = rs)).
  { intros k r Hk. subst cur'.
    destruct (findMatchingNode sel (getParents start)); [|auto].
    rewrite Obj_get_set in Hk. destruct (decide (sel = k)) as [<- | Hne].
    - rewrite bool_decide_eq_true_2 in Hk by reflexivity. right. split; congruence.
    - rewrite bool_decide_eq_false_2 in Hk by assumption. auto. }
  assert (Hfresh : Obj_has data0 sel = false -> rs = length (heap st)).
  { intros E. rewrite E in Hrs. exact Hrs. }
  split; [exact Hku|]. rewrite Hrun.
  split; [|split].
  - intros m' [= <-]. cbn [heap selectorChangedData currentSelectors]. split.
    + intros k r Hk. destruct (Hdnew k r Hk) as [H | (_ & -> & _)]; [|exact Hlt].
      specialize (Hvd k r H). lia.
    + intros k r Hk. destruct (Hcnew k r Hk) as [H | (_ & ->)]; [|exact Hlt].
      specialize (Hvc k r H). lia.
  - intros m' [= <-]. cbn [selectorChangedData]. intros k1 k2 r H1 H2.
    destruct (Hdnew k1 r H1) as [H1' | (E1 & E1' & E1'')];
      destruct (Hdnew k2 r H2) as [H2' | (E2 & E2' & E2'')].
    + exact (Hj k1 k2 r H1' H2').
    + rewrite E2', (Hfresh E2'') in H1'. specialize (Hvd k1 _ H1'). lia.
    + rewrite E1', (Hfresh E1'') in H2'. specialize (Hvd k2 _ H2'). lia.
    + congruence.
  - intros m' [= <-]. cbn [heap selectorChangedData currentSelectors].
    intros k r Hk. destruct (Hcnew k r Hk) as [H | (-> & ->)].
    2:{ exists rs. split; [exact Hdsel | left; reflexivity]. }
    destruct (Hl k r H) as (r' & Hr' & Hrel).
    exists r'. split; [apply Hdold, Hr'|].
    destruct Hrel as [-> | [Hnot Hincl]]; [left; reflexivity|]. right.
    assert (Hrne : r <> rs).
    { intros ->. destruct (Obj_has data0 sel) eqn:Ehas.
      - exact (Hnot sel Hrs).
      - specialize (Hvc k _ H). lia. }
    split.
    + intros k2 Hk2. destruct (Hdnew k2 r Hk2) as [H2 | (_ & -> & _)].
      * exact (Hnot k2 H2).
      * congruence.
    + rewrite (Hread r Hrne (Hvc k r H)).
      destruct (decide (r' = rs)) as [-> | Hne'].
      * rewrite Hreadrs. destruct (Obj_has data0 sel) eqn:Ehas.
        -- apply incl_appl. exact Hincl.
        -- specialize (Hvd k _ Hr'). lia.
      * rewrite (Hread r' Hne' (Hvd k r' Hr')). exact Hincl.
Qed.

Lemma unbind_eq (sel : string) (cb : Callback) (st : State) (m : Maps) :
  maps st = Some m ->
  unbind sel cb st =
  mkState
    (snd (deleteFromCallbackMap (currentSelectors m) sel cb
            (snd (deleteFromCallbackMap (selectorChangedData m) sel cb (heap st)))))
    (Some (mkMaps
             (fst (deleteFromCallbackMap (selectorChangedData m) sel cb (heap st)))
             (fst (deleteFromCallbackMap (currentSelectors m) sel cb
                     (snd (deleteFromCallbackMap (selectorChangedData m) sel cb
                             (heap st)))))))
    (calls st).
Proof.
  intros Hm. unfold unbind. rewrite Hm.
  destruct (deleteFromCallbackMap (selectorChangedData m) sel cb (heap st))
    as [data h1].
  cbn [fst snd].
  destruct (deleteFromCallbackMap (currentSelectors m) sel cb h1) as [cur h2].
  reflexivity.
Qed.

(** The entry [deleteFromCallbackMap] leaves for the selector, if any, is a
    fresh array holding the callbacks that remain. *)
Lemma deleteFromCallbackMap_entry (o : Obj ArrayRef) (sel : string) (cb : Callback)
    (h : Heap) (r : ArrayRef) :
  Obj_get (fst (deleteFromCallbackMap o sel cb h)) sel = Some r ->
  exists r0,
    Obj_get o sel = Some r0 /\
    List.filter (fun x => negb (Nat.eqb x cb)) (read h r0) <> [] /\
    r = length h /\
    snd (deleteFromCallbackMap o sel cb h) =
      h ++ [List.filter (fun x => negb (Nat.eqb x cb)) (read h r0)].
Proof.
  intros Hget.
  destruct (deleteFromCallbackMap_spec o sel cb h) as (_ & _ & _ & Hnone & Hsome).
  cbv zeta in *.
  destruct (Obj_get o sel) as [r0|] eqn:E0.
  - destruct (Hsome r0 eq_refl) as (Hh & Hempty & Hfull).
    exists r0. split; [reflexivity|].
    destruct (List.filter (fun x => negb (Nat.eqb x cb)) (read h r0)) as [|x l] eqn:El.
    + rewrite Hempty in Hget by reflexivity. discriminate.
    + rewrite Hfull in Hget by discriminate. injection Hget as <-.
      split; [discriminate|]. split; [reflexivity | exact Hh].
  - destruct (Hnone eq_refl) as [Ho _]. rewrite Ho in Hget. congruence.
Qed.

Lemma incl_filter (f : Callback -> bool) (l1 l2 : list Callback) :
  incl l1 l2 -> incl (List.filter f l1) (List.filter f l2).
Proof.
  intros H x Hx. apply List.filter_In in Hx as [Hin Hf].
  apply List.filter_In. split; [apply H, Hin | exact Hf].
Qed.

Lemma well_formed_unbind (sel : string) (cb : Callback) (st : State) :
  well_formed st -> well_formed (unbind sel cb st).
Proof.
  intros Hwf.
  assert (Hku : keys_unique (unbind sel cb st)).
  { apply (keys_unique_step dom_is getParents (Unbind sel cb)), Hwf. }
  destruct (maps st) as [m|] eqn:Hm.
  2:{ unfold unbind. rewrite Hm. exact Hwf. }
  destruct Hwf as (_ & Hv & Hj & Hl).
  destruct (Hv m Hm) as [Hvd Hvc]. specialize (Hj m Hm). specialize (Hl m Hm).
  split; [exact Hku|]. rewrite (unbind_eq sel cb st m Hm).
  set (data0 := selectorChangedData m) in *.
  set (cur0 := currentSelectors m) in *.
  set (h := heap st) in *.
  destruct (deleteFromCallbackMap_spec data0 sel cb h)
    as (Hlen1 & Hread1 & Hdne & _ & _).
  pose proof (deleteFromCallbackMap_entry data0 sel cb h) as Hdsel.
  cbv zeta in *.
  set (data' := fst (deleteFromCallbackMap data0 sel cb h)) in *.
  set (h1 := snd (deleteFromCallbackMap data0 sel cb h)) in *.
  destruct (deleteFromCallbackMap_spec cur0 sel cb h1)
    as (Hlen2 & Hread2 & Hcne & _ & _).
  pose proof (deleteFromCallbackMap_entry cur0 sel cb h1) as Hcsel.
  cbv zeta in *.
  set (cur' := fst (deleteFromCallbackMap cur0 sel cb h1)) in *.
  set (h2 := snd (deleteFromCallbackMap cur0 sel cb h1)) in *.
  (* entries of the new objects *)
  assert (Hdent : forall k r, Obj_get data' k = Some r ->
            (k <> sel /\ Obj_get data0 k = Some r) \/
            (k = sel /\ r = length h /\ (length h < length h1)%nat)).
  { intros k r Hk. destruct (decide (k = sel)) as [-> | Hne].
    - right. destruct (Hdsel r Hk) as (r0 & _ & _ & -> & Hh1).
      split; [reflexivity|]. split; [reflexivity|].
      rewrite Hh1, length_app. cbn. lia.
    - left. rewrite Hdne in Hk by exact Hne. auto. }
  assert (Hcent : forall k r, Obj_get cur' k = Some r ->
            (k <> sel /\ Obj_get cur0 k = Some r) \/
            (k = sel /\ r = length h1 /\ (length h1 < length h2)%nat)).
  { intros k r Hk. destruct (decide (k = sel)) as [-> | Hne].
    - right. destruct (Hcsel r Hk) as (r0 & _ & _ & -> & Hh2).
      split; [reflexivity|]. split; [reflexivity|].
      rewrite Hh2, length_app. cbn. lia.
    - left. rewrite Hcne in Hk by exact Hne. auto. }
  split; [|split].
  - intros m' [= <-]. cbn [heap selectorChangedData currentSelectors]. split.
    + intros k r Hk. destruct (Hdent k r Hk) as [[_ H] | (_ & -> & Hlt)].
      * specialize (Hvd k r H). lia.
      * lia.
    + intros k r Hk. destruct (Hcent k r Hk) as [[_ H] | (_ & -> & Hlt)].
      * specialize (Hvc k r H). lia.
      * lia.
  - intros m' [= <-]. cbn [selectorChangedData]. intros k1 k2 r H1 H2.
    destruct (Hdent k1 r H1) as [[N1 H1'] | (E1 & E1' & _)];
      destruct (Hdent k2 r H2) as [[N2 H2'] | (E2 & E2' & _)].
    + exact (Hj k1 k2 r H1' H2').
    + specialize (Hvd k1 r H1'). lia.
    + specialize (Hvd k2 r H2'). lia.
    + congruence.
  - intros m' [= <-]. cbn [heap selectorChangedData currentSelectors].
    intros k r Hk. destruct (Hcent k r Hk) as [[Hne H] | (-> & Er & Hlt)].
    + destruct (Hl k r H) as (r' & Hr' & Hrel).
      exists r'. split; [rewrite Hdne by exact Hne; exact Hr'|].
      destruct Hrel as [-> | [Hnot Hincl]]; [left; reflexivity|]. right. split.
      * intros k2 Hk2. destruct (Hdent k2 r Hk2) as [[_ H2] | (_ & E & _)].
        -- exact (Hnot k2 H2).
        -- specialize (Hvc k r H). lia.
      * pose proof (Hvc k r H) as Hr. pose proof (Hvd k r' Hr') as Hr''.
        rewrite (Hread2 r) by lia. rewrite (Hread1 r) by lia.
        rewrite (Hread2 r') by lia. rewrite (Hread1 r') by lia.
        exact Hincl.
    + destruct (Hcsel r Hk) as (rc & Hrc & Hfull & _ & Hh2).
      destruct (Hl sel rc Hrc) as (rd & Hrd & Hrel).
      assert (Hincl : incl (read h rc) (read h rd)).
      { destruct Hrel as [-> | [_ H]]; [apply incl_refl | exact H]. }
      pose proof (Hvc sel rc Hrc) as Hrcv.
      rewrite (Hread1 rc Hrcv) in Hfull, Hh2.
      destruct (deleteFromCallbackMap_spec data0 sel cb h)
        as (_ & _ & _ & _ & Hsome).
      destruct (Hsome rd Hrd) as (Hh1 & _ & Hdfull). fold data' h1 in Hh1, Hdfull.
      assert (Hne1 : List.filter (fun x => negb (Nat.eqb x cb)) (read h rd) <> []).
      { intros Hnil.
        destruct (List.filter (fun x => negb (Nat.eqb x cb)) (read h rc))
          as [|x l] eqn:El; [congruence|].
        assert (Hx : In x (List.filter (fun x => negb (Nat.eqb x cb)) (read h rd))).
        { apply (incl_filter (fun x => negb (Nat.eqb x cb)) _ _ Hincl).
          change (In x (List.filter (fun x => negb (Nat.eqb x cb)) (read h rc))).
          rewrite El. left. reflexivity. }
        rewrite Hnil in Hx. destruct Hx. }
      exists (length h). split; [apply Hdfull, Hne1|]. right.
      assert (Hl1 : length h1 = S (length h)).
      { rewrite Hh1, length_app. cbn. lia. }
      split.
      * intros k2 Hk2. destruct (Hdent k2 r Hk2) as [[_ H2] | (_ & E & _)].
        -- specialize (Hvd k2 r H2). lia.
        -- lia.
      * rewrite Er. rewrite Hh2. rewrite read_alloc.
        rewrite read_app_l by lia. rewrite Hh1, read_alloc.
        apply incl_filter, Hincl.
Qed.

Lemma nodeChange_entries (e : Node) (st : State) (m m' : Maps) :
  maps st = Some m ->
  keys_unique st ->
  maps (nodeChange e st) = Some m' ->
  heap (nodeChange e st) = heap st /\
  selectorChangedData m' = selectorChangedData m /\
  forall k r, Obj_get (currentSelectors m') k = Some r ->
              Obj_get (currentSelectors m) k = Some r \/
              Obj_get (selectorChangedData m) k = Some r.
Proof.
  intros Hm Hu Hm'.
  pose proof (nodeChange_run dom_is getParents e st m Hm) as Hrun.
  cbv zeta in Hrun. rewrite Hrun in Hm' |- *. cbn [maps heap] in *.
  injection Hm' as <-. cbn [selectorChangedData currentSelectors].
  split; [reflexivity|]. split; [reflexivity|].
  destruct (Hu m Hm) as [Hd Hc].
  destruct (checkNew_fold_nil dom_is (heap st) (getParents e)
              (selectorChangedData m) (currentSelectors m) (calls st))
    as (_ & _ & _ & Hin & _ & _).
  intros k r Hk.
  pose proof (Obj_get_filter
                (fun x => Obj_has (snd (fst (fold_left
                   (checkNew (heap st) (getParents e)) (selectorChangedData m)
                   (currentSelectors m, [], calls st)))) x)
                (fst (fst (fold_left
                   (checkNew (heap st) (getParents e)) (selectorChangedData m)
                   (currentSelectors m, [], calls st)))) k) as Hf.
  cbv beta in Hf. rewrite Hf in Hk. clear Hf.
  destruct (Obj_has _ k); [|discriminate].
  apply Obj_get_In in Hk. destruct (Hin k r Hk) as [H | [H _]].
  - left. apply In_Obj_get; assumption.
  - right. apply In_Obj_get; assumption.
Qed.

Lemma well_formed_nodeChange (e : Node) (st : State) :
  well_formed st -> well_formed (nodeChange e st).
Proof.
  intros Hwf.
  assert (Hku : keys_unique (nodeChange e st)).
  { apply (keys_unique_step dom_is getParents (NodeChange e)), Hwf. }
  destruct (maps st) as [m|] eqn:Hm.
  2:{ unfold SelectorChanged.nodeChange. rewrite Hm. exact Hwf. }
  destruct Hwf as (Hu & Hv & Hj & Hl).
  destruct (Hv m Hm) as [Hvd Hvc]. specialize (Hj m Hm). specialize (Hl m Hm).
  split; [exact Hku|]. split; [|split].
  - intros m' Hm'. destruct (nodeChange_entries e st m m' Hm Hu Hm')
      as (Hh & Hd & Hc).
    rewrite Hh, Hd. split; [exact Hvd|].
    intros k r Hk. destruct (Hc k r Hk) as [H | H]; eauto.
  - intros m' Hm'. destruct (nodeChange_entries e st m m' Hm Hu Hm')
      as (_ & Hd & _).
    rewrite Hd. exact Hj.
  - intros m' Hm'. destruct (nodeChange_entries e st m m' Hm Hu Hm')
      as (Hh & Hd & Hc).
    rewrite Hh, Hd. intros k r Hk. destruct (Hc k r Hk) as [H | H].
    + exact (Hl k r H).
    + exists r. auto.
Qed.

Lemma well_formed_initial : well_formed initial.
Proof.
  unfold well_formed, keys_unique, refs_valid, data_injective, linked.
  cbn [maps initial]. repeat split; discriminate.
Qed.

Lemma well_formed_run (ops : list Op) (st : State) :
  well_formed st -> well_formed (run ops st).
Proof.
  revert st. induction ops as [|op ops IH]; intros st Hwf; [exact Hwf|].
  cbn. apply IH. destruct op; cbn [SelectorChanged.step].
  - apply well_formed_register, Hwf.
  - apply well_formed_unbind, Hwf.
  - apply well_formed_nodeChange, Hwf.
Qed.

(** *** The callbacks an object holds for a selector *)

Lemma callbacks_of_ext (o : Obj ArrayRef) (h hh : Heap) (k : string) :
  valid_in o h ->
  (forall r, (r < length h)%nat -> read hh r = read h r) ->
  callbacks_of o hh k = callbacks_of o h k.
Proof.
  intros Hv Hread. unfold callbacks_of.
  destruct (Obj_get o k) as [r|] eqn:E; [|reflexivity].
  apply Hread, (Hv k r E).
Qed.

Lemma valid_in_le (o : Obj ArrayRef) (h hh : Heap) :
  valid_in o h -> (length h <= length hh)%nat -> valid_in o hh.
Proof. intros Hv Hle k r Hk. specialize (Hv k r Hk). lia. Qed.

Lemma deleteFromCallbackMap_valid (o : Obj ArrayRef) (sel : string) (cb : Callback)
    (h : Heap) :
  valid_in o h ->
  valid_in (fst (deleteFromCallbackMap o sel cb h))
           (snd (deleteFromCallbackMap o sel cb h)).
Proof.
  intros Hv k r Hk.
  destruct (deleteFromCallbackMap_spec o sel cb h) as (Hlen & _ & Hne & _ & _).
  cbv zeta in *.
  destruct (decide (k = sel)) as [-> | Hk'].
  - destruct (deleteFromCallbackMap_entry o sel cb h r Hk) as (r0 & _ & _ & -> & ->).
    rewrite length_app. cbn. lia.
  - rewrite Hne in Hk by exact Hk'. specialize (Hv k r Hk). lia.
Qed.

(** [deleteFromCallbackMap] filters the callback out of the array of the
    selector, leaves the selector out when nothing remains, and touches no
    other selector. *)
Lemma deleteFromCallbackMap_callbacks (o : Obj ArrayRef) (sel : string)
    (cb : Callback) (h : Heap) (k : string) :
  valid_in o h ->
  let o' := fst (deleteFromCallbackMap o sel cb h) in
  let h' := snd (deleteFromCallbackMap o sel cb h) in
  callbacks_of o' h' k =
    (if bool_decide (k = sel)
     then List.filter (fun x => negb (Nat.eqb x cb)) (callbacks_of o h k)
     else callbacks_of o h k) /\
  Obj_has o' k =
    (if bool_decide (k = sel)
     then negb (Nat.eqb (length (List.filter (fun x => negb (Nat.eqb x cb))
                                             (callbacks_of o h k))) 0)
     else Obj_has o k).
Proof.
  intros Hv o' h'.
  destruct (deleteFromCallbackMap_spec o sel cb h)
    as (Hlen & Hread & Hne & Hnone & Hsome).
  cbv zeta in *. fold o' h' in Hlen, Hread, Hne, Hnone, Hsome.
  unfold callbacks_of, Obj_has.
  case_bool_decide as Hk.
  - subst k. destruct (Obj_get o sel) as [r0|] eqn:E0.
    + destruct (Hsome r0 eq_refl) as (Hh & Hempty & Hfull).
      destruct (List.filter (fun x => negb (Nat.eqb x cb)) (read h r0))
        as [|x l] eqn:El.
      * rewrite Hempty by reflexivity. split; reflexivity.
      * rewrite Hfull by discriminate. rewrite Hh, read_alloc.
        split; reflexivity.
    + destruct (Hnone eq_refl) as [-> _]. rewrite E0. split; reflexivity.
  - rewrite Hne by exact Hk. destruct (Obj_get o k) as [r|] eqn:E; [|auto].
    split; [|reflexivity]. apply Hread, (Hv k r E).
Qed.

Lemma registered_callbacks_eq (st : State) (m : Maps) (k : string) :
  maps st = Some m ->
  registered_callbacks st k = callbacks_of (selectorChangedData m) (heap st) k /\
  matched_callbacks st k = callbacks_of (currentSelectors m) (heap st) k /\
  registered st k = Obj_has (selectorChangedData m) k /\
  matched st k = Obj_has (currentSelectors m) k.
Proof.
  intros Hm. unfold registered_callbacks, matched_callbacks, registered, matched.
  rewrite Hm. repeat split; reflexivity.
Qed.

Lemma no_maps_callbacks (st : State) (k : string) :
  maps st = None ->
  registered_callbacks st k = [] /\ matched_callbacks st k = [] /\
  registered st k = false /\ matched st k = false.
Proof.
  intros Hm. unfold registered_callbacks, matched_callbacks, registered, matched.
  rewrite Hm. repeat split; reflexivity.
Qed.

(** What an unbinding does to the callbacks of every selector. *)
Lemma unbind_callbacks (sel : string) (cb : Callback) (st : State) (k : string) :
  refs_valid st ->
  let keep := List.filter (fun x => negb (Nat.eqb x cb)) in
  let st' := unbind sel cb st in
  registered_callbacks st' k =
    (if bool_decide (k = sel) then keep (registered_callbacks st k)
     else registered_callbacks st k) /\
  matched_callbacks st' k =
    (if bool_decide (k = sel) then keep (matched_callbacks st k)
     else matched_callbacks st k) /\
  registered st' k =
    (if bool_decide (k = sel)
     then negb (Nat.eqb (length (keep (registered_callbacks st k))) 0)
     else registered st k) /\
  matched st' k =
    (if bool_decide (k = sel)
     then negb (Nat.eqb (length (keep (matched_callbacks st k))) 0)
     else matched st k) /\
  calls st' = calls st.
Proof.
  intros Hv keep st'. subst st' keep. destruct (maps st) as [m|] eqn:Hm.
  2:{ unfold unbind. rewrite Hm.
      destruct (no_maps_callbacks st k Hm) as (-> & -> & -> & ->).
      case_bool_decide; repeat split; reflexivity. }
  destruct (registered_callbacks_eq st m k Hm) as (-> & -> & -> & ->).
  destruct (Hv m Hm) as [Hvd Hvc].
  rewrite (unbind_eq sel cb st m Hm).
  unfold registered_callbacks, matched_callbacks, registered, matched.
  cbn [maps heap calls selectorChangedData currentSelectors].
  fold (callbacks_of
          (fst (deleteFromCallbackMap (selectorChangedData m) sel cb (heap st)))
          (snd (deleteFromCallbackMap (currentSelectors m) sel cb
                  (snd (deleteFromCallbackMap (selectorChangedData m) sel cb
                          (heap st))))) k).
  fold (callbacks_of
          (fst (deleteFromCallbackMap (currentSelectors m) sel cb
                  (snd (deleteFromCallbackMap (selectorChangedData m) sel cb
                          (heap st)))))
          (snd (deleteFromCallbackMap (currentSelectors m) sel cb
                  (snd (deleteFromCallbackMap (selectorChangedData m) sel cb
                          (heap st))))) k).
  destruct (deleteFromCallbackMap_callbacks (selectorChangedData m) sel cb
              (heap st) k Hvd) as [Hd1 Hd2].
  pose proof (deleteFromCallbackMap_valid (selectorChangedData m) sel cb
                (heap st) Hvd) as Hvd'.
  destruct (deleteFromCallbackMap_spec (selectorChangedData m) sel cb (heap st))
    as (Hlen1 & Hread1 & _).
  cbv zeta in *.
  set (data' := fst (deleteFromCallbackMap (selectorChangedData m) sel cb (heap st)))
    in *.
  set (h1 := snd (deleteFromCallbackMap (selectorChangedData m) sel cb (heap st)))
    in *.
  assert (Hvc1 : valid_in (currentSelectors m) h1).
  { apply (valid_in_le _ (heap st)); assumption. }
  destruct (deleteFromCallbackMap_callbacks (currentSelectors m) sel cb h1 k Hvc1)
    as [Hc1 Hc2].
  destruct (deleteFromCallbackMap_spec (currentSelectors m) sel cb h1)
    as (Hlen2 & Hread2 & _).
  cbv zeta in *.
  set (cur' := fst (deleteFromCallbackMap (currentSelectors m) sel cb h1)) in *.
  set (h2 := snd (deleteFromCallbackMap (currentSelectors m) sel cb h1)) in *.
  assert (Hcur : callbacks_of (currentSelectors m) h1 k =
                 callbacks_of (currentSelectors m) (heap st) k).
  { apply callbacks_of_ext; assumption. }
  rewrite Hcur in Hc1, Hc2.
  split; [|split; [exact Hc1 | split; [exact Hd2 | split; [exact Hc2 | reflexivity]]]].
  rewrite <- Hd1. apply callbacks_of_ext; assumption.
Qed.

Lemma callbacks_maps (st : State) (k : string) :
  let m0 := match maps st with Some m => m | None => mkMaps [] [] end in
  registered_callbacks st k = callbacks_of (selectorChangedData m0) (heap st) k /\
  matched_callbacks st k = callbacks_of (currentSelectors m0) (heap st) k /\
  registered st k = Obj_has (selectorChangedData m0) k /\
  matched st k = Obj_has (currentSelectors m0) k.
Proof.
  unfold registered_callbacks, matched_callbacks, registered, matched.
  destruct (maps st); repeat split; reflexivity.
Qed.

(** What a registration does to the callbacks of every selector. *)
Lemma register_callbacks (sel : string) (cb : Callback) (start : Node)
    (st : State) :
  well_formed st ->
  let st' := selectorChangedWithUnbind sel cb start st in
  registered_callbacks st' sel = registered_callbacks st sel ++ [cb] /\
  registered st' sel = true /\
  (forall k, k <> sel ->
     registered_callbacks st' k = registered_callbacks st k /\
     matched_callbacks st' k = matched_callbacks st k /\
     registered st' k = registered st k /\
     matched st' k = matched st k) /\
  (matches sel start = true ->
     matched st' sel = true /\
     matched_callbacks st' sel = registered_callbacks st sel ++ [cb]) /\
  (matches sel start = false ->
     matched st' sel = matched st sel /\
     incl (matched_callbacks st sel) (matched_callbacks st' sel)).
Proof.
  intros Hwf st'. subst st'.
  destruct (well_formed_maps st Hwf) as (Hvd & Hvc & Hj & Hl).
  destruct (register_shape sel cb start st (proj1 (proj2 Hwf)))
    as (rs & h' & Hrun & Hrs & Hlt & Hlen & Hread & Hreadrs).
  assert (Hobs : forall k,
            registered_callbacks st k =
              callbacks_of (selectorChangedData
                 match maps st with Some m => m | None => mkMaps [] [] end)
                 (heap st) k /\
            matched_callbacks st k =
              callbacks_of (currentSelectors
                 match maps st with Some m => m | None => mkMaps [] [] end)
                 (heap st) k /\
            registered st k =
              Obj_has (selectorChangedData
                 match maps st with Some m => m | None => mkMaps [] [] end) k /\
            matched st k =
              Obj_has (currentSelectors
                 match maps st with Some m => m | None => mkMaps [] [] end) k).
  { intros k. apply (callbacks_maps st k). }
  cbv zeta in *.
  set (m0 := match maps st with Some m => m | None => mkMaps [] [] end) in *.
  set (data0 := selectorChangedData m0) in *.
  set (cur0 := currentSelectors m0) in *.
  set (data' := if Obj_has data0 sel then data0 else Obj_set sel rs data0) in *.
  set (cur' := match findMatchingNode sel (getParents start) with
               | Some _ => Obj_set sel rs cur0
               | None => cur0
               end) in *.
  rewrite Hrun.
  unfold registered_callbacks at 1, registered at 1.
  cbn [maps heap selectorChangedData currentSelectors].
  assert (Hdsel : Obj_get data' sel = Some rs).
  { subst data'. destruct (Obj_has data0 sel); [exact Hrs|].
    rewrite Obj_get_set. rewrite bool_decide_eq_true_2 by reflexivity.
    reflexivity. }
  assert (Hsel : registered_callbacks st sel ++ [cb] = read h' rs).
  { rewrite Hreadrs. f_equal. rewrite (proj1 (Hobs sel)). unfold callbacks_of.
    destruct (Obj_has data0 sel) eqn:Ehas.
    - rewrite Hrs. reflexivity.
    - unfold Obj_has in Ehas. destruct (Obj_get data0 sel); [discriminate|].
      reflexivity. }
  assert (Hdne : forall k, k <> sel -> Obj_get data' k = Obj_get data0 k).
  { intros k Hk. subst data'. destruct (Obj_has data0 sel); [reflexivity|].
    rewrite Obj_get_set. rewrite bool_decide_eq_false_2 by congruence.
    reflexivity. }
  assert (Hcne : forall k, k <> sel -> Obj_get cur' k = Obj_get cur0 k).
  { intros k Hk. subst cur'.
    destruct (findMatchingNode sel (getParents start)); [|reflexivity].
    rewrite Obj_get_set. rewrite bool_decide_eq_false_2 by congruence.
    reflexivity. }
  assert (Hdfar : forall k r, k <> sel -> Obj_get data0 k = Some r -> r <> rs).
  { intros k r Hk Hr ->. destruct (Obj_has data0 sel) eqn:Ehas.
    - apply Hk. exact (Hj k sel rs Hr Hrs).
    - specialize (Hvd k _ Hr). lia. }
  assert (Hcfar : forall k r, k <> sel -> Obj_get cur0 k = Some r -> r <> rs).
  { intros k r Hk Hr ->. destruct (Hl k rs Hr) as (r' & Hr' & Hrel).
    destruct Hrel as [<- | [Hnot _]].
    - exact (Hdfar k rs Hk Hr' eq_refl).
    - destruct (Obj_has data0 sel) eqn:Ehas.
      + exact (Hnot sel Hrs).
      + specialize (Hvc k _ Hr). lia. }
  split; [rewrite Hdsel; symmetry; exact Hsel|].
  split; [unfold Obj_has; rewrite Hdsel; reflexivity|].
  split; [|split].
  - intros k Hk. destruct (Hobs k) as (-> & -> & -> & ->).
    unfold registered_callbacks, matched_callbacks, registered, matched,
      callbacks_of, Obj_has.
    cbn [maps heap selectorChangedData currentSelectors].
    rewrite (Hdne k Hk), (Hcne k Hk).
    split; [|split; [|split; reflexivity]].
    + destruct (Obj_get data0 k) as [r|] eqn:E; [|reflexivity].
      apply Hread; [exact (Hdfar k r Hk E) | exact (Hvd k r E)].
    + destruct (Obj_get cur0 k) as [r|] eqn:E; [|reflexivity].
      apply Hread; [exact (Hcfar k r Hk E) | exact (Hvc k r E)].
  - intros Hy. apply matches_true in Hy as [n Hn].
    unfold matched, matched_callbacks, Obj_has.
    cbn [maps heap selectorChangedData currentSelectors].
    subst cur'. rewrite Hn. rewrite Obj_get_set.
    rewrite bool_decide_eq_true_2 by reflexivity.
    split; [reflexivity | symmetry; exact Hsel].
  - intros Hn. apply matches_false in Hn.
    destruct (Hobs sel) as (_ & -> & _ & ->).
    unfold matched, matched_callbacks, callbacks_of.
    cbn [maps heap currentSelectors]. subst cur'. rewrite Hn.
    split; [reflexivity|].
    destruct (Obj_get cur0 sel) as [rc|] eqn:Ec; [|intros x []].
    pose proof (Hvc sel rc Ec) as Hrc.
    destruct (decide (rc = rs)) as [-> | Hne].
    + rewrite Hreadrs. destruct (Obj_has data0 sel).
      * apply incl_appl, incl_refl.
      * lia.
    + rewrite (Hread rc Hne Hrc). apply incl_refl.
Qed.

(** What a NodeChange event does to the callbacks of every selector. *)
Lemma nodeChange_callbacks (e : Node) (st : State) (k : string) :
  well_formed st ->
  let st' := nodeChange e st in
  registered_callbacks st' k = registered_callbacks st k /\
  registered st' k = registered st k /\
  matched st' k = registered st k && matches k e /\
  matched_callbacks st' k =
    (if matches k e
     then if matched st k then matched_callbacks st k
          else registered_callbacks st k
     else []).
Proof.
  intros Hwf st'. subst st'. destruct (maps st) as [m|] eqn:Hm.
  2:{ unfold SelectorChanged.nodeChange. rewrite Hm.
      destruct (no_maps_callbacks st k Hm) as (-> & -> & -> & ->).
      destruct (matches k e); repeat split; reflexivity. }
  destruct Hwf as (Hu & Hv & Hj & Hl).
  destruct (Hu m Hm) as [Hnd Hnc]. specialize (Hl m Hm).
  destruct (registered_callbacks_eq st m k Hm) as (-> & -> & -> & ->).
  pose proof (nodeChange_run dom_is getParents e st m Hm) as Hrun.
  cbv zeta in Hrun. rewrite Hrun. clear Hrun.
  pose proof (checkNew_fold_nil dom_is (heap st) (getParents e)
                (selectorChangedData m) (currentSelectors m) (calls st)) as Hloop.
  cbv zeta in Hloop.
  set (res := fold_left (checkNew (heap st) (getParents e)) (selectorChangedData m)
                        (currentSelectors m, [], calls st)) in *.
  destruct Hloop as (_ & HM & Hg & Hin & Hk & _).
  unfold registered_callbacks, matched_callbacks, registered, matched.
  cbn [maps heap selectorChangedData currentSelectors].
  split; [reflexivity|]. split; [reflexivity|].
  unfold Obj_has at 1.
  pose proof (Obj_get_filter (fun x => Obj_has (snd (fst res)) x) (fst (fst res)) k)
    as Hf.
  cbv beta in Hf. rewrite Hf. clear Hf.
  assert (HMk : Obj_has (snd (fst res)) k =
                Obj_has (selectorChangedData m) k && matches k e).
  { apply eq_true_iff_eq. rewrite HM, andb_true_iff.
    rewrite <- Obj_has_keys. rewrite (matches_true dom_is getParents).
    reflexivity. }
  rewrite HMk. unfold callbacks_of.
  destruct (matches k e) eqn:Ey.
  2:{ rewrite andb_false_r. split; reflexivity. }
  rewrite andb_true_r.
  destruct (Obj_get (currentSelectors m) k) as [rc|] eqn:Ec.
  - destruct (Hl k rc Ec) as (rd & Hrd & _).
    assert (Hhas : Obj_has (selectorChangedData m) k = true).
    { apply Obj_has_get. eauto. }
    rewrite Hhas. rewrite (Hg k rc Ec).
    unfold Obj_has. rewrite Ec. split; reflexivity.
  - destruct (Obj_has (selectorChangedData m) k) eqn:Ehas.
    + assert (Hc1 : Obj_has (fst (fst res)) k = true).
      { apply Hk; [apply Obj_has_keys, Ehas | apply matches_true, Ey]. }
      apply Obj_has_get in Hc1 as [r Hr]. rewrite Hr.
      unfold Obj_has. rewrite Ec.
      split; [reflexivity|].
      apply Obj_get_In in Hr. destruct (Hin k r Hr) as [H | [H _]].
      * apply (In_Obj_get _ _ _ Hnc) in H. congruence.
      * rewrite (In_Obj_get _ _ _ Hnd H). reflexivity.
    + unfold Obj_has. rewrite Ec. unfold Obj_has in Ehas.
      destruct (Obj_get (selectorChangedData m) k); [discriminate|].
      split; reflexivity.
Qed.

(** *** The calls of one NodeChange event *)

(** The calls of the first loop, entry by entry of [selectorChangedData]. *)
Lemma checkNew_fold_calls (h : Heap) (ps : list Node) (D : Obj ArrayRef) :
  NoDup (map fst D) ->
  forall (cur mt : Obj ArrayRef) (cl : list Call),
    snd (fold_left (checkNew h ps) D (cur, mt, cl)) =
    cl ++ concat (map (fun kr =>
                         match findMatchingNode (fst kr) ps with
                         | Some n =>
                             if Obj_has cur (fst kr) then []
                             else invoke h (snd kr) true n (fst kr) ps
                         | None => []
                         end) D).
Proof.
  induction D as [|[sel r] D IH]; intros Hnd cur mt cl.
  - cbn. symmetry. apply app_nil_r.
  - cbn [map fst] in Hnd. apply NoDup_cons in Hnd as [Hnotin Hnd].
    cbn [fold_left map concat fst snd]. rewrite checkNew_step.
    destruct (findMatchingNode sel ps) as [n|] eqn:Efind.
    + destruct (Obj_has cur sel) eqn:Ehas.
      * rewrite (IH Hnd). reflexivity.
      * rewrite (IH Hnd). rewrite <- app_assoc. f_equal. f_equal. f_equal.
        apply map_ext_in. intros [k r0] Hin. cbn [fst snd].
        rewrite Obj_has_set. rewrite bool_decide_eq_false_2; [reflexivity|].
        intros <-. apply Hnotin. apply list_elem_of_In.
        apply in_map_iff. exists (sel, r0). auto.
    + rewrite (IH Hnd). reflexivity.
Qed.

Lemma filter_selector_all (sel : string) (l : list Call) :
  (forall c, In c l -> selector c = sel) ->
  List.filter (fun c => bool_decide (selector c = sel)) l = l.
Proof.
  induction l as [|c l IH]; intros H; [reflexivity|].
  cbn. rewrite bool_decide_eq_true_2 by (apply H; left; reflexivity).
  f_equal. apply IH. intros c' Hc'. apply H. right. exact Hc'.
Qed.

Lemma filter_selector_none (sel : string) (l : list Call) :
  (forall c, In c l -> selector c <> sel) ->
  List.filter (fun c => bool_decide (selector c = sel)) l = [].
Proof.
  induction l as [|c l IH]; intros H; [reflexivity|].
  cbn. rewrite bool_decide_eq_false_2 by (apply H; left; reflexivity).
  apply IH. intros c' Hc'. apply H. right. exact Hc'.
Qed.

(** The calls made entry by entry of an object, each for the selector of
    its entry: those for one selector are the calls of its entry. *)
Lemma filter_selector_concat (F : string * ArrayRef -> list Call)
    (L : Obj ArrayRef) (sel : string) :
  NoDup (map fst L) ->
  (forall kr c, In c (F kr) -> selector c = fst kr) ->
  List.filter (fun c => bool_decide (selector c = sel)) (concat (map F L)) =
  match Obj_get L sel with Some r => F (sel, r) | None => [] end.
Proof.
  intros Hnd HF. induction L as [|[k r] L IH]; [reflexivity|].
  cbn [map fst] in Hnd. apply NoDup_cons in Hnd as [Hnotin Hnd].
  cbn [map concat]. rewrite List.filter_app, (IH Hnd), Obj_get_cons.
  case_bool_decide as Hk.
  - subst k. rewrite filter_selector_all.
    2:{ intros c Hc. apply (HF (sel, r) c Hc). }
    destruct (Obj_get L sel) as [r'|] eqn:E; [|apply app_nil_r].
    exfalso. apply Hnotin. apply list_elem_of_In. apply in_map_iff.
    exists (sel, r'). split; [reflexivity | apply Obj_get_In, E].
  - rewrite filter_selector_none; [reflexivity|].
    intros c Hc Heq. apply Hk. rewrite <- Heq. symmetry. apply (HF (k, r) c Hc).
Qed.

Lemma invoke_selector (h : Heap) (r : ArrayRef) (b : bool) (n : Node)
    (sel : string) (ps : list Node) (c : Call) :
  In c (invoke h r b n sel ps) -> selector c = sel /\ active c = b.
Proof. intros H. apply In_invoke in H as [cb [_ ->]]. split; reflexivity. Qed.

(** One NodeChange event, once [setup] has run: the calls made, as the
    calls of the first loop followed by those of the second. *)
Lemma nodeChange_new_calls (e : Node) (st : State) (m : Maps) :
  maps st = Some m ->
  NoDup (map fst (selectorChangedData m)) ->
  let ps := getParents e in
  let res := fold_left (checkNew (heap st) ps) (selectorChangedData m)
                       (currentSelectors m, [], calls st) in
  new_calls st (nodeChange e st) =
  concat (map (fun kr =>
                 match findMatchingNode (fst kr) ps with
                 | Some n =>
                     if Obj_has (currentSelectors m) (fst kr) then []
                     else invoke (heap st) (snd kr) true n (fst kr) ps
                 | None => []
                 end) (selectorChangedData m))
  ++ concat (map (fun kr => if Obj_has (snd (fst res)) (fst kr) then []
                            else invoke (heap st) (snd kr) false e (fst kr) ps)
                 (fst (fst res))).
Proof.
  intros Hm Hnd ps res.
  pose proof (nodeChange_run dom_is getParents e st m Hm) as Hrun.
  cbv zeta in Hrun. fold ps in Hrun. fold res in Hrun.
  unfold new_calls. rewrite Hrun. cbn [calls].
  subst res. rewrite (checkNew_fold_calls (heap st) ps (selectorChangedData m) Hnd).
  rewrite <- app_assoc. apply drop_app_length.
Qed.

(** The entries of [currentSelectors] after the first loop. *)
Lemma checkNew_fold_get (h : Heap) (ps : list Node) (D cur : Obj ArrayRef)
    (cl : list Call) (k : string) :
  NoDup (map fst D) -> NoDup (map fst cur) ->
  Obj_get (fst (fst (fold_left (checkNew h ps) D (cur, [], cl)))) k =
  match Obj_get cur k with
  | Some r => Some r
  | None =>
      match findMatchingNode k ps with
      | Some _ => Obj_get D k
      | None => None
      end
  end.
Proof.
  intros HndD Hndc.
  destruct (checkNew_fold_nil dom_is h ps D cur cl) as (_ & _ & Hg & Hin & Hk & _).
  destruct (Obj_get cur k) as [r|] eqn:Ec; [apply Hg, Ec|].
  destruct (Obj_get (fst (fst (fold_left (checkNew h ps) D (cur, [], cl)))) k)
    as [r|] eqn:E1.
  - apply Obj_get_In in E1. destruct (Hin k r E1) as [H | [H [n Hn]]].
    + apply (In_Obj_get _ _ _ Hndc) in H. congruence.
    + rewrite Hn. symmetry. apply In_Obj_get; assumption.
  - destruct (findMatchingNode k ps) as [n|] eqn:Ef; [|reflexivity].
    destruct (Obj_get D k) as [r|] eqn:Ed; [|reflexivity].
    assert (Hhas : Obj_has (fst (fst (fold_left (checkNew h ps) D (cur, [], cl)))) k
                   = true).
    { apply Hk; [|eauto]. apply Obj_has_keys, Obj_has_get. eauto. }
    unfold Obj_has in Hhas. rewrite E1 in Hhas. discriminate.
Qed.

Lemma matched_incl (st : State) (k : string) :
  well_formed st ->
  (matched st k = true -> registered st k = true) /\
  incl (matched_callbacks st k) (registered_callbacks st k).
Proof.
  intros (_ & _ & _ & Hl). destruct (maps st) as [m|] eqn:Hm.
  2:{ destruct (no_maps_callbacks st k Hm) as (-> & -> & -> & ->).
      split; [discriminate | apply incl_refl]. }
  destruct (registered_callbacks_eq st m k Hm) as (-> & -> & -> & ->).
  unfold callbacks_of, Obj_has.
  destruct (Obj_get (currentSelectors m) k) as [rc|] eqn:Ec.
  - destruct (Hl m Hm k rc Ec) as (rd & -> & Hrel). split; [reflexivity|].
    destruct Hrel as [-> | [_ H]]; [apply incl_refl | exact H].
  - split; [discriminate | intros x []].
Qed.

(** The calls of one NodeChange event for one selector. *)
Lemma nodeChange_calls_of (e : Node) (st : State) (sel : string) :
  well_formed st ->
  List.filter (fun c => bool_decide (selector c = sel))
              (new_calls st (nodeChange e st)) =
  match findMatchingNode sel (getParents e) with
  | Some n =>
      if matched st sel then []
      else map (fun cb => mkCall cb true n sel (getParents e))
               (registered_callbacks st sel)
  | None =>
      map (fun cb => mkCall cb false e sel (getParents e))
          (matched_callbacks st sel)
  end.
Proof.
  intros Hwf. destruct (maps st) as [m|] eqn:Hm.
  2:{ unfold SelectorChanged.nodeChange. rewrite Hm.
      destruct (no_maps_callbacks st sel Hm) as (-> & -> & _ & ->).
      unfold new_calls. rewrite drop_all.
      destruct (findMatchingNode sel (getParents e)); reflexivity. }
  destruct (matched_incl st sel Hwf) as [Hreg _].
  destruct Hwf as (Hu & _). destruct (Hu m Hm) as [Hnd Hnc].
  destruct (registered_callbacks_eq st m sel Hm) as (Er & Em & Eg & Ec).
  rewrite Er, Em, Ec. rewrite Eg, Ec in Hreg. clear Er Em Eg Ec.
  pose proof (nodeChange_new_calls e st m Hm Hnd) as Hnew. cbv zeta in Hnew.
  rewrite Hnew. clear Hnew. rewrite List.filter_app.
  pose proof (checkNew_fold_nil dom_is (heap st) (getParents e)
                (selectorChangedData m) (currentSelectors m) (calls st)) as Hloop.
  cbv zeta in Hloop.
  pose proof (checkNew_fold_get (heap st) (getParents e) (selectorChangedData m)
                (currentSelectors m) (calls st) sel Hnd Hnc) as Hget.
  set (res := fold_left (checkNew (heap st) (getParents e)) (selectorChangedData m)
                        (currentSelectors m, [], calls st)) in *.
  destruct Hloop as (_ & HM & _ & _ & _ & Hnd1).
  rewrite (filter_selector_concat _ (selectorChangedData m) sel Hnd).
  2:{ intros [k r] c. cbn [fst snd].
      destruct (findMatchingNode k (getParents e)); [|intros []].
      destruct (Obj_has (currentSelectors m) k); [intros []|].
      intros H. apply (invoke_selector _ _ _ _ _ _ _ H). }
  rewrite (filter_selector_concat _ (fst (fst res)) sel (Hnd1 Hnc)).
  2:{ intros [k r] c. cbn [fst snd].
      destruct (Obj_has (snd (fst res)) k); [intros []|].
      intros H. apply (invoke_selector _ _ _ _ _ _ _ H). }
  cbn [fst snd]. rewrite Hget. clear Hget.
  assert (HMk : Obj_has (snd (fst res)) sel =
                Obj_has (selectorChangedData m) sel &&
                match findMatchingNode sel (getParents e) with
                | Some _ => true
                | None => false
                end).
  { apply eq_true_iff_eq. rewrite HM, andb_true_iff.
    rewrite <- Obj_has_keys.
    destruct (findMatchingNode sel (getParents e)) as [n|].
    - split; [intros [H _]; auto | intros [H _]; eauto].
    - split; [intros [_ [n Hn]]; discriminate | intros [_ H]; discriminate]. }
  rewrite HMk. clear HMk. unfold callbacks_of, Obj_has in *. unfold invoke.
  destruct (findMatchingNode sel (getParents e)) as [n|] eqn:Efind.
  - destruct (Obj_get (currentSelectors m) sel) as [rc|] eqn:Ec.
    + rewrite Hreg by reflexivity. cbn [andb].
      destruct (Obj_get (selectorChangedData m) sel); reflexivity.
    + destruct (Obj_get (selectorChangedData m) sel) as [rd|] eqn:Ed;
        cbn [andb]; [apply app_nil_r | reflexivity].
  - rewrite andb_false_r.
    destruct (Obj_get (selectorChangedData m) sel);
      destruct (Obj_get (currentSelectors m) sel); reflexivity.
Qed.

Lemma filter_all {A : Type} (f : A -> bool) (l : list A) :
  (forall x, In x l -> f x = true) -> List.filter f l = l.
Proof.
  induction l as [|x l IH]; intros H; [reflexivity|].
  cbn. rewrite (H x) by (left; reflexivity). f_equal.
  apply IH. intros y Hy. apply H. right. exact Hy.
Qed.

Lemma filter_none {A : Type} (f : A -> bool) (l : list A) :
  (forall x, In x l -> f x = false) -> List.filter f l = [].
Proof.
  induction l as [|x l IH]; intros H; [reflexivity|].
  cbn. rewrite (H x) by (left; reflexivity).
  apply IH. intros y Hy. apply H. right. exact Hy.
Qed.

Lemma nodeChange_calls_order (e : Node) (st : State) :
  keys_unique st ->
  new_calls st (nodeChange e st) =
  List.filter active (new_calls st (nodeChange e st))
  ++ List.filter (fun c => negb (active c)) (new_calls st (nodeChange e st)).
Proof.
  intros Hu. destruct (maps st) as [m|] eqn:Hm.
  2:{ unfold SelectorChanged.nodeChange. rewrite Hm.
      unfold new_calls. rewrite drop_all. reflexivity. }
  destruct (Hu m Hm) as [Hnd _].
  pose proof (nodeChange_new_calls e st m Hm Hnd) as Hnew. cbv zeta in Hnew.
  rewrite Hnew. clear Hnew.
  set (res := fold_left (checkNew (heap st) (getParents e)) (selectorChangedData m)
                        (currentSelectors m, [], calls st)).
  set (A := concat (map _ (selectorChangedData m))).
  set (B := concat (map _ (fst (fst res)))).
  assert (HA : forall c, In c A -> active c = true).
  { intros c Hc. subst A. apply in_concat in Hc as [l [Hl Hc]].
    apply in_map_iff in Hl as [[k r] [<- _]]. cbn [fst snd] in Hc.
    destruct (findMatchingNode k (getParents e)); [|destruct Hc].
    destruct (Obj_has (currentSelectors m) k); [destruct Hc|].
    apply (invoke_selector _ _ _ _ _ _ _ Hc). }
  assert (HB : forall c, In c B -> active c = false).
  { intros c Hc. subst B. apply in_concat in Hc as [l [Hl Hc]].
    apply in_map_iff in Hl as [[k r] [<- _]]. cbn [fst snd] in Hc.
    destruct (Obj_has (snd (fst res)) k); [destruct Hc|].
    apply (invoke_selector _ _ _ _ _ _ _ Hc). }
  rewrite !List.filter_app.
  rewrite (filter_all active A HA).
  rewrite (filter_none active B HB).
  rewrite (filter_none (fun c => negb (active c)) A).
  2:{ intros c Hc. rewrite (HA c Hc). reflexivity. }
  rewrite (filter_all (fun c => negb (active c)) B).
  2:{ intros c Hc. rewrite (HB c Hc). reflexivity. }
  rewrite app_nil_r. reflexivity.
Qed.

(** *** Selectors always hold callbacks *)

Lemma populated_step (op : Op) (st : State) :
  well_formed st -> populated st -> populated (step op st).
Proof.
  intros Hwf Hp k. destruct (Hp k) as [Hr Hm].
  destruct op as [sel cb start | sel cb | e]; cbn [SelectorChanged.step].
  - destruct (register_callbacks sel cb start st Hwf)
      as (Hsel & _ & Hother & Hyes & Hno).
    destruct (decide (k = sel)) as [-> | Hk].
    + split.
      * intros _. rewrite Hsel. intros H. apply app_eq_nil in H as [_ H].
        discriminate.
      * destruct (matches sel start) eqn:Ey.
        -- destruct (Hyes eq_refl) as [_ ->]. intros _ H.
           apply app_eq_nil in H as [_ H]. discriminate.
        -- destruct (Hno eq_refl) as [-> Hincl]. intros Hmt Hnil.
           apply (Hm Hmt). rewrite Hnil in Hincl.
           destruct (matched_callbacks st sel) as [|x l]; [reflexivity|].
           destruct (Hincl x). left. reflexivity.
    + destruct (Hother k Hk) as (-> & -> & -> & ->). split; assumption.
  - destruct (unbind_callbacks sel cb st k (proj1 (proj2 Hwf)))
      as (-> & -> & -> & -> & _).
    case_bool_decide as Hk; [|split; assumption].
    split; intros Hflag Hnil; rewrite Hnil in Hflag; discriminate.
  - destruct (nodeChange_callbacks e st k Hwf) as (-> & -> & -> & ->).
    split; [exact Hr|]. intros H. apply andb_true_iff in H as [H1 ->].
    destruct (matched st k); auto.
Qed.

Lemma populated_run (ops : list Op) (st : State) :
  well_formed st -> populated st -> populated (run ops st).
Proof.
  revert st. induction ops as [|op ops IH]; intros st Hwf Hp; [exact Hp|].
  cbn. apply IH.
  - apply (well_formed_run [op]), Hwf.
  - apply populated_step; assumption.
Qed.

(** *** A callback that is not registered is not called *)

Lemma absent_step (sel : string) (cb : Callback) (op : Op) (st : State) :
  well_formed st ->
  registers sel cb op = false ->
  ~ In cb (registered_callbacks st sel) ->
  ~ In cb (registered_callbacks (step op st) sel).
Proof.
  intros Hwf Hop Habs.
  destruct op as [sel' cb' start | sel' cb' | e]; cbn [SelectorChanged.step].
  - destruct (register_callbacks sel' cb' start st Hwf) as (Hsel & _ & Hother & _).
    destruct (decide (sel = sel')) as [<- | Hk].
    + rewrite Hsel. intros Hin. apply in_app_iff in Hin as [Hin | [<- | []]].
      * exact (Habs Hin).
      * cbn in Hop. rewrite bool_decide_eq_true_2 in Hop by reflexivity.
        rewrite Nat.eqb_refl in Hop. discriminate.
    + destruct (Hother sel Hk) as (-> & _). exact Habs.
  - destruct (unbind_callbacks sel' cb' st sel (proj1 (proj2 Hwf))) as (-> & _).
    case_bool_decide; [|exact Habs].
    intros Hin. apply List.filter_In in Hin as [Hin _]. exact (Habs Hin).
  - destruct (nodeChange_callbacks e st sel Hwf) as (-> & _). exact Habs.
Qed.

Lemma step_new_calls (op : Op) (st : State) :
  well_formed st ->
  exists new,
    calls (step op st) = calls st ++ new /\
    forall c, In c new -> In (callback c) (registered_callbacks st (selector c)).
Proof.
  intros Hwf. destruct op as [sel cb start | sel cb | e]; cbn [SelectorChanged.step].
  - exists []. split; [|intros c []].
    destruct (selectorChangedWithUnbind_run dom_is getParents sel cb start st)
      as [h' ->].
    cbn. symmetry. apply app_nil_r.
  - exists []. split; [|intros c []].
    destruct (unbind_callbacks sel cb st sel (proj1 (proj2 Hwf)))
      as (_ & _ & _ & _ & ->).
    symmetry. apply app_nil_r.
  - exists (new_calls st (nodeChange e st)). split.
    + destruct (maps st) as [m|] eqn:Hm.
      * apply (nodeChange_calls dom_is getParents e st m Hm).
        apply (proj1 Hwf m Hm).
      * unfold SelectorChanged.nodeChange. rewrite Hm. unfold new_calls.
        rewrite drop_all. symmetry. apply app_nil_r.
    + intros c Hc.
      assert (Hin : In c (List.filter (fun x => bool_decide (selector x = selector c))
                                      (new_calls st (nodeChange e st)))).
      { apply List.filter_In. split; [exact Hc|].
        apply bool_decide_eq_true_2. reflexivity. }
      rewrite (nodeChange_calls_of e st (selector c) Hwf) in Hin.
      destruct (findMatchingNode (selector c) (getParents e)) as [n|].
      * destruct (matched st (selector c)); [destruct Hin|].
        apply in_map_iff in Hin as [x [<- Hx]]. exact Hx.
      * apply in_map_iff in Hin as [x [<- Hx]]. cbn [callback selector].
        apply (proj2 (matched_incl st (selector c) Hwf)). exact Hx.
Qed.

Lemma absent_run (sel : string) (cb : Callback) (ops : list Op) :
  forallb (fun op => negb (registers sel cb op)) ops = true ->
  forall st,
    well_formed st ->
    ~ In cb (registered_callbacks st sel) ->
    exists new,
      calls (run ops st) = calls st ++ new /\
      forall c, In c new -> selector c = sel -> callback c <> cb.
Proof.
  induction ops as [|op ops IH]; intros Hops st Hwf Habs.
  - exists []. split; [symmetry; apply app_nil_r | intros c []].
  - cbn in Hops. apply andb_true_iff in Hops as [Hop Hops].
    apply negb_true_iff in Hop.
    destruct (step_new_calls op st Hwf) as (new1 & Hc1 & Hn1).
    destruct (IH Hops (step op st)) as (new2 & Hc2 & Hn2).
    + apply (well_formed_run [op]), Hwf.
    + apply absent_step; assumption.
    + exists (new1 ++ new2). split.
      * change (run (op :: ops) st) with (run ops (step op st)).
        rewrite Hc2, Hc1. symmetry. apply app_assoc.
      * intros c Hc Hsel Hcb. apply in_app_iff in Hc as [Hc | Hc].
        -- apply Habs. rewrite <- Hsel, <- Hcb. apply Hn1, Hc.
        -- exact (Hn2 c Hc Hsel Hcb).
Qed.

(** *** The reachable states *)

(** X14.  In every state reached from the start by registrations,
    unbindings and NodeChange events, a selector that is currently matched
    is a registered selector, and every callback held for it in
    [currentSelectors] is one of the callbacks registered for it in
    [selectorChangedData]: unbinding never leaves a matched selector or a
    matched callback behind. *)
Theorem matched_within_registered (ops : list Op) (sel : string) :
  let st := run ops initial in
  (matched st sel = true -> registered st sel = true) /\
  incl (matched_callbacks st sel) (registered_callbacks st sel).
Proof.
  intros st. apply matched_incl. apply well_formed_run, well_formed_initial.
Qed.

(** X15.  In every reachable state an unbinding of [cb] for [sel] makes no
    call, removes every occurrence of [cb] from the callbacks registered
    for [sel] and from the callbacks matched for [sel], keeping the others in
    order; [sel] stays registered (matched) exactly when a callback
    remains; no other selector is touched. *)
Theorem unbind_removes_callback (ops : list Op) (sel : string) (cb : Callback)
    (k : string) :
  let st := run ops initial in
  let keep := List.filter (fun x => negb (Nat.eqb x cb)) in
  let st' := unbind sel cb st in
  registered_callbacks st' k =
    (if bool_decide (k = sel) then keep (registered_callbacks st k)
     else registered_callbacks st k) /\
  matched_callbacks st' k =
    (if bool_decide (k = sel) then keep (matched_callbacks st k)
     else matched_callbacks st k) /\
  registered st' k =
    (if bool_decide (k = sel)
     then negb (Nat.eqb (length (keep (registered_callbacks st k))) 0)
     else registered st k) /\
  matched st' k =
    (if bool_decide (k = sel)
     then negb (Nat.eqb (length (keep (matched_callbacks st k))) 0)
     else matched st k) /\
  calls st' = calls st.
Proof.
  intros st. apply unbind_callbacks.
  apply (well_formed_run ops initial well_formed_initial).
Qed.


(** X17.  In every reachable state, the calls one NodeChange event makes
    for a selector, in order: when an ancestor [n] of the element matches
    the selector (the first one that does) and the selector is not currently
    matched, one call with [true] and the node [n] per callback registered
    for it, in registration order; when an ancestor matches and the selector
    is already matched, none; when no ancestor matches, one call with
    [false] and the element of the event as node per callback currently
    matched for it.  Every call carries the list of ancestors. *)
Theorem calls_of_selector (ops : list Op) (e : Node) (sel : string) :
  let st := run ops initial in
  List.filter (fun c => bool_decide (selector c = sel))
              (new_calls st (nodeChange e st)) =
  match findMatchingNode sel (getParents e) with
  | Some n =>
      if matched st sel then []
      else map (fun cb => mkCall cb true n sel (getParents e))
               (registered_callbacks st sel)
  | None =>
      map (fun cb => mkCall cb false e sel (getParents e))
          (matched_callbacks st sel)
  end.
Proof.
  intros st. apply nodeChange_calls_of.
  apply well_formed_run, well_formed_initial.
Qed.

(** X18.  In every reachable state, one NodeChange event makes all its
    calls with [true] before any call with [false]. *)
Theorem activations_precede_deactivations (ops : list Op) (e : Node) :
  let st := run ops initial in
  new_calls st (nodeChange e st) =
  List.filter active (new_calls st (nodeChange e st))
  ++ List.filter (fun c => negb (active c)) (new_calls st (nodeChange e st)).
Proof.
  intros st. apply nodeChange_calls_order.
  apply (keys_unique_run dom_is getParents), keys_unique_initial.
Qed.

(** X19.  In every reachable state, after a NodeChange event a selector is
    matched exactly when it is registered and an ancestor of the element
    matches it; its matched callbacks are then the ones it had when it was
    already matched, and all the registered ones when it was not; the
    registrations are unchanged. *)
Theorem nodeChange_match_state (ops : list Op) (e : Node) (k : string) :
  let st := run ops initial in
  let st' := nodeChange e st in
  registered_callbacks st' k = registered_callbacks st k /\
  registered st' k = registered st k /\
  matched st' k = registered st k && matches k e /\
  matched_callbacks st' k =
    (if matches k e
     then if matched st k then matched_callbacks st k
          else registered_callbacks st k
     else []).
Proof.
  intros st. apply nodeChange_callbacks.
  apply well_formed_run, well_formed_initial.
Qed.

(** X20.  Once a callback has been unbound for a selector, in any
    reachable state, no later NodeChange event calls it for that selector,
    whatever is registered, unbound or selected afterwards, as long as the
    same callback is not registered again for the same selector. *)
Theorem unbound_callback_not_called (ops ops' : list Op) (sel : string)
    (cb : Callback) :
  forallb (fun op => negb (registers sel cb op)) ops' = true ->
  let st := unbind sel cb (run ops initial) in
  forall c, In c (new_calls st (run ops' st)) ->
            selector c = sel -> callback c <> cb.
Proof.
  intros Hops st.
  assert (Hwf0 : well_formed (run ops initial)).
  { apply well_formed_run, well_formed_initial. }
  assert (Hwf : well_formed st) by apply well_formed_unbind, Hwf0.
  assert (Habs : ~ In cb (registered_callbacks st sel)).
  { subst st.
    destruct (unbind_callbacks sel cb (run ops initial) sel (proj1 (proj2 Hwf0)))
      as (-> & _).
    rewrite bool_decide_eq_true_2 by reflexivity.
    intros Hin. apply List.filter_In in Hin as [_ Hin].
    rewrite Nat.eqb_refl in Hin. discriminate. }
  destruct (absent_run sel cb ops' Hops st Hwf Habs) as (new & Hcalls & Hnew).
  unfold new_calls. rewrite Hcalls, drop_app_length. exact Hnew.
Qed.

(** X21.  In every reachable state a registered selector has at least one
    registered callback and a matched selector at least one matched
    callback: an unbinding that removes the last callback removes the
    selector. *)
Theorem selectors_hold_callbacks (ops : list Op) (k : string) :
  let st := run ops initial in
  (registered st k = true -> registered_callbacks st k <> []) /\
  (matched st k = true -> matched_callbacks st k <> []).
Proof.
  intros st. apply (populated_run ops initial well_formed_initial).
  intros k'. split; discriminate.
Qed.

End Reachable.

(** After an unbinding the matched entry holds fewer callbacks than the
    registered one once a callback is registered outside the element. *)
Lemma matched_within_registered_witness :
  registered (run Demo.dom_is Demo.getParents
                [Register "b" 7%nat 1%nat; Register "b" 8%nat 1%nat;
                 Unbind "b" 7%nat; Register "b" 9%nat 3%nat] initial) "b" = true.
Proof.
  exact (proj1 (matched_within_registered Demo.dom_is Demo.getParents
                  [Register "b" 7%nat 1%nat; Register "b" 8%nat 1%nat;
                   Unbind "b" 7%nat; Register "b" 9%nat 3%nat] "b") eq_refl).
Defined.


Lemma unbound_callback_not_called_witness :
  callback (mkCall 8%nat true 1%nat "b" [1; 2]%nat) <> 7%nat.
Proof.
  apply (unbound_callback_not_called Demo.dom_is Demo.getParents
           [Register "b" 7%nat 3%nat; Register "b" 8%nat 3%nat]
           [Register "p" 7%nat 3%nat; NodeChange 1%nat] "b" 7%nat).
  - reflexivity.
  - vm_compute. left. reflexivity.
  - reflexivity.
Defined.

Lemma selectors_hold_callbacks_witness :
  registered_callbacks
    (run Demo.dom_is Demo.getParents
       [Register "b" 7%nat 3%nat; Register "b" 8%nat 3%nat; Unbind "b" 7%nat]
       initial) "b" <> [].
Proof.
  exact (proj1 (selectors_hold_callbacks Demo.dom_is Demo.getParents
                  [Register "b" 7%nat 3%nat; Register "b" 8%nat 3%nat;
                   Unbind "b" 7%nat] "b") eq_refl).
Defined.

End SelectorChangedMore.
